(** * Color Switch: a shallow embedding of the Figma plugin's matching core

    The plugin (src/code.ts, src/variableCollectionUtils.ts) scans unbound solid
    paints, matches them against the COLOR variables of a collection through an
    RGB+alpha key, ranks near matches by RGB distance, and binds variables back
    onto the paints.

    Numbers are IEEE-754 binary64 values, as in ECMAScript: they are Rocq's
    primitive floats, and the arithmetic below is binary64 arithmetic.
    Strings are [string]: one character stands for one code unit; the Korean
    message literals of the source appear as their UTF-8 bytes. *)

From Stdlib Require Import ZArith Uint63 Floats String Ascii List Bool Lia.
From Stdlib Require Import Permutation Sorted.
From Stdlib Require OrderedTypeEx.
From stdpp Require Import gmap strings.

Local Open Scope string_scope.
Local Open Scope list_scope.
Local Open Scope Z_scope.

(** Decimal literals such as 0.01 denote the nearest binary64 value, as they
    do in the source. *)
#[local] Set Warnings "-inexact-float,-register-all".

(** ** Strings *)

(** ECMAScript WhiteSpace and LineTerminator code units below 256. *)
Definition isWhiteSpace (c : ascii) : bool :=
  let n := N_of_ascii c in
  ((9 <=? n) && (n <=? 13) || (n =? 32) || (n =? 160))%N.

Fixpoint trimStart (s : string) : string :=
  match s with
  | String c s' => if isWhiteSpace c then trimStart s' else s
  | EmptyString => EmptyString
  end.

Fixpoint trimEnd (s : string) : string :=
  match s with
  | String c s' =>
      match trimEnd s' with
      | EmptyString => if isWhiteSpace c then EmptyString else String c EmptyString
      | t => String c t
      end
  | EmptyString => EmptyString
  end.

(** [s.trim()] *)
Definition trim (s : string) : string := trimEnd (trimStart s).

(** [s.startsWith(p)] *)
Definition startsWith (s p : string) : bool := String.prefix p s.

(** [s.replace(/^#/, "")] *)
Definition stripLeadingHash (s : string) : string :=
  match s with
  | String c s' => if Ascii.eqb c "#" then s' else s
  | EmptyString => s
  end.

Definition lowerChar (c : ascii) : ascii :=
  let n := N_of_ascii c in
  if ((65 <=? n) && (n <=? 90) || (192 <=? n) && (n <=? 222) && negb (n =? 215))%N
  then ascii_of_N (n + 32) else c.

(** [s.toLowerCase()] on code units below 256. *)
Fixpoint toLowerCase (s : string) : string :=
  match s with
  | String c s' => String (lowerChar c) (toLowerCase s')
  | EmptyString => EmptyString
  end.

(** [parts.join(sep)] *)
Fixpoint join (sep : string) (parts : list string) : string :=
  match parts with
  | [] => EmptyString
  | [p] => p
  | p :: rest => p +:+ sep +:+ join sep rest
  end.

(** [s.padStart(n, "0")] *)
Definition padStart0 (n : nat) (s : string) : string :=
  String.concat "" (repeat "0" (n - String.length s)) +:+ s.

(** The double quote, for the message literals that embed one. *)
Definition dquote : string := String (ascii_of_nat 34) EmptyString.

(** Positional digits of a non-negative integer, most significant first. *)
Definition digitChar (d : Z) : ascii :=
  nth (Z.to_nat d)
    ["0"; "1"; "2"; "3"; "4"; "5"; "6"; "7"; "8"; "9";
     "a"; "b"; "c"; "d"; "e"; "f"]%char "0"%char.

Fixpoint digitsFrom (fuel : nat) (radix n : Z) (acc : string) : string :=
  match fuel with
  | O => acc
  | S f =>
      if n <? radix then String (digitChar n) acc
      else digitsFrom f radix (n / radix) (String (digitChar (n mod radix)) acc)
  end.

Definition digitString (radix n : Z) : string :=
  digitsFrom (S (Z.to_nat (Z.log2 n))) radix n EmptyString.

Definition zeros (n : Z) : string := String.concat "" (repeat "0" (Z.to_nat n)).

(** ** ECMAScript numbers *)

Module Math.

(** The float whose value is the integer [q], for [|q| <= 2^53]. *)
Definition ofInteger (q : Z) : float :=
  if q <? 0 then PrimFloat.opp (PrimFloat.of_uint63 (Uint63.of_Z (- q)))
  else PrimFloat.of_uint63 (Uint63.of_Z q).

(** [Math.round]: the integer nearest to [x], ties towards +Infinity;
    NaN, infinities, zeros and integers are returned unchanged, and a
    result of zero keeps the sign of [x].  The value [floor (x + 1/2)] is
    taken on the exact mantissa and exponent. *)
Definition round (x : float) : float :=
  match Prim2SF x with
  | S754_finite s m e =>
      if 0 <=? e then x
      else
        let sm := if s then Z.neg m else Z.pos m in
        let q := (2 * sm + 2 ^ (- e)) / 2 ^ (1 - e) in
        if q =? 0 then (if s then PrimFloat.neg_zero else PrimFloat.zero) else ofInteger q
  | _ => x
  end.

(** [Math.min(a, b)] and [Math.max(a, b)]: NaN if either is NaN, and
    -0 counts as smaller than +0. *)
Definition min (a b : float) : float :=
  if is_nan a || is_nan b then PrimFloat.nan
  else if PrimFloat.ltb a b then a
  else if PrimFloat.ltb b a then b
  else if get_sign a then a else b.

Definition max (a b : float) : float :=
  if is_nan a || is_nan b then PrimFloat.nan
  else if PrimFloat.ltb b a then a
  else if PrimFloat.ltb a b then b
  else if get_sign a then b else a.

Definition abs : float -> float := PrimFloat.abs.
Definition sqrt : float -> float := PrimFloat.sqrt.

End Math.

Module Number.

(** The decimal digits [s], their count [k] and the exponent [n] of
    Number::toString: [s * 10^(n-k)] rounds to [m * 2^e], [k] is as small
    as possible, and among the candidates [s] is the one closest to the
    value, the even one of two that are equally close.

    Everything is counted in units of [2^(e-2)]: the value is [4m], the
    midpoints to its neighbours are [4m+2] above and [4m-2] below ([4m-1]
    when [m] is the least mantissa of its binade), and a midpoint rounds
    to [m] exactly when [m] is even. *)
Section Shortest.
Variables (m : positive) (e : Z).

Let V := 4 * Z.pos m.
Let HI := V + 2.
Let LO := if (Z.pos m =? 2 ^ 52) && (-1074 <? e) then V - 1 else V - 2.
Let P := 2 ^ Z.max (e - 2) 0.
Let Q := 2 ^ Z.max (2 - e) 0.

(** [value < 10^n] *)
Definition below10 (n : Z) : bool :=
  if 0 <=? n then V * P <? 10 ^ n * Q else V * P * 10 ^ (- n) <? Q.

Fixpoint findExponent (fuel : nat) (n : Z) : Z :=
  match fuel with
  | O => n
  | S f => if below10 n then n else findExponent f (n + 1)
  end.

(** The least [n] with [value < 10^n]. *)
Definition exponent10 : Z :=
  findExponent 6 (((Z.log2 (Z.pos m) + e) * 30103) / 100000 - 1).

Definition ceilDiv (a b : Z) : Z := - ((- a) / b).

(** The integer nearest to [a / b], the even one of two. *)
Definition nearestEven (a b : Z) : Z :=
  let q := a / b in
  let twice := 2 * (a mod b) in
  if twice <? b then q
  else if b <? twice then q + 1
  else if Z.even q then q else q + 1.

(** The significand [s] with [10^(k-1) <= s <= 10^k] for which
    [s * 10^(n-k)] lies in the rounding interval, closest to the value, if
    there is one. *)
Definition candidate (k n : Z) : option Z :=
  let d := n - k in
  let num := fun x => if 0 <=? d then x * P else x * P * 10 ^ (- d) in
  let den := if 0 <=? d then 10 ^ d * Q else Q in
  let smin := if Z.even (Z.pos m) then ceilDiv (num LO) den else num LO / den + 1 in
  let smax := if Z.even (Z.pos m) then num HI / den else ceilDiv (num HI) den - 1 in
  let smin := Z.max smin (10 ^ (k - 1)) in
  let smax := Z.min smax (10 ^ k) in
  if smin <=? smax
  then Some (Z.max smin (Z.min smax (nearestEven (num V) den)))
  else None.

(** The first digit count with a candidate; [10^k] is the digit 1 with the
    next exponent. *)
Fixpoint search (fuel : nat) (k n : Z) : Z * Z * Z :=
  match fuel with
  | O => (Z.pos m, k, n)
  | S f =>
      match candidate k n with
      | Some s => if s =? 10 ^ k then (1, 1, n + 1) else (s, k, n)
      | None => search f (k + 1) n
      end
  end.

Definition shortest : Z * Z * Z := search 17 1 exponent10.
End Shortest.

(** Number::toString, steps 6-11, for the digits [s] ([k] of them) and the
    exponent [n]. *)
Definition format (s k n : Z) : string :=
  let ds := digitString 10 s in
  if (-5 <=? n) && (n <=? 21) then
    if k <=? n then ds +:+ zeros (n - k)
    else if 0 <? n then
      substring 0 (Z.to_nat n) ds +:+ "." +:+ substring (Z.to_nat n) (Z.to_nat (k - n)) ds
    else "0." +:+ zeros (- n) +:+ ds
  else
    let ex := n - 1 in
    let exs := (if ex <? 0 then "-" else "+") +:+ digitString 10 (Z.abs ex) in
    if k =? 1 then ds +:+ "e" +:+ exs
    else substring 0 1 ds +:+ "." +:+ substring 1 (Z.to_nat (k - 1)) ds +:+ "e" +:+ exs.

(** [String(x)], [`${x}`] and [x.toString()]. *)
Definition toString (x : float) : string :=
  match Prim2SF x with
  | S754_nan => "NaN"
  | S754_zero _ => "0"
  | S754_infinity s => (if s then "-" else "") +:+ "Infinity"
  | S754_finite s m e =>
      let '(d, k, n) := shortest m e in
      (if s then "-" else "") +:+ format d k n
  end.

Fixpoint fractionDigits16 (fuel : nat) (num den : Z) : string :=
  match fuel with
  | O => EmptyString
  | S f =>
      if num =? 0 then EmptyString
      else String (digitChar (16 * num / den)) (fractionDigits16 f ((16 * num) mod den) den)
  end.

(** [x.toString(16)]: exact for integers, which is all the plugin renders
    this way; a fraction is written out in full. *)
Definition toString16 (x : float) : string :=
  match Prim2SF x with
  | S754_nan => "NaN"
  | S754_zero _ => "0"
  | S754_infinity s => (if s then "-" else "") +:+ "Infinity"
  | S754_finite s m e =>
      (if s then "-" else "") +:+
      (if 0 <=? e then digitString 16 (Z.pos m * 2 ^ e)
       else
         let den := 2 ^ (- e) in
         digitString 16 (Z.pos m / den) +:+
         (if Z.pos m mod den =? 0 then ""
          else "." +:+ fractionDigits16 300 (Z.pos m mod den) den))
  end.

End Number.

(** [parseInt(s, 16)]: leading white space, an optional sign and an optional
    [0x]/[0X] prefix are skipped, then the longest run of radix-16 digits is
    read; what follows it is ignored.  [None] is NaN.  The integer is exact,
    as it is in the engine below 2^53 (the plugin parses six characters). *)
Definition hexDigitValue (c : ascii) : option Z :=
  let n := Z.of_N (N_of_ascii c) in
  if (48 <=? n) && (n <=? 57) then Some (n - 48)
  else if (97 <=? n) && (n <=? 102) then Some (n - 87)
  else if (65 <=? n) && (n <=? 70) then Some (n - 55)
  else None.

Fixpoint parseDigits16 (s : string) (acc : option Z) : option Z :=
  match s with
  | String c s' =>
      match hexDigitValue c with
      | Some d => parseDigits16 s' (Some (16 * default 0 acc + d))
      | None => acc
      end
  | EmptyString => acc
  end.

Definition parseInt16 (s : string) : option Z :=
  let s1 := trimStart s in
  let '(sign, s2) :=
    match s1 with
    | String c rest =>
        if Ascii.eqb c "-" then (-1, rest)
        else if Ascii.eqb c "+" then (1, rest)
        else (1, s1)
    | EmptyString => (1, s1)
    end in
  let s3 :=
    match s2 with
    | String c0 (String c1 rest) =>
        if Ascii.eqb c0 "0" && (Ascii.eqb c1 "x" || Ascii.eqb c1 "X") then rest else s2
    | _ => s2
    end in
  Z.mul sign <$> parseDigits16 s3 None.

(** ToInt32, applied by [>>] and [&] to their operands. *)
Definition ToInt32 (z : Z) : Z := (z + 2 ^ 31) mod 2 ^ 32 - 2 ^ 31.

(** ** Color codec (src/code.ts) *)

(** [GROUP_FILTER_PREFIXES] *)
Definition GROUP_FILTER_PREFIXES : list string := ["Color/"; "Black/"].

(** [prefixes.some((p) => variableName.trim().startsWith(p))] *)
Definition matchesGroupFilter (variableName : string) (prefixes : list string) : bool :=
  existsb (fun p => startsWith (trim variableName) p) prefixes.

Definition matchesPrefix (variableName prefix : string) : bool :=
  startsWith (trim variableName) prefix.

Record RGB := mkRGB { r : float; g : float; b : float }.

Definition rgbKey (c : RGB) : string :=
  Number.toString (r c) +:+ "," +:+ Number.toString (g c) +:+ "," +:+ Number.toString (b c).

(** [Math.round((a ?? 1) * 100) / 100] *)
Definition roundAlpha (a : option float) : float :=
  PrimFloat.div (Math.round (PrimFloat.mul (default 1%float a) 100%float)) 100%float.

Definition rgbOpacityKey (r g b : float) (a : option float) : string :=
  Number.toString r +:+ "," +:+ Number.toString g +:+ "," +:+ Number.toString b
    +:+ "," +:+ Number.toString (roundAlpha (Some (default 1%float a))).

Definition to255 (x : float) : float :=
  Math.round (PrimFloat.mul (Math.max 0%float (Math.min 1%float x)) 255%float).

Definition rgbToHexStr (r g b : float) : string :=
  join "" (map (fun n => padStart0 2 (Number.toString16 n)) [to255 r; to255 g; to255 b]).

Definition parseHexToRgb (hex : string) : option RGB :=
  let s := trim (stripLeadingHash hex) in
  if negb (String.length s =? 6)%nat then None
  else
    match parseInt16 s with
    | None => None
    | Some n =>
        Some {| r := PrimFloat.div (Math.ofInteger (Z.land (Z.shiftr (ToInt32 n) 16) 255)) 255%float;
                g := PrimFloat.div (Math.ofInteger (Z.land (Z.shiftr (ToInt32 n) 8) 255)) 255%float;
                b := PrimFloat.div (Math.ofInteger (Z.land (ToInt32 n) 255)) 255%float |}
    end.

(** [x ** 2] is the correctly rounded square. *)
Definition square (x : float) : float := PrimFloat.mul x x.

Definition colorDistance (c1 c2 : RGB) : float :=
  Math.sqrt (PrimFloat.add (PrimFloat.add (square (PrimFloat.sub (r c1) (r c2)))
                                          (square (PrimFloat.sub (g c1) (g c2))))
                           (square (PrimFloat.sub (b c1) (b c2)))).

(** ** The host: Figma's plugin API

    What the plugin reads from Figma is a record of answers; what it changes
    (the document, its own caches, the messages it posts) is the state
    threaded through the calls. *)

(** The completion of a call that may raise; [Throw] carries what the
    source's handlers read: [e instanceof Error ? e.message : String(e)]. *)
Inductive Completion (A : Type) : Type :=
| Normal (a : A)
| Throw (message : string).
Arguments Normal {A} a.
Arguments Throw {A} message.

Inductive ModeName := Light | Dark.

Definition modeString (mode : ModeName) : string :=
  match mode with Light => "Light" | Dark => "Dark" end.

Record RGBA := mkRGBA { rgba_r : float; rgba_g : float; rgba_b : float; rgba_a : option float }.

(** A value of [variable.valuesByMode]: a color object passes the source's
    test [value && typeof value === "object" && "r" in value]; an alias or a
    primitive does not. *)
Inductive VariableValue :=
| ColorValue (v : RGBA)
| OtherValue.

Inductive ResolvedType := COLOR | FLOAT | STRING | BOOLEAN.

Record FigmaVariable := mkVariable {
  var_id : string;
  var_name : string;
  resolvedType : ResolvedType;
  valuesByMode : gmap string VariableValue;
}.

Record Mode := mkMode { mode_name : string; modeId : string }.

Record VariableCollection := mkCollection {
  coll_name : string;
  modes : list Mode;
  variableIds : list string;
}.

Record LibraryVariableCollection := mkLibraryCollection {
  lib_name : string;
  lib_key : string;
}.

Inductive VariableCollectionSource :=
| LocalSource (collection : VariableCollection)
| LibrarySource (collection : LibraryVariableCollection).

Inductive Property := fills | strokes.

#[global] Instance Property_eq_dec : EqDecision Property.
Proof. solve_decision. Defined.

Definition propertyString (p : Property) : string :=
  match p with fills => "fills" | strokes => "strokes" end.

(** A paint is solid, with its color, optional opacity and the variable
    alias bound to its color if any ([boundVariables.color]), or it is a
    gradient, image or video paint. *)
Inductive Paint :=
| SOLID (color : RGB) (opacity : option float) (boundColor : option string)
| NonSolid (type : string).

(** [node.fills] and [node.strokes]: no such property, [figma.mixed], or an
    array of paints. *)
Inductive PaintsProperty :=
| Absent
| Mixed
| Paints (paints : list Paint).

Record BoundVariables := mkBoundVariables {
  bound_fills : option (list (option string));
  bound_strokes : option (list (option string));
}.

Record SceneNode := mkNode {
  node_id : string;
  node_name : string;
  node_fills : PaintsProperty;
  node_strokes : PaintsProperty;
  boundVariables : option BoundVariables;
}.

(** A node with its children, when it has the property [children]. *)
Inductive SceneTree :=
| Tree (node : SceneNode) (children : option (list SceneTree)).

Record Page := mkPage {
  selection : list SceneTree;
  page : SceneTree;
}.

Record Figma := mkFigma {
  (** [figma.variables.getLocalVariableCollectionsAsync()] *)
  getLocalVariableCollectionsAsync : Completion (list VariableCollection);
  (** [figma.teamLibrary?.getAvailableLibraryVariableCollectionsAsync], when
      it is a function *)
  getAvailableLibraryVariableCollectionsAsync :
    option (Completion (list LibraryVariableCollection));
  (** [figma.variables.getVariableByIdAsync(id)] once it settles: null for
      an id that does not resolve *)
  getVariableByIdAsync : string -> option FigmaVariable;
  (** [figma.currentPage] with its selection *)
  currentPage : Completion Page;
  (** whether [figma.variables.setBoundVariableForPaint(paint, "color", v)]
      raises, and with what message *)
  setBoundVariableForPaint_raises : Paint -> FigmaVariable -> option string;
  (** whether the assignment [node.fills = paints] or [node.strokes = paints]
      raises *)
  setPaints_raises : SceneNode -> Property -> list Paint -> option string;
  (** whether [await figma.variables.getVariableByIdAsync(id)] and
      [await figma.getNodeByIdAsync(id)] reject instead of settling while
      bindings are applied, and with what message; the catalog functions are
      modelled for lookups that settle *)
  getVariableByIdAsync_rejects : string -> option string;
  getNodeByIdAsync_rejects : string -> option string;
}.

(** *** Data of the plugin *)

Record ScanItem := mkScanItem {
  nodeId : string;
  nodeName : string;
  property : Property;
  index : nat;
  currentColor : RGB;
  opacity : float;
  matchVariableId : option string;
  matchVariableName : option string;
}.

Record ColorMapEntry := mkEntry { variable : FigmaVariable; name : string }.

Record VariableListEntry := mkListEntry {
  variableId : string;
  variableName : string;
  entry_r : float;
  entry_g : float;
  entry_b : float;
}.

Record Candidate := mkCandidate {
  cand_variableId : string;
  cand_variableName : string;
  cand_hex : string;
}.

Record MatchedColorItem := mkMatched { matched_hex : string; tokenName : string; matched_variableId : string }.

Record ScanResult := mkScanResult {
  items : list ScanItem;
  matchedColors : list MatchedColorItem;
  noMatchColors : list string;
  totalScanned : nat;
  error : option string;
}.

Record ApplyResult := mkApplyResult {
  appliedCount : nat;
  skippedCount : nat;
  failedCount : nat;
  failedReasons : list string;
}.

(** What the plugin sends out: [figma.ui.postMessage] payloads by their
    [type], and [figma.notify]. *)
Inductive UiEffect :=
| variableCollectionNotFound (error : string) (localCollectionNames libraryCollectionNames : list string)
| collections (collectionNames : list string)
| scanUI (totalScanned matchedUnique noMatchUnique noMatchItems : nat)
         (matchedColors : list MatchedColorItem) (noMatchColors : list string)
         (error : option string)
| candidatesResult (hex : string) (candidates : list Candidate) (error : option string)
| applyResult (result : ApplyResult) (error : option string)
| applyTokenToColorResult (result : ApplyResult) (error : option string)
| notify (message : string) (isError : bool).

(** The state the calls act on. *)
Record State := mkState {
  (** messages sent so far, oldest first *)
  sent : list UiEffect;
  (** [variableListCacheMap] *)
  variableListCacheMap : gmap string (list VariableListEntry);
  (** [lastScanItems] *)
  lastScanItems : list ScanItem;
  (** the nodes [figma.getNodeByIdAsync] resolves, by id *)
  document : gmap string SceneNode;
}.

(** *** Calls that read and change the state and may raise *)

Definition M (A : Type) : Type := State -> Completion A * State.

Definition ret {A} (a : A) : M A := fun st => (Normal a, st).

Definition bind {A B} (m : M A) (k : A -> M B) : M B :=
  fun st =>
    match m st with
    | (Normal a, st') => k a st'
    | (Throw e, st') => (Throw e, st')
    end.

Notation "x <- m ;; k" := (bind m (fun x => k))
  (at level 100, m at next level, right associativity).
Notation "m ;;; k" := (bind m (fun _ => k))
  (at level 100, right associativity).

(** [await call] / a call that may raise *)
Definition await {A} (c : Completion A) : M A := fun st => (c, st).

(** [try { body } catch (e) { handler }] *)
Definition tryCatch {A} (body : M A) (handler : string -> M A) : M A :=
  fun st =>
    match body st with
    | (Normal a, st') => (Normal a, st')
    | (Throw e, st') => handler e st'
    end.

Definition postMessage (m : UiEffect) : M unit :=
  fun st => (Normal tt, mkState (sent st ++ [m]) (variableListCacheMap st)
                               (lastScanItems st) (document st)).

Definition natString (n : nat) : string := digitString 10 (Z.of_nat n).

(** ** Collection lookup (src/variableCollectionUtils.ts) *)

(** [getLibraryVariableCollectionsSafe]: an empty list when the API is
    missing or fails. *)
Definition getLibraryVariableCollectionsSafe (figma : Figma) : list LibraryVariableCollection :=
  match getAvailableLibraryVariableCollectionsAsync figma with
  | None => []
  | Some (Throw _) => []
  | Some (Normal l) => l
  end.

Definition findVariableCollectionByName (figma : Figma) (name : string)
  : M (option VariableCollectionSource) :=
  let nameLower := toLowerCase (trim name) in
  if (String.length nameLower =? 0)%nat then
    postMessage (variableCollectionNotFound
      "컬렉션 이름이 비어 있습니다." [] []) ;;;
    ret None
  else
    localCollections <- await (getLocalVariableCollectionsAsync figma) ;;
    let libraryCollections := getLibraryVariableCollectionsSafe figma in
    let localNames := map coll_name localCollections in
    let libraryNames := map lib_name libraryCollections in
    match find (fun c => String.eqb (toLowerCase (trim (coll_name c))) nameLower) localCollections with
    | Some fromLocal => ret (Some (LocalSource fromLocal))
    | None =>
        match find (fun c => String.eqb (toLowerCase (trim (lib_name c))) nameLower) libraryCollections with
        | Some fromLibrary => ret (Some (LibrarySource fromLibrary))
        | None =>
            let error :=
              dquote +:+ name +:+ dquote +:+ " 컬렉션을 찾을 수 없습니다. (로컬 "
                +:+ natString (length localNames) +:+ "개, 라이브러리 "
                +:+ natString (length libraryNames) +:+ "개 검색됨)" in
            postMessage (variableCollectionNotFound error localNames libraryNames) ;;;
            ret None
        end
    end.

(** The loop over [libraryNames] of [getAvailableCollectionNames]. *)
Fixpoint addUnseenNames (libraryNames : list string) (seen : gset string)
                        (localNames : list string) : list string :=
  match libraryNames with
  | [] => localNames
  | name :: rest =>
      let key := toLowerCase (trim name) in
      if decide (key ∈ seen) then addUnseenNames rest seen localNames
      else addUnseenNames rest ({[key]} ∪ seen) (localNames ++ [name])
  end.

Definition getAvailableCollectionNames (figma : Figma) : M (list string) :=
  localCollections <- await (getLocalVariableCollectionsAsync figma) ;;
  let libraryCollections := getLibraryVariableCollectionsSafe figma in
  let localNames := map coll_name localCollections in
  let libraryNames := map lib_name libraryCollections in
  let seen : gset string := list_to_set (map (fun n => toLowerCase (trim n)) localNames) in
  ret (addUnseenNames libraryNames seen localNames).

(** ** The catalog index (src/code.ts) *)

Record CollectionColorMapOptions := mkOptions {
  useGroupFilters : option bool;
  groupPrefixes : option (list string);
}.

(** [collection.modes.find(...)?.modeId ?? collection.modes[0]?.modeId] *)
Definition resolveModeId (collection : VariableCollection) (mode : ModeName) : option string :=
  match find (fun m => String.eqb (toLowerCase (mode_name m)) (toLowerCase (modeString mode)))
             (modes collection) with
  | Some modeEntry => Some (modeId modeEntry)
  | None => modeId <$> head (modes collection)
  end.

(** The body of the unfiltered loop: every color entry is set under its key. *)
Definition setEntry (figma : Figma) (modeId : string)
    (colorMap : gmap string ColorMapEntry) (variableId : string) : gmap string ColorMapEntry :=
  match getVariableByIdAsync figma variableId with
  | None => colorMap
  | Some variable =>
      match resolvedType variable with
      | COLOR =>
          match valuesByMode variable !! modeId with
          | Some (ColorValue v) =>
              let a := default 1%float (rgba_a v) in
              let key := rgbOpacityKey (rgba_r v) (rgba_g v) (rgba_b v) (Some a) in
              <[key := mkEntry variable (var_name variable)]> colorMap
          | _ => colorMap
          end
      | _ => colorMap
      end
  end.

(** The body of the loop of one prefix group: an entry of the group is set
    only under a key that is still free. *)
Definition setEntryIfAbsent (figma : Figma) (modeId prefix : string)
    (colorMap : gmap string ColorMapEntry) (variableId : string) : gmap string ColorMapEntry :=
  match getVariableByIdAsync figma variableId with
  | None => colorMap
  | Some variable =>
      match resolvedType variable with
      | COLOR =>
          if negb (matchesPrefix (var_name variable) prefix) then colorMap
          else
            match valuesByMode variable !! modeId with
            | Some (ColorValue v) =>
                let a := default 1%float (rgba_a v) in
                let key := rgbOpacityKey (rgba_r v) (rgba_g v) (rgba_b v) (Some a) in
                match colorMap !! key with
                | Some _ => colorMap
                | None => <[key := mkEntry variable (var_name variable)]> colorMap
                end
            | _ => colorMap
            end
      | _ => colorMap
      end
  end.

Definition getCollectionColorMap (figma : Figma) (collectionName : string) (mode : ModeName)
    (options : CollectionColorMapOptions) : M (gmap string ColorMapEntry) :=
  let useGroupFilters := default false (useGroupFilters options) in
  let groupPrefixes := default GROUP_FILTER_PREFIXES (groupPrefixes options) in
  found <- findVariableCollectionByName figma collectionName ;;
  match found with
  | None => ret ∅
  | Some (LibrarySource _) => ret ∅
  | Some (LocalSource collection) =>
      match resolveModeId collection mode with
      | None => ret ∅
      | Some modeId =>
          if negb useGroupFilters then
            ret (fold_left (setEntry figma modeId) (variableIds collection) ∅)
          else
            let order :=
              match groupPrefixes with
              | p0 :: p1 :: _ => [p0; p1]
              | _ => groupPrefixes
              end in
            ret (fold_left
                   (fun colorMap prefix =>
                      fold_left (setEntryIfAbsent figma modeId prefix) (variableIds collection) colorMap)
                   order ∅)
      end
  end.

(** The key of [variableListCacheMap]. *)
Definition variableListCacheKey (collectionName : string) (mode : ModeName)
    (useGroupFilters : bool) (groupPrefixFilter : option (list string)) : string :=
  let prefixKey :=
    match groupPrefixFilter with
    | Some prefixes => join "," prefixes
    | None => if useGroupFilters then "all" else "none"
    end in
  collectionName +:+ "|" +:+ modeString mode +:+ "|"
    +:+ (if useGroupFilters then "true" else "false") +:+ "|" +:+ prefixKey.

(** The body of the loop of [getCollectionVariableList]. *)
Definition pushEntry (figma : Figma) (modeId : string) (prefixesToMatch : option (list string))
    (out : list VariableListEntry) (variableId : string) : list VariableListEntry :=
  match getVariableByIdAsync figma variableId with
  | None => out
  | Some variable =>
      match resolvedType variable with
      | COLOR =>
          if match prefixesToMatch with
             | Some prefixes => negb (existsb (matchesPrefix (var_name variable)) prefixes)
             | None => false
             end
          then out
          else
            match valuesByMode variable !! modeId with
            | Some (ColorValue v) =>
                out ++ [mkListEntry (var_id variable) (var_name variable)
                                     (rgba_r v) (rgba_g v) (rgba_b v)]
            | _ => out
            end
      | _ => out
      end
  end.

Definition cacheGet (key : string) : M (option (list VariableListEntry)) :=
  fun st => (Normal (variableListCacheMap st !! key), st).

Definition cacheSet (key : string) (entries : list VariableListEntry) : M unit :=
  fun st => (Normal tt, mkState (sent st) (<[key := entries]> (variableListCacheMap st))
                               (lastScanItems st) (document st)).

Definition getCollectionVariableList (figma : Figma) (collectionName : string) (mode : ModeName)
    (useGroupFilters : bool) (groupPrefixFilter : option (list string))
  : M (list VariableListEntry) :=
  let key := variableListCacheKey collectionName mode useGroupFilters groupPrefixFilter in
  cached <- cacheGet key ;;
  match cached with
  | Some entries => ret entries
  | None =>
      found <- findVariableCollectionByName figma collectionName ;;
      match found with
      | None => ret []
      | Some (LibrarySource _) => ret []
      | Some (LocalSource collection) =>
          match resolveModeId collection mode with
          | None => ret []
          | Some modeId =>
              let prefixesToMatch :=
                match groupPrefixFilter with
                | Some prefixes => Some prefixes
                | None => if useGroupFilters then Some GROUP_FILTER_PREFIXES else None
                end in
              let entries := fold_left (pushEntry figma modeId prefixesToMatch)
                                       (variableIds collection) [] in
              cacheSet key entries ;;;
              ret entries
          end
      end
  end.

(** ** Ranking of near matches *)

(** [Array.prototype.sort(comparefn)], a stable sort; [before x y] says that
    [comparefn(x, y)] is negative.  For a comparator that is not a consistent
    ordering ECMAScript leaves the order to the engine; the model inserts
    each element, left to right, after the elements it is not before. *)
Section Sort.
Context {A : Type} (before : A -> A -> bool).

Fixpoint insertSorted (x : A) (l : list A) : list A :=
  match l with
  | [] => [x]
  | y :: l' => if before x y then x :: l else y :: insertSorted x l'
  end.

Definition sortBy (l : list A) : list A :=
  fold_left (fun sorted x => insertSorted x sorted) l [].
End Sort.

(** [array.slice(0, limit)] for an integer [limit]: a negative [limit]
    counts from the end. *)
Definition slice0 {A} (l : list A) (limit : Z) : list A :=
  let len := Z.of_nat (length l) in
  let final := if limit <? 0 then Z.max (len + limit) 0 else Z.min limit len in
  firstn (Z.to_nat final) l.

(** An element of [withDistance]: [{ ...v, hex, distance }]. *)
Record RankedEntry := mkRanked {
  ranked : VariableListEntry;
  hex : string;
  distance : float;
}.

Definition withDistance (entries : list VariableListEntry) (targetRgb : RGB) : list RankedEntry :=
  map (fun v => mkRanked v (rgbToHexStr (entry_r v) (entry_g v) (entry_b v))
                         (colorDistance targetRgb (mkRGB (entry_r v) (entry_g v) (entry_b v))))
      entries.

Definition toCandidate (w : RankedEntry) : Candidate :=
  mkCandidate (variableId (ranked w)) (variableName (ranked w)) (hex w).

Section Ranking.

(** [a.localeCompare(b)]: the host's collation, negative, zero or
    positive. *)
Variable localeCompare : string -> string -> Z.

(** The comparator handed to [sort]. *)
Definition comparefn (a b : RankedEntry) : float :=
  if PrimFloat.ltb (Math.abs (PrimFloat.sub (distance a) (distance b))) 1e-6
  then Math.ofInteger (localeCompare (variableName (ranked a)) (variableName (ranked b)))
  else PrimFloat.sub (distance a) (distance b).

(** SortCompare: [comparefn a b < 0]; a NaN counts as +0. *)
Definition rankedBefore (a b : RankedEntry) : bool := PrimFloat.ltb (comparefn a b) 0.

Definition computeCandidates (entries : list VariableListEntry) (targetRgb : RGB) (limit : Z)
  : list Candidate :=
  map toCandidate (slice0 (sortBy rankedBefore (withDistance entries targetRgb)) limit).

End Ranking.

(** ** Scanning *)

(** [node.boundVariables?.[property]?.[index]] *)
Definition boundAt (node : SceneNode) (property : Property) (index : nat) : option string :=
  match boundVariables node with
  | None => None
  | Some bound =>
      match (match property with fills => bound_fills bound | strokes => bound_strokes bound end) with
      | None => None
      | Some aliases => mjoin (aliases !! index)
      end
  end.

Definition isSolidUnbound (node : SceneNode) (property : Property) (index : nat) : bool :=
  match boundAt node property index with
  | None => true
  | Some _ => false
  end.

(** [hasFillStroke(node) && node.fills && Array.isArray(node.fills)] *)
Definition hasFillArray (node : SceneNode) : bool :=
  match node_fills node with
  | Paints _ => true
  | _ => false
  end.

Fixpoint collectNodes (t : SceneTree) : list SceneNode :=
  match t with
  | Tree node children =>
      (if hasFillArray node then [node] else []) ++
      match children with
      | Some cs => flat_map collectNodes cs
      | None => []
      end
  end.

(** The loop over one paint array of [scanNodes], from slot [i] on. *)
Fixpoint scanPaints (node : SceneNode) (property : Property) (i : nat) (paints : list Paint)
    (colorMap : gmap string ColorMapEntry) : list ScanItem :=
  match paints with
  | [] => []
  | p :: rest =>
      let more := scanPaints node property (S i) rest colorMap in
      match p with
      | NonSolid _ => more
      | SOLID color opacity _ =>
          if negb (isSolidUnbound node property i) then more
          else
            let key := rgbOpacityKey (r color) (g color) (b color) (Some (default 1%float opacity)) in
            let found := colorMap !! key in
            mkScanItem (node_id node) (node_name node) property i color
                       (default 1%float opacity)
                       (var_id <$> (variable <$> found)) (name <$> found) :: more
      end
  end.

Definition scanNodes (nodes : list SceneNode) (colorMap : gmap string ColorMapEntry)
  : list ScanItem :=
  flat_map
    (fun node =>
       ((match node_fills node with
         | Paints paints => scanPaints node fills 0 paints colorMap
         | _ => []
         end) ++
        (match node_strokes node with
         | Paints paints => scanPaints node strokes 0 paints colorMap
         | _ => []
         end))%list)
    nodes.

(** The loop of [runScan] that groups the items by hex: [matchedByHex]
    keeps the first match of a hex, [noMatchHexSet] is a set. *)
Definition noteItem (acc : list (string * (string * string)) * list string) (item : ScanItem)
  : list (string * (string * string)) * list string :=
  let '(matchedByHex, noMatchHexSet) := acc in
  let hex := rgbToHexStr (r (currentColor item)) (g (currentColor item)) (b (currentColor item)) in
  match matchVariableId item, matchVariableName item with
  | Some id, Some tokenName =>
      if existsb (fun e => String.eqb (fst e) hex) matchedByHex then acc
      else (matchedByHex ++ [(hex, (tokenName, id))], noMatchHexSet)
  | _, _ =>
      if existsb (String.eqb hex) noMatchHexSet then acc
      else (matchedByHex, noMatchHexSet ++ [hex])
  end.

Definition emptyCatalogError (collectionName : string) (useGroupFilters : option bool) : string :=
  match useGroupFilters with
  | Some true =>
      dquote +:+ collectionName +:+ dquote
        +:+ " 컬렉션에서 필터(Color, Black)에 맞는 COLOR 변수가 없습니다."
  | _ =>
      dquote +:+ collectionName +:+ dquote
        +:+ " 컬렉션을 찾을 수 없거나 해당 모드에 COLOR 변수가 없습니다."
  end.

(** The [try] block of [runScan]. *)
Definition runScanBody (figma : Figma) (collectionName : string) (mode : ModeName)
    (useGroupFilters : option bool) : M ScanResult :=
  colorMap <- getCollectionColorMap figma collectionName mode
                (mkOptions (Some (default false useGroupFilters)) None) ;;
  if (size colorMap =? 0)%nat then
    ret (mkScanResult [] [] [] 0 (Some (emptyCatalogError collectionName useGroupFilters)))
  else
    current <- await (currentPage figma) ;;
    let nodes :=
      match selection current with
      | [] => collectNodes (page current)
      | sel => flat_map collectNodes sel
      end in
    let items := scanNodes nodes colorMap in
    let '(matchedByHex, noMatchHexSet) := fold_left noteItem items ([], []) in
    ret (mkScanResult items
           (map (fun e => mkMatched (fst e) (fst (snd e)) (snd (snd e))) matchedByHex)
           (sortBy String.ltb noMatchHexSet)
           (length items) None).

Definition runScan (figma : Figma) (collectionName : string) (mode : ModeName)
    (useGroupFilters : option bool) : M ScanResult :=
  tryCatch (runScanBody figma collectionName mode useGroupFilters)
           (fun e => ret (mkScanResult [] [] [] 0 (Some e))).

(** ** Binding *)

Definition paintBound (p : Paint) : option string :=
  match p with
  | SOLID _ _ bound => bound
  | NonSolid _ => None
  end.

(** [figma.variables.setBoundVariableForPaint(paint, "color", variable)]:
    a copy of the paint whose color is bound to the variable, unless the
    host raises. *)
Definition setBoundVariableForPaint (figma : Figma) (paint : Paint) (variable : FigmaVariable)
  : Completion Paint :=
  match setBoundVariableForPaint_raises figma paint variable with
  | Some e => Throw e
  | None =>
      match paint with
      | SOLID color opacity _ => Normal (SOLID color opacity (Some (var_id variable)))
      | NonSolid _ => Throw "setBoundVariableForPaint: not a solid paint"
      end
  end.

Definition paintsOf (node : SceneNode) (property : Property) : PaintsProperty :=
  match property with
  | fills => node_fills node
  | strokes => node_strokes node
  end.

(** The assignments [node.fills = paints] and [node.strokes = paints].
    Host contract, as [isSolidUnbound] reads it: [node.boundVariables] lists,
    slot by slot, the alias each paint of the property carries. *)
Definition assignPaints (figma : Figma) (node : SceneNode) (property : Property)
    (paints : list Paint) : Completion SceneNode :=
  match setPaints_raises figma node property paints with
  | Some e => Throw e
  | None =>
      let bound := default (mkBoundVariables None None) (boundVariables node) in
      let aliases := Some (paintBound <$> paints) in
      Normal
        match property with
        | fills =>
            mkNode (node_id node) (node_name node) (Paints paints) (node_strokes node)
                   (Some (mkBoundVariables aliases (bound_strokes bound)))
        | strokes =>
            mkNode (node_id node) (node_name node) (node_fills node) (Paints paints)
                   (Some (mkBoundVariables (bound_fills bound) aliases))
        end
  end.

(** The [try] block of both apply loops. *)
Definition bindPaint (figma : Figma) (node : SceneNode) (property : Property) (index : nat)
    (paints : list Paint) (paint : Paint) (variable : FigmaVariable) : Completion SceneNode :=
  match setBoundVariableForPaint figma paint variable with
  | Throw e => Throw e
  | Normal newPaint => assignPaints figma node property (<[index := newPaint]> paints)
  end.

Definition emptyResult : ApplyResult := mkApplyResult 0 0 0 [].

Definition applied (result : ApplyResult) : ApplyResult :=
  mkApplyResult (S (appliedCount result)) (skippedCount result) (failedCount result)
                (failedReasons result).

Definition skipped (result : ApplyResult) : ApplyResult :=
  mkApplyResult (appliedCount result) (S (skippedCount result)) (failedCount result)
                (failedReasons result).

Definition failed (result : ApplyResult) (reason : string) : ApplyResult :=
  mkApplyResult (appliedCount result) (skippedCount result) (S (failedCount result))
                (failedReasons result ++ [reason]).

(** The body of the loop of [applyBindingsToItems]; the two branches of the
    source, for fills and for strokes, differ in the property only. *)
Definition bindItem (figma : Figma) (st : gmap string SceneNode * ApplyResult) (item : ScanItem)
  : gmap string SceneNode * ApplyResult :=
  let '(doc, result) := st in
  match matchVariableId item with
  | None => st
  | Some matchVariableId =>
      match getVariableByIdAsync figma matchVariableId with
      | None =>
          (doc, failed result ("[" +:+ nodeName item +:+ "] 변수를 찾을 수 없음: "
                                 +:+ matchVariableId))
      | Some variable =>
          match doc !! nodeId item with
          | None =>
              (doc, failed result ("[" +:+ nodeName item +:+ "] 노드를 찾을 수 없음: "
                                     +:+ nodeId item))
          | Some node =>
              match paintsOf node (property item) with
              | Absent | Mixed => (doc, skipped result)
              | Paints paints =>
                  match boundAt node (property item) (index item) with
                  | Some _ => (doc, skipped result)
                  | None =>
                      match paints !! index item with
                      | None | Some (NonSolid _) => (doc, skipped result)
                      | Some paint =>
                          match bindPaint figma node (property item) (index item)
                                          paints paint variable with
                          | Normal node' => (<[nodeId item := node']> doc, applied result)
                          | Throw e =>
                              (doc, failed result
                                 ("[" +:+ nodeName item +:+ "] "
                                    +:+ propertyString (property item) +:+ "["
                                    +:+ natString (index item) +:+ "]: " +:+ e))
                          end
                      end
                  end
              end
          end
      end
  end.

Definition isMatched (item : ScanItem) : bool :=
  match matchVariableId item with
  | Some _ => true
  | None => false
  end.

Definition applyBindingsToItems (figma : Figma) (doc : gmap string SceneNode)
    (items : list ScanItem) : gmap string SceneNode * ApplyResult :=
  let toApply := List.filter isMatched items in
  fold_left (bindItem figma) toApply (doc, emptyResult).

(** The body of the loop of [applyTokenToColor]. *)
Definition bindChosen (figma : Figma) (variable : FigmaVariable)
    (st : gmap string SceneNode * ApplyResult) (item : ScanItem)
  : gmap string SceneNode * ApplyResult :=
  let '(doc, result) := st in
  match doc !! nodeId item with
  | None => (doc, failed result ("[" +:+ nodeName item +:+ "] 노드를 찾을 수 없음"))
  | Some node =>
      match paintsOf node (property item) with
      | Absent | Mixed => (doc, skipped result)
      | Paints paints =>
          match paints !! index item with
          | None | Some (NonSolid _) => (doc, skipped result)
          | Some paint =>
              match bindPaint figma node (property item) (index item) paints paint variable with
              | Normal node' => (<[nodeId item := node']> doc, applied result)
              | Throw e => (doc, failed result ("[" +:+ nodeName item +:+ "]: " +:+ e))
              end
          end
      end
  end.

(** The filter of [applyTokenToColor]: the unmatched items of the last scan
    whose hex is the target. *)
Definition itemsToBind (lastScanItems : list ScanItem) (hex : string) : list ScanItem :=
  let targetHex := trim (stripLeadingHash hex) in
  List.filter
    (fun item =>
       if isMatched item then false
       else String.eqb (rgbToHexStr (r (currentColor item)) (g (currentColor item))
                                    (b (currentColor item)))
                       targetHex)
    lastScanItems.

Definition applyTokenToColor (figma : Figma) (lastScanItems : list ScanItem)
    (doc : gmap string SceneNode) (hex variableId : string)
  : gmap string SceneNode * ApplyResult :=
  let itemsToBind := itemsToBind lastScanItems hex in
  match itemsToBind with
  | [] => (doc, emptyResult)
  | _ =>
      match getVariableByIdAsync figma variableId with
      | None => (doc, mkApplyResult 0 0 (length itemsToBind) ["변수를 찾을 수 없음"])
      | Some variable => fold_left (bindChosen figma variable) itemsToBind (doc, emptyResult)
      end
  end.

(** *** Lookups that reject

    Both loops await their lookups outside the [try] of the item: a lookup
    that rejects ends the loop and the function rejects with it, while the
    paints assigned for the items before it stay assigned.  [bindItem] and
    [bindChosen] are the bodies for lookups that settle; with no lookup
    that rejects the functions below are [applyBindingsToItems] and
    [applyTokenToColor]. *)

(** The lookup of a turn of [applyBindingsToItems] that rejects: the node is
    looked up only when the variable was found. *)
Definition bindItem_rejects (figma : Figma) (item : ScanItem) : option string :=
  match matchVariableId item with
  | None => None
  | Some matchVariableId =>
      match getVariableByIdAsync_rejects figma matchVariableId with
      | Some e => Some e
      | None =>
          match getVariableByIdAsync figma matchVariableId with
          | None => None
          | Some _ => getNodeByIdAsync_rejects figma (nodeId item)
          end
      end
  end.

(** The same for a turn of [applyTokenToColor]. *)
Definition bindChosen_rejects (figma : Figma) (item : ScanItem) : option string :=
  getNodeByIdAsync_rejects figma (nodeId item).

(** [for (const item of items)] over a body with awaited lookups. *)
Fixpoint forAwait (rejects : ScanItem -> option string)
    (body : gmap string SceneNode * ApplyResult -> ScanItem -> gmap string SceneNode * ApplyResult)
    (items : list ScanItem) (st : gmap string SceneNode * ApplyResult)
  : gmap string SceneNode * Completion ApplyResult :=
  match items with
  | [] => (fst st, Normal (snd st))
  | item :: rest =>
      match rejects item with
      | Some e => (fst st, Throw e)
      | None => forAwait rejects body rest (body st item)
      end
  end.

Definition applyBindingsToItemsAsync (figma : Figma) (doc : gmap string SceneNode)
    (items : list ScanItem) : gmap string SceneNode * Completion ApplyResult :=
  let toApply := List.filter isMatched items in
  forAwait (bindItem_rejects figma) (bindItem figma) toApply (doc, emptyResult).

Definition applyTokenToColorAsync (figma : Figma) (lastScanItems : list ScanItem)
    (doc : gmap string SceneNode) (hex variableId : string)
  : gmap string SceneNode * Completion ApplyResult :=
  let itemsToBind := itemsToBind lastScanItems hex in
  match itemsToBind with
  | [] => (doc, Normal emptyResult)
  | _ =>
      match getVariableByIdAsync_rejects figma variableId with
      | Some e => (doc, Throw e)
      | None =>
          match getVariableByIdAsync figma variableId with
          | None =>
              (doc, Normal (mkApplyResult 0 0 (length itemsToBind) ["변수를 찾을 수 없음"]))
          | Some variable =>
              forAwait (bindChosen_rejects figma) (bindChosen figma variable) itemsToBind
                       (doc, emptyResult)
          end
      end
  end.

(** ** Commands ([figma.ui.onmessage])

    The commands that reach the functions above; [getSuggestions] and
    [selectNodes] are left out. *)

Inductive PluginMessage :=
| MsgGetCollections
| MsgScan (collectionName : option string) (mode : option ModeName) (useGroupFilters : bool)
| MsgGetCandidatesForHex (hex collectionName : string) (mode : ModeName) (useGroupFilters : bool)
| MsgApplyTokenToColor (hex variableId : string)
| MsgApply.

Definition clearCache : M unit :=
  fun st => (Normal tt, mkState (sent st) ∅ (lastScanItems st) (document st)).

Definition setLastScanItems (items : list ScanItem) : M unit :=
  fun st => (Normal tt, mkState (sent st) (variableListCacheMap st) items (document st)).

Definition getLastScanItems : M (list ScanItem) :=
  fun st => (Normal (lastScanItems st), st).

(** A binding pass over the document. *)
Definition onDocument
    (pass : gmap string SceneNode -> gmap string SceneNode * Completion ApplyResult)
  : M ApplyResult :=
  fun st =>
    let '(doc, result) := pass (document st) in
    (result, mkState (sent st) (variableListCacheMap st) (lastScanItems st) doc).

Definition appliedSummary (result : ApplyResult) : string :=
  "Applied " +:+ natString (appliedCount result) +:+ ", Skipped "
    +:+ natString (skippedCount result) +:+ ", Failed " +:+ natString (failedCount result).

Section Commands.

Variable localeCompare : string -> string -> Z.

Definition onmessage (figma : Figma) (msg : PluginMessage) : M unit :=
  match msg with
  | MsgGetCollections =>
      collectionNames <- getAvailableCollectionNames figma ;;
      postMessage (collections collectionNames)
  | MsgScan collectionName mode useGroupFilters =>
      match collectionName, mode with
      | Some (String c rest), Some mode =>
          let collectionName := String c rest in
          clearCache ;;;
          result <- runScan figma collectionName mode (Some useGroupFilters) ;;
          setLastScanItems (items result) ;;;
          postMessage
            (scanUI (totalScanned result) (length (matchedColors result))
                    (length (noMatchColors result))
                    (length (List.filter (fun i => negb (isMatched i)) (items result)))
                    (matchedColors result) (noMatchColors result) (error result))
      | _, _ => postMessage (notify "Collection 또는 Mode가 없습니다" true)
      end
  | MsgGetCandidatesForHex hex collectionName mode useGroupFilters =>
      tryCatch
        (let hexNorm := trim (stripLeadingHash hex) in
         match parseHexToRgb hexNorm with
         | None => postMessage (candidatesResult hexNorm [] (Some "Invalid HEX"))
         | Some targetRgb =>
             entries <- getCollectionVariableList figma collectionName mode useGroupFilters None ;;
             let sorted := sortBy (rankedBefore localeCompare) (withDistance entries targetRgb) in
             let top := map toCandidate (slice0 sorted 12) in
             postMessage (candidatesResult hexNorm top None)
         end)
        (fun e => postMessage (candidatesResult hex [] (Some e)))
  | MsgApplyTokenToColor hex variableId =>
      tryCatch
        (lastScanItems <- getLastScanItems ;;
         result <- onDocument (fun doc => applyTokenToColorAsync figma lastScanItems doc hex variableId) ;;
         postMessage (notify (appliedSummary result) false) ;;;
         postMessage (applyTokenToColorResult result None))
        (fun e =>
           postMessage (notify "Apply failed" true) ;;;
           postMessage (applyTokenToColorResult (mkApplyResult 0 0 0 [e]) (Some e)))
  | MsgApply =>
      postMessage (notify "Applying..." false) ;;;
      tryCatch
        (lastScanItems <- getLastScanItems ;;
         result <- onDocument (fun doc => applyBindingsToItemsAsync figma doc lastScanItems) ;;
         postMessage (notify (appliedSummary result) false) ;;;
         postMessage (applyResult result None))
        (fun e =>
           postMessage (notify "Apply failed" true) ;;;
           postMessage (applyResult emptyResult (Some e)))
  end.

End Commands.

Definition initialState : State := mkState [] ∅ [] ∅.

(** ** Vocabulary of the statements *)

(** A string without a comma. *)
Fixpoint noComma (s : string) : bool :=
  match s with
  | String c s' => negb (Ascii.eqb c ",") && noComma s'
  | EmptyString => true
  end.

Definition isHexDigit (c : ascii) : bool :=
  match hexDigitValue c with
  | Some _ => true
  | None => false
  end.

Fixpoint allChars (p : ascii -> bool) (s : string) : bool :=
  match s with
  | String c s' => p c && allChars p s'
  | EmptyString => true
  end.

(** [rgbToHexStr] after [parseHexToRgb]. *)
Definition hexRoundTrip (h : string) : option string :=
  (fun c => rgbToHexStr (r c) (g c) (b c)) <$> parseHexToRgb h.

(** The sign of a comparator's answer, NaN counting as +0. *)
Definition sign (x : float) : Z :=
  if PrimFloat.ltb x 0 then -1 else if PrimFloat.ltb 0 x then 1 else 0.

Section Order.
Context {A : Type} (cmp : A -> A -> float).

(** [a] may stand before [b]. *)
Definition inOrder (a b : A) : bool := sign (cmp a b) <=? 0.

(** The comparator is a consistent ordering of the elements of [l]:
    swapping the arguments flips the sign, and [inOrder] is transitive. *)
Definition consistentOn (l : list A) : bool :=
  forallb (fun a =>
    forallb (fun b =>
      (sign (cmp a b) =? - sign (cmp b a)) &&
      forallb (fun c => implb (inOrder a b && inOrder b c) (inOrder a c)) l) l) l.
End Order.

(** The color entries behind a list of variable ids in a mode, in order:
    the variables that resolve, are of type COLOR and hold a color there. *)
Definition colorEntry (figma : Figma) (modeId id : string) : option (FigmaVariable * RGBA) :=
  match getVariableByIdAsync figma id with
  | Some v =>
      match resolvedType v, valuesByMode v !! modeId with
      | COLOR, Some (ColorValue c) => Some (v, c)
      | _, _ => None
      end
  | None => None
  end.

Definition colorEntries (figma : Figma) (modeId : string) (ids : list string)
  : list (FigmaVariable * RGBA) :=
  omap (colorEntry figma modeId) ids.

Definition entryKey (e : FigmaVariable * RGBA) : string :=
  rgbOpacityKey (rgba_r (snd e)) (rgba_g (snd e)) (rgba_b (snd e))
                (Some (default 1%float (rgba_a (snd e)))).

Definition hasKey (k : string) (e : FigmaVariable * RGBA) : bool := String.eqb (entryKey e) k.

Definition underPrefix (prefix : string) (e : FigmaVariable * RGBA) : bool :=
  matchesPrefix (var_name (fst e)) prefix.

Definition toEntry (e : FigmaVariable * RGBA) : ColorMapEntry :=
  mkEntry (fst e) (var_name (fst e)).

Definition toListEntry (e : FigmaVariable * RGBA) : VariableListEntry :=
  mkListEntry (var_id (fst e)) (var_name (fst e)) (rgba_r (snd e)) (rgba_g (snd e)) (rgba_b (snd e)).

(** The entries of the groups of [order], group after group. *)
Definition byGroups (order : list string) (entries : list (FigmaVariable * RGBA))
  : list (FigmaVariable * RGBA) :=
  concat (map (fun prefix => List.filter (underPrefix prefix) entries) order).

(** A collection name as the lookup compares it. *)
Definition normalized (name : string) : string := toLowerCase (trim name).

(** Every element may stand before every later one. *)
Fixpoint rankedList {A} (le : A -> A -> bool) (l : list A) : bool :=
  match l with
  | [] => true
  | x :: l' => forallb (le x) l' && rankedList le l'
  end.

(** What the proofs use of a radix-16 digit. *)
Definition hexDigitOK (c : ascii) (v : Z) : bool :=
  (0 <=? v) && (v <? 16) && Ascii.eqb (digitChar v) (lowerChar c)
    && negb (isWhiteSpace c) && negb (Ascii.eqb c "#") && negb (Ascii.eqb c "-")
    && negb (Ascii.eqb c "+") && negb (Ascii.eqb c "x") && negb (Ascii.eqb c "X").

(** A byte as [parseHexToRgb] scales it and [rgbToHexStr] writes it. *)
Definition byteHex (byte : Z) : string :=
  padStart0 2 (Number.toString16 (to255 (PrimFloat.div (Math.ofInteger byte) 255))).

(** What one pass of an apply loop did with one item. *)
Inductive ApplyOutcome :=
| Applied
| Skipped
| Failed (reason : string).

Definition record (o : ApplyOutcome) (result : ApplyResult) : ApplyResult :=
  match o with
  | Applied => applied result
  | Skipped => skipped result
  | Failed reason => failed result reason
  end.

Definition tally (outcomes : list ApplyOutcome) : ApplyResult :=
  fold_left (fun result o => record o result) outcomes emptyResult.

(** The outcome a loop body records, read off a fresh result. *)
Definition outcomeOf (result : ApplyResult) : ApplyOutcome :=
  match appliedCount result, skippedCount result, failedReasons result with
  | S _, _, _ => Applied
  | O, S _, _ => Skipped
  | O, O, reason :: _ => Failed reason
  | O, O, [] => Skipped
  end.

Section Outcomes.
Context (body : gmap string SceneNode * ApplyResult -> ScanItem ->
                gmap string SceneNode * ApplyResult).

(** The outcomes of a loop over [items] from the document [doc], item by
    item. *)
Fixpoint outcomes (doc : gmap string SceneNode) (items : list ScanItem) : list ApplyOutcome :=
  match items with
  | [] => []
  | item :: rest =>
      let '(doc', result) := body (doc, emptyResult) item in
      outcomeOf result :: outcomes doc' rest
  end.
End Outcomes.

(** The failed items with their reasons. *)
Fixpoint failures (items : list ScanItem) (os : list ApplyOutcome) : list (ScanItem * string) :=
  match items, os with
  | item :: items', Failed reason :: os' => (item, reason) :: failures items' os'
  | _ :: items', _ :: os' => failures items' os'
  | _, _ => []
  end.

(** The reason starts with the element's display name in brackets. *)
Definition namesOwner (f : ScanItem * string) : Prop :=
  startsWith (snd f) ("[" +:+ nodeName (fst f) +:+ "]") = true.

(** The slot of an item holds a bound paint, and the host reports it. *)
Definition held (doc : gmap string SceneNode) (item : ScanItem) : Prop :=
  exists node paints paint,
    doc !! nodeId item = Some node /\
    paintsOf node (property item) = Paints paints /\
    paints !! index item = Some paint /\
    is_Some (paintBound paint) /\
    is_Some (boundAt node (property item) (index item)).

(** The variable matched to an item resolves. *)
Definition resolves (figma : Figma) (item : ScanItem) : Prop :=
  exists id variable,
    matchVariableId item = Some id /\ getVariableByIdAsync figma id = Some variable.



(** What a loop of awaited lookups comes to: it returns exactly when no
    lookup of its items rejects; it rejects at the first item with a lookup
    that does, with the document as the items before that one left it. *)
Definition settlesOrAborts (rejects : ScanItem -> option string)
    (body : gmap string SceneNode * ApplyResult -> ScanItem
            -> gmap string SceneNode * ApplyResult)
    (items : list ScanItem) (doc : gmap string SceneNode)
    (outcome : gmap string SceneNode * Completion ApplyResult) : Prop :=
  match outcome with
  | (doc', Normal result) =>
      Forall (fun item => rejects item = None) items /\
      (doc', result) = fold_left body items (doc, emptyResult)
  | (doc', Throw e) =>
      exists before item after,
        items = before ++ item :: after /\
        Forall (fun item => rejects item = None) before /\
        rejects item = Some e /\
        doc' = fst (fold_left body before (doc, emptyResult))
  end.

(** What both apply loops owe for their items: the result is the tally of
    one outcome per item, and the reasons are those of the failed items, in
    order, each naming its element. *)
Definition failuresIsolated (items : list ScanItem) (os : list ApplyOutcome)
    (result : ApplyResult) : Prop :=
  result = tally os /\
  length os = length items /\
  (appliedCount result + skippedCount result + failedCount result)%nat = length items /\
  length (failedReasons result) = failedCount result /\
  failedReasons result = map snd (failures items os) /\
  Forall namesOwner (failures items os).

(** A collation for the examples: code-unit order, which is how every
    locale orders words of lower-case ASCII letters. *)
Definition compareCodeUnits (s t : string) : Z :=
  match String.compare s t with
  | Lt => -1
  | Eq => 0
  | Gt => 1
  end.

(** ** Example hosts and documents *)

Module Examples.

Definition lookupIn (variables : list FigmaVariable) (id : string) : option FigmaVariable :=
  find (fun v => String.eqb (var_id v) id) variables.

Definition emptyPage : Page := mkPage [] (Tree (mkNode "0:1" "Page 1" Absent Absent None) (Some [])).

(** A host whose calls all answer and whose bindings never raise. *)
Definition host (locals : list VariableCollection) (libraries : list LibraryVariableCollection)
    (variables : list FigmaVariable) (current : Page) : Figma :=
  mkFigma (Normal locals) (Some (Normal libraries)) (lookupIn variables) (Normal current)
          (fun _ _ => None) (fun _ _ _ => None) (fun _ => None) (fun _ => None).

Definition colorVariable (id name : string) (red green blue : float) (alpha : option float)
  : FigmaVariable :=
  mkVariable id name COLOR {[ "1:0" := ColorValue (mkRGBA red green blue alpha) ]}.

Definition lightDark : list Mode := [mkMode "Light" "1:0"; mkMode "Dark" "1:1"].

(** Scenario 1 of the specification: the collection Primitive with the
    single entry blue/500. *)
Definition blue500 : FigmaVariable := colorVariable "VariableID:1:1" "blue/500" 0 0 1 (Some 1%float).
Definition primitive : VariableCollection := mkCollection "Primitive" lightDark ["VariableID:1:1"].
Definition primitiveHost : Figma := host [primitive] [] [blue500] emptyPage.

(** The same host when every binding raises. *)
Definition lockedHost : Figma :=
  mkFigma (Normal [primitive]) (Some (Normal [])) (lookupIn [blue500]) (Normal emptyPage)
          (fun _ _ => Some "node is locked") (fun _ _ _ => None) (fun _ => None) (fun _ => None).

(** The same host while the node 1:3 cannot be loaded: its lookup rejects. *)
Definition unloadedHost : Figma :=
  mkFigma (Normal [primitive]) (Some (Normal [])) (lookupIn [blue500]) (Normal emptyPage)
          (fun _ _ => None) (fun _ _ _ => None) (fun _ => None)
          (fun id => if String.eqb id "1:3" then Some "node 1:3 is not loaded" else None).

(** The same collection name, now offered by a team library only. *)
Definition libraryOnlyHost : Figma :=
  host [] [mkLibraryCollection "Primitive" "key-1"] [] emptyPage.

(** A host whose collections cannot be read, and one whose page cannot. *)
Definition unreadableHost : Figma :=
  mkFigma (Throw "variables unavailable") None (lookupIn []) (Normal emptyPage)
          (fun _ _ => None) (fun _ _ _ => None) (fun _ => None) (fun _ => None).
Definition pagelessHost : Figma :=
  mkFigma (Normal [primitive]) None (lookupIn [blue500]) (Throw "page not loaded")
          (fun _ _ => None) (fun _ _ _ => None) (fun _ => None) (fun _ => None).

(** Three prefix groups. *)
Definition colorBg : FigmaVariable := colorVariable "VariableID:2:1" "Color/bg" 0 0 0 (Some 1%float).
Definition blackBg : FigmaVariable := colorVariable "VariableID:2:2" "Black/bg" 0 0 0 (Some 1%float).
Definition gray500 : FigmaVariable := colorVariable "VariableID:2:3" "Gray/500" 0.5 0.5 0.5 (Some 1%float).
Definition groups : VariableCollection :=
  mkCollection "Primitive" lightDark ["VariableID:2:2"; "VariableID:2:1"; "VariableID:2:3"].
Definition groupsHost : Figma := host [groups] [] [colorBg; blackBg; gray500] emptyPage.

(** The same collection while it held Color/bg alone. *)
Definition colorOnlyHost : Figma :=
  host [mkCollection "Primitive" lightDark ["VariableID:2:1"]] [] [colorBg] emptyPage.

(** Three candidates: red itself, and blue and green at the distance
    sqrt 2 from red. *)
Definition threeColors : list VariableListEntry :=
  [ mkListEntry "VariableID:1:1" "blue/500" 0 0 1;
    mkListEntry "VariableID:1:2" "red/500" 1 0 0;
    mkListEntry "VariableID:1:3" "green/500" 0 1 0 ].

(** Three candidates whose distances to black are 0, 6e-7 and 1.2e-6. *)
Definition nearTies : list VariableListEntry :=
  [ mkListEntry "VariableID:3:1" "c" 0 0 0;
    mkListEntry "VariableID:3:2" "b" 6e-7 0 0;
    mkListEntry "VariableID:3:3" "a" 1.2e-6 0 0 ].
Definition black : RGB := mkRGB 0 0 0.

(** A red rectangle, its fill unbound or bound, and scan items for it. *)
Definition red : RGB := mkRGB 1 0 0.
Definition rectangle (bound : option string) : SceneNode :=
  mkNode "1:2" "Rectangle 1" (Paints [SOLID red None bound]) (Paints [])
         (Some (mkBoundVariables (Some [bound]) None)).
Definition redItem (nodeId : string) (matched : option string) : ScanItem :=
  mkScanItem nodeId "Rectangle 1" fills 0 red 1 matched (const "blue/500" <$> matched).

End Examples.

(** ** Vocabulary of the further properties *)

(** The nodes of a subtree, a node before its children, the children from
    left to right. *)
Fixpoint descendants (t : SceneTree) : list SceneNode :=
  match t with
  | Tree node children =>
      node :: match children with
              | Some cs => flat_map descendants cs
              | None => []
              end
  end.

(** The hex under which [runScan] and [applyTokenToColor] file an item. *)
Definition itemHex (item : ScanItem) : string :=
  rgbToHexStr (r (currentColor item)) (g (currentColor item)) (b (currentColor item)).

(** The item [scanNodes] makes of a solid paint in a slot of a node. *)
Definition scanItemOf (colorMap : gmap string ColorMapEntry) (node : SceneNode)
    (property : Property) (index : nat) (color : RGB) (opacity : option float) : ScanItem :=
  let found := colorMap !! rgbOpacityKey (r color) (g color) (b color)
                             (Some (default 1%float opacity)) in
  mkScanItem (node_id node) (node_name node) property index color (default 1%float opacity)
             (var_id <$> (variable <$> found)) (name <$> found).

(** The nodes [runScan] traverses: the subtrees of the selection, or the
    page when nothing is selected. *)
Definition scanRoots (current : Page) : list SceneTree :=
  match selection current with
  | [] => [page current]
  | sel => sel
  end.

(** Only the messages differ between two states. *)
Definition sameStore (st st' : State) : Prop :=
  variableListCacheMap st' = variableListCacheMap st /\
  lastScanItems st' = lastScanItems st /\
  document st' = document st.

(** The test of [runScan] on an item: both match fields are set. *)
Definition fullyMatched (item : ScanItem) : bool :=
  match matchVariableId item, matchVariableName item with
  | Some _, Some _ => true
  | _, _ => false
  end.

(** The state after [variableListCacheMap.clear()]. *)
Definition cleared (st : State) : State :=
  mkState (sent st) ∅ (lastScanItems st) (document st).

(** The [scanUI] message for a scan result. *)
Definition scanMessage (result : ScanResult) : UiEffect :=
  scanUI (totalScanned result) (length (matchedColors result)) (length (noMatchColors result))
         (length (List.filter (fun i => negb (isMatched i)) (items result)))
         (matchedColors result) (noMatchColors result) (error result).

(** ** Further example hosts and documents *)

Module Cases.

Definition red500 : FigmaVariable :=
  Examples.colorVariable "VariableID:1:2" "red/500" 1 0 0 None.

(** Primitive with blue/500 and red/500. *)
Definition palette : VariableCollection :=
  mkCollection "Primitive" Examples.lightDark ["VariableID:1:1"; "VariableID:1:2"].

Definition green : RGB := mkRGB 0 1 0.

(** An ellipse with a green fill at half opacity and a red stroke. *)
Definition ellipse : SceneNode :=
  mkNode "1:3" "Ellipse 1" (Paints [SOLID green (Some 0.5%float) None])
         (Paints [SOLID Examples.red None None]) None.

(** A page with the red rectangle and the ellipse. *)
Definition twoShapes : Page :=
  mkPage [] (Tree (mkNode "0:1" "Page 1" Absent Absent None)
                  (Some [Tree (Examples.rectangle None) None; Tree ellipse None])).

Definition paletteHost : Figma :=
  Examples.host [palette] [] [Examples.blue500; red500] twoShapes.

(** The same host while the ellipse cannot be loaded: the lookup of its
    node rejects. *)
Definition unloadedHost : Figma :=
  mkFigma (Normal [palette]) (Some (Normal [])) (Examples.lookupIn [Examples.blue500; red500])
          (Normal twoShapes) (fun _ _ => None) (fun _ _ _ => None) (fun _ => None)
          (fun id => if String.eqb id "1:3" then Some "node 1:3 is not loaded" else None).

(** The document of that page, and the plugin when it starts on it. *)
Definition shapes : gmap string SceneNode :=
  {[ "1:2" := Examples.rectangle None; "1:3" := ellipse ]}.
Definition started : State := mkState [] ∅ [] shapes.

(** What a scan of that page against Primitive returns. *)
Definition rectangleFill : ScanItem :=
  mkScanItem "1:2" "Rectangle 1" fills 0 Examples.red 1
             (Some "VariableID:1:2") (Some "red/500").
Definition ellipseFill : ScanItem :=
  mkScanItem "1:3" "Ellipse 1" fills 0 green 0.5 None None.
Definition ellipseStroke : ScanItem :=
  mkScanItem "1:3" "Ellipse 1" strokes 0 Examples.red 1
             (Some "VariableID:1:2") (Some "red/500").
Definition scanned : ScanResult :=
  mkScanResult [rectangleFill; ellipseFill; ellipseStroke]
               [mkMatched "ff0000" "red/500" "VariableID:1:2"] ["00ff00"] 3 None.

End Cases.

(** What a binding may change of a paint: the variable bound to the color
    of a solid paint. *)
Definition paintKept (old new : Paint) : Prop :=
  new = old \/
  exists color opacity bound id,
    old = SOLID color opacity bound /\ new = SOLID color opacity (Some id).

Definition paintsKept (old new : PaintsProperty) : Prop :=
  match old, new with
  | Paints paints, Paints paints' => Forall2 paintKept paints paints'
  | _, _ => new = old
  end.

Definition nodeKept (old new : SceneNode) : Prop :=
  node_id new = node_id old /\ node_name new = node_name old /\
  paintsKept (node_fills old) (node_fills new) /\
  paintsKept (node_strokes old) (node_strokes new).

(** The document after a pass that touched the nodes of the given ids: the
    same ids resolve, every node is kept up to the bindings of its paints,
    and a node that was not touched is unchanged. *)
Definition documentKept (touched : list string) (old new : gmap string SceneNode) : Prop :=
  forall id,
    match old !! id, new !! id with
    | Some node, Some node' => nodeKept node node' /\ (~ In id touched -> node' = node)
    | None, None => True
    | _, _ => False
    end.

(** An upper-case letter among the digits of radix 16. *)
Definition isUpperHexLetter (c : ascii) : bool :=
  let n := N_of_ascii c in ((65 <=? n) && (n <=? 70))%N.

Definition noUpperHexLetter (s : string) : bool :=
  allChars (fun c => negb (isUpperHexLetter c)) s.

(** The candidate made of an entry of the list. *)
Definition candidateOf (v : VariableListEntry) : Candidate :=
  mkCandidate (variableId v) (variableName v) (rgbToHexStr (entry_r v) (entry_g v) (entry_b v)).

(** A not-found message of the collection lookup. *)
Definition isNotFound (m : UiEffect) : bool :=
  match m with
  | variableCollectionNotFound _ _ _ => true
  | _ => false
  end.

(** What a candidate query may do to the state besides the list cache: post
    at most one message, a not-found message of the lookup. *)
Definition postedLookup (st st' : State) : Prop :=
  (sent st' = sent st \/ exists m, isNotFound m = true /\ sent st' = sent st ++ [m]) /\
  lastScanItems st' = lastScanItems st /\
  document st' = document st.

(** The color component of a byte, as [parseHexToRgb] computes it. *)
Definition byteComponent (n : Z) : float := PrimFloat.div (Math.ofInteger n) 255%float.

(** A number within [0, 1]. *)
Definition inUnitRange (x : float) : bool := PrimFloat.leb 0%float x && PrimFloat.leb x 1%float.

(** An opacity of a whole number of percent. *)
Definition percent (k : Z) : float := PrimFloat.div (Math.ofInteger k) 100%float.

(** The alpha field of the exact-match key of an opacity. *)
Definition alphaField (a : float) : string := Number.toString (roundAlpha (Some a)).

(** ** Vocabulary for the rendering of numbers *)

(** [x] and [y] are the same number: equal, +0 and -0 alike, or both NaN. *)
Definition sameNumber (x y : float) : bool :=
  PrimFloat.eqb x y || (is_nan x && is_nan y).

(** Reading a rendering back.  A run of decimal digits continues the
    number [acc] and is counted. *)
Definition decimalDigit (c : ascii) : option Z :=
  let n := Z.of_N (N_of_ascii c) in
  if (48 <=? n) && (n <=? 57) then Some (n - 48) else None.

Fixpoint readDigits (s : string) (acc count : Z) : Z * Z * string :=
  match s with
  | String c s' =>
      match decimalDigit c with
      | Some d => readDigits s' (10 * acc + d) (count + 1)
      | None => (acc, count, s)
      end
  | EmptyString => (acc, count, s)
  end.

(** The digits [a] and the power of ten [b] of a decimal literal with an
    optional fraction and an optional exponent: its value is [a * 10^b]. *)
Definition readDecimal (s : string) : option (Z * Z) :=
  let '(a, i, rest) := readDigits s 0 0 in
  if i =? 0 then None
  else
    let '(a, f, rest) :=
      match rest with
      | String "." r => readDigits r a 0
      | _ => (a, 0, rest)
      end in
    let x :=
      match rest with
      | String "e" (String "+" r) => fst (fst (readDigits r 0 0))
      | String "e" (String "-" r) => - fst (fst (readDigits r 0 0))
      | _ => 0
      end in
    Some (a, x - f).

(** The value read, in units of [10^-400]. *)
Definition weight (ab : Z * Z) : Z := fst ab * 10 ^ (snd ab + 400).

(** The rounding interval of the binary64 value [m * 2^e], in units of
    [2^-1076]: the midpoints to its two neighbours. *)
Definition midpointBelow (m : positive) (e : Z) : Z :=
  (if (Z.pos m =? 2 ^ 52) && (-1074 <? e) then 4 * Z.pos m - 1 else 4 * Z.pos m - 2)
  * 2 ^ (e + 1074).

Definition midpointAbove (m : positive) (e : Z) : Z :=
  (4 * Z.pos m + 2) * 2 ^ (e + 1074).

(** [w * 10^-400] rounds to [m * 2^e]: it lies between the midpoints, which
    themselves round to the even mantissa. *)
Definition roundsTo (m : positive) (e : Z) (w : Z) : Prop :=
  if Z.even (Z.pos m)
  then midpointBelow m e * 10 ^ 400 <= w * 2 ^ 1076 <= midpointAbove m e * 10 ^ 400
  else midpointBelow m e * 10 ^ 400 < w * 2 ^ 1076 < midpointAbove m e * 10 ^ 400.

(** A mantissa and an exponent of binary64 in canonical form. *)
Definition canonical (m : positive) (e : Z) : Prop :=
  Z.pos m < 2 ^ 53 /\ -1074 <= e <= 971 /\ (2 ^ 52 <= Z.pos m \/ e = -1074).

(** The number a string of decimal digits denotes. *)
Fixpoint digitsValue (s : string) : Z :=
  match s with
  | String c s' =>
      default 0 (decimalDigit c) * 10 ^ Z.of_nat (String.length s') + digitsValue s'
  | EmptyString => 0
  end.

Definition allDigits (s : string) : bool :=
  allChars (fun c => match decimalDigit c with Some _ => true | None => false end) s.

(** A rendering read back: its sign, digits and power of ten. *)
Definition readNumber (s : string) : option (bool * (Z * Z)) :=
  match readDecimal s with
  | Some ab => Some (false, ab)
  | None =>
      match s with
      | String "-" r => pair true <$> readDecimal r
      | _ => None
      end
  end.

(** The powers [x * b^i] for [i] below [count], for the table below. *)
Fixpoint powersFrom (count : nat) (b x : Z) : list Z :=
  match count with
  | O => []
  | S c => x :: powersFrom c b (b * x)
  end.

(** The estimate of the decimal exponent from the binary one is at most
    one too large a start and at least five too small: checked for every
    binary exponent of binary64. *)
Definition estimateOK (tens : list Z) (L : Z) : bool :=
  let est := (L * 30103) / 100000 - 1 in
  let ten := fun i => nth (Z.to_nat i) tens 0 in
  (0 <=? est + 325) && (est + 405 <? 812) &&
  (Z.shiftl (ten (est + 399)) 1076 <=? Z.shiftl (ten 400) (L + 1076)) &&
  (Z.shiftl (ten 400) (L + 1077) <=? Z.shiftl (ten (est + 405)) 1076).

Definition estimatesOK (tens : list Z) : bool :=
  forallb (fun i => estimateOK tens (Z.of_nat i - 1074)) (seq 0 2098).

(** * Properties *)

(** ** The exact-match key *)

Section KeyInjectivity.

Lemma noComma_app s t : noComma (s +:+ t) = noComma s && noComma t.
Proof.
  induction s as [|c s IH]; simpl; [reflexivity|].
  rewrite IH. destruct (Ascii.eqb c ","); reflexivity.
Qed.

Lemma noComma_zeros n : noComma (zeros n) = true.
Proof.
  unfold zeros. induction (Z.to_nat n) as [|k IH]; [reflexivity|].
  simpl. destruct k; [reflexivity|]. exact IH.
Qed.

Lemma noComma_substring s : forall n k, noComma s = true -> noComma (substring n k s) = true.
Proof.
  induction s as [|c s IH]; intros [|n] [|k] H; simpl in *; try reflexivity;
    apply andb_prop in H as [Hc Hs]; auto.
  rewrite Hc. simpl. auto.
Qed.

Lemma digitChar_not_comma d : Ascii.eqb (digitChar d) "," = false.
Proof.
  unfold digitChar. generalize (Z.to_nat d). intros n.
  do 16 (destruct n as [|n]; [reflexivity|]). destruct n; reflexivity.
Qed.

Lemma noComma_digitsFrom fuel : forall radix n acc,
  noComma acc = true -> noComma (digitsFrom fuel radix n acc) = true.
Proof.
  induction fuel as [|f IH]; intros radix n acc H; simpl; [exact H|].
  destruct (n <? radix).
  - simpl. rewrite digitChar_not_comma. exact H.
  - apply IH. simpl. rewrite digitChar_not_comma. exact H.
Qed.

Lemma noComma_digitString radix n : noComma (digitString radix n) = true.
Proof. apply noComma_digitsFrom. reflexivity. Qed.

Lemma noComma_format s k n : noComma (Number.format s k n) = true.
Proof.
  unfold Number.format.
  repeat match goal with |- context [if ?c then _ else _] => destruct c end;
    repeat rewrite noComma_app;
    repeat rewrite noComma_zeros;
    repeat rewrite noComma_digitString;
    repeat (rewrite noComma_substring by apply noComma_digitString);
    reflexivity.
Qed.

Lemma noComma_toString x : noComma (Number.toString x) = true.
Proof.
  unfold Number.toString. destruct (Prim2SF x) as [s|s| |s m e]; try reflexivity.
  - destruct s; reflexivity.
  - destruct (Number.shortest m e) as [[d k] n].
    rewrite noComma_app, noComma_format. destruct s; reflexivity.
Qed.

(** A comma-free field followed by a comma is read back unambiguously. *)
Lemma field_split s1 : forall s2 t1 t2,
  noComma s1 = true -> noComma s2 = true ->
  s1 +:+ "," +:+ t1 = s2 +:+ "," +:+ t2 -> s1 = s2 /\ t1 = t2.
Proof.
  induction s1 as [|c s1 IH]; intros [|c2 s2] t1 t2 H1 H2 E; cbn in *.
  - inversion E. auto.
  - inversion E; subst. discriminate.
  - inversion E; subst. discriminate.
  - inversion E as [[Ec E']]. subst c2.
    apply andb_prop in H1 as [_ H1]. apply andb_prop in H2 as [_ H2].
    destruct (IH _ _ _ H1 H2 E') as [-> ->]. auto.
Qed.

End KeyInjectivity.

(** ** HEX and RGB *)

Section HexRoundTrip.

Lemma hexDigitValue_ok c v : hexDigitValue c = Some v -> hexDigitOK c v = true.
Proof.
  destruct c as [[] [] [] [] [] [] [] []]; intros H; vm_compute in H;
    try discriminate H; injection H as <-; vm_compute; reflexivity.
Qed.

Lemma isHexDigit_value c : isHexDigit c = true -> exists v, hexDigitValue c = Some v.
Proof. unfold isHexDigit. destruct (hexDigitValue c) as [v|]; [eauto | discriminate]. Qed.

Lemma trimEnd_id s :
  allChars (fun c => negb (isWhiteSpace c)) s = true -> trimEnd s = s.
Proof.
  induction s as [|c s IH]; simpl; [reflexivity|].
  intros H. apply andb_prop in H as [Hc Hs]. rewrite (IH Hs).
  destruct s; [|reflexivity].
  destruct (isWhiteSpace c); [discriminate | reflexivity].
Qed.

(** Every byte survives the division by 255 and [to255], and is written
    as its two lower-case digits: checked on all 256 bytes. *)
Lemma byteHex_table :
  forallb (fun n => String.eqb (byteHex (Z.of_nat n))
                      (String (digitChar (Z.of_nat n / 16))
                         (String (digitChar (Z.of_nat n mod 16)) EmptyString)))
          (seq 0 256) = true.
Proof. vm_compute. reflexivity. Qed.

Lemma byteHex_digits hi lo :
  0 <= hi < 16 -> 0 <= lo < 16 ->
  byteHex (16 * hi + lo) = String (digitChar hi) (String (digitChar lo) EmptyString).
Proof.
  intros Hhi Hlo.
  pose proof byteHex_table as T. rewrite forallb_forall in T.
  specialize (T (Z.to_nat (16 * hi + lo))).
  rewrite Z2Nat.id in T by lia.
  replace ((16 * hi + lo) / 16) with hi in T by (apply Z.div_unique with lo; lia).
  replace ((16 * hi + lo) mod 16) with lo in T by (apply Z.mod_unique with hi; lia).
  apply String.eqb_eq, T, in_seq. lia.
Qed.

Lemma ToInt32_small n : 0 <= n < 2 ^ 31 -> ToInt32 n = n.
Proof. intros H. unfold ToInt32. rewrite Z.mod_small; lia. Qed.

(** The three bytes of a six-digit number. *)
Lemma bytes_of_digits v1 v2 v3 v4 v5 v6 :
  0 <= v1 < 16 -> 0 <= v2 < 16 -> 0 <= v3 < 16 ->
  0 <= v4 < 16 -> 0 <= v5 < 16 -> 0 <= v6 < 16 ->
  let n := 16 * (16 * (16 * (16 * (16 * v1 + v2) + v3) + v4) + v5) + v6 in
  Z.land (Z.shiftr (ToInt32 n) 16) 255 = 16 * v1 + v2 /\
  Z.land (Z.shiftr (ToInt32 n) 8) 255 = 16 * v3 + v4 /\
  Z.land (ToInt32 n) 255 = 16 * v5 + v6.
Proof.
  intros H1 H2 H3 H4 H5 H6 n.
  rewrite ToInt32_small by (unfold n; lia).
  change 255 with (Z.ones 8). rewrite !Z.land_ones, !Z.shiftr_div_pow2 by lia.
  change (2 ^ 16) with 65536. change (2 ^ 8) with 256.
  unfold n. repeat split; Z.div_mod_to_equations; lia.
Qed.

End HexRoundTrip.

(** C7, as amended: a string of six hexadecimal digits is parsed and
    written back as the same digits in lower case; it comes back unchanged
    exactly when lower-casing leaves it as it is. *)
Theorem hexRoundTrip_lowercase (h : string) :
  String.length h = 6%nat -> allChars isHexDigit h = true ->
  hexRoundTrip h = Some (toLowerCase h) /\
  (hexRoundTrip h = Some h <-> toLowerCase h = h).
Proof.
  intros Hlen Hhex.
  cut (hexRoundTrip h = Some (toLowerCase h)).
  { intros E. split; [exact E|]. rewrite E. split; [intros H; injection H; auto | intros ->; reflexivity]. }
  destruct h as [|c1 [|c2 [|c3 [|c4 [|c5 [|c6 [|c7 h]]]]]]]; try discriminate Hlen.
  cbn [allChars] in Hhex.
  repeat match goal with
         | H : _ && _ = true |- _ => apply andb_prop in H as [? ?]
         end.
  repeat match goal with
         | H : isHexDigit ?c = true |- _ =>
             let v := fresh "v" in let E := fresh "E" in
             destruct (isHexDigit_value c H) as [v E]; clear H;
             pose proof (hexDigitValue_ok c v E)
         end.
  unfold hexDigitOK in *.
  repeat match goal with
         | H : _ && _ = true |- _ => apply andb_prop in H as [? ?]
         | H : negb _ = true |- _ => apply negb_true_iff in H
         | H : (_ <=? _) = true |- _ => apply Z.leb_le in H
         | H : (_ <? _) = true |- _ => apply Z.ltb_lt in H
         | H : Ascii.eqb (digitChar _) _ = true |- _ => apply Ascii.eqb_eq in H
         end.
  unfold hexRoundTrip, parseHexToRgb.
  set (s := String c1 (String c2 (String c3 (String c4 (String c5 (String c6 EmptyString)))))).
  assert (Hstrip : stripLeadingHash s = s).
  { unfold s, stripLeadingHash.
    match goal with H : Ascii.eqb c1 "#" = false |- _ => rewrite H end. reflexivity. }
  assert (Htrim : trim s = s).
  { unfold trim.
    assert (Hst : trimStart s = s).
    { unfold s. cbn [trimStart].
      match goal with H : isWhiteSpace c1 = false |- _ => rewrite H end. reflexivity. }
    rewrite Hst. apply trimEnd_id. unfold s. cbn [allChars].
    repeat match goal with H : isWhiteSpace _ = false |- _ => rewrite H; clear H end.
    reflexivity. }
  rewrite Hstrip, Htrim.
  assert (Hparse : parseInt16 s
                   = Some (16 * (16 * (16 * (16 * (16 * v4 + v3) + v2) + v1) + v0) + v)).
  { unfold parseInt16.
    assert (Hst : trimStart s = s).
    { unfold s. cbn [trimStart].
      match goal with H : isWhiteSpace c1 = false |- _ => rewrite H end. reflexivity. }
    rewrite Hst. unfold s.
    repeat match goal with
           | H : Ascii.eqb c1 _ = false |- _ => rewrite H; clear H
           | H : Ascii.eqb c2 _ = false |- _ => rewrite H; clear H
           end.
    rewrite andb_false_r.
    cbn [parseDigits16].
    repeat match goal with H : hexDigitValue _ = Some _ |- _ => rewrite H; clear H end.
    cbn [default fmap option_fmap option_map parseDigits16].
    unfold id. f_equal. lia. }
  rewrite Hparse. subst s.
  cbn [String.length Nat.eqb negb fmap option_fmap option_map r g b].
  f_equal.
  assert (B := bytes_of_digits v4 v3 v2 v1 v0 v).
  cbv zeta in B. destruct B as (B1 & B2 & B3); try lia.
  rewrite B1, B2, B3.
  unfold rgbToHexStr. cbn [map join].
  fold (byteHex (16 * v4 + v3)). fold (byteHex (16 * v2 + v1)). fold (byteHex (16 * v0 + v)).
  rewrite !byteHex_digits by lia.
  cbn [toLowerCase String.append].
  repeat match goal with H : digitChar _ = lowerChar _ |- _ => rewrite H; clear H end.
  reflexivity.
Qed.

(** C7, on ff8000. *)
Lemma hexRoundTrip_lowercase_witness :
  String.length "ff8000" = 6%nat /\ allChars isHexDigit "ff8000" = true /\
  hexRoundTrip "ff8000" = Some (toLowerCase "ff8000") /\
  (hexRoundTrip "ff8000" = Some "ff8000" <-> toLowerCase "ff8000" = "ff8000").
Proof.
  split; [reflexivity|]. split; [reflexivity|].
  apply hexRoundTrip_lowercase; reflexivity.
Defined.

(** C7, the claim as stated fails: FF8000 is six hexadecimal digits, and it
    comes back as ff8000. *)
Lemma hexRoundTrip_uppercase_changes :
  String.length "FF8000" = 6%nat /\ allChars isHexDigit "FF8000" = true /\
  hexRoundTrip "FF8000" = Some "ff8000" /\ hexRoundTrip "FF8000" <> Some "FF8000".
Proof.
  assert (E : hexRoundTrip "FF8000" = Some "ff8000") by (vm_compute; reflexivity).
  repeat split; try reflexivity; try exact E.
  rewrite E. discriminate.
Qed.

(** ** Ranking *)

Section SortFacts.
Context {A : Type} (before : A -> A -> bool).

Lemma insertSorted_Permutation x l : Permutation (insertSorted before x l) (x :: l).
Proof.
  induction l as [|y l IH]; simpl; [reflexivity|].
  destruct (before x y); [reflexivity|].
  rewrite IH. apply perm_swap.
Qed.

Lemma fold_insert_Permutation l : forall acc,
  Permutation (fold_left (fun sorted x => insertSorted before x sorted) l acc) (acc ++ l).
Proof.
  induction l as [|x l IH]; intros acc; simpl.
  - rewrite app_nil_r. reflexivity.
  - rewrite IH, insertSorted_Permutation.
    change (x :: acc) with ([x] ++ acc).
    rewrite (Permutation_app_comm [x] acc), <- app_assoc. reflexivity.
Qed.

Lemma sortBy_Permutation l : Permutation (sortBy before l) l.
Proof. unfold sortBy. rewrite fold_insert_Permutation. reflexivity. Qed.

Lemma sortBy_length l : length (sortBy before l) = length l.
Proof. apply Permutation_length, sortBy_Permutation. Qed.
End SortFacts.

Section SortedByComparator.
Context {A : Type} (cmp : A -> A -> float) (l : list A).
Hypothesis consistent : consistentOn cmp l = true.

Let before (a b : A) : bool := PrimFloat.ltb (cmp a b) 0.
Let R (a b : A) : Prop := inOrder cmp a b = true.

Lemma consistent_flip a b : In a l -> In b l -> sign (cmp a b) = - sign (cmp b a).
Proof.
  intros Ha Hb. unfold consistentOn in consistent.
  rewrite forallb_forall in consistent. specialize (consistent a Ha).
  rewrite forallb_forall in consistent. specialize (consistent b Hb).
  apply andb_prop in consistent as [E _]. apply Z.eqb_eq, E.
Qed.

Lemma consistent_trans a b c : In a l -> In b l -> In c l -> R a b -> R b c -> R a c.
Proof.
  intros Ha Hb Hc Hab Hbc. unfold consistentOn in consistent.
  rewrite forallb_forall in consistent. specialize (consistent a Ha).
  rewrite forallb_forall in consistent. specialize (consistent b Hb).
  apply andb_prop in consistent as [_ T].
  rewrite forallb_forall in T. specialize (T c Hc).
  unfold R in *. rewrite Hab, Hbc in T. exact T.
Qed.

Lemma before_inOrder a b : before a b = true -> R a b.
Proof.
  unfold before, R, inOrder, sign. intros ->. reflexivity.
Qed.

Lemma not_before_inOrder a b : In a l -> In b l -> before a b = false -> R b a.
Proof.
  intros Ha Hb H. unfold R, inOrder. rewrite (consistent_flip b a Hb Ha).
  unfold before in H. unfold sign. rewrite H.
  destruct (PrimFloat.ltb 0 (cmp a b)); reflexivity.
Qed.

Lemma insertSorted_sorted x acc :
  In x l -> incl acc l -> StronglySorted R acc ->
  StronglySorted R (insertSorted before x acc).
Proof.
  intros Hx. induction acc as [|y acc IH]; intros Hin S; simpl.
  - constructor; constructor.
  - assert (Hy : In y l) by (apply Hin; left; reflexivity).
    assert (Hacc : incl acc l) by (intros z Hz; apply Hin; right; exact Hz).
    apply StronglySorted_inv in S as [S F].
    destruct (before x y) eqn:E.
    + constructor; [constructor; assumption|].
      constructor; [apply before_inOrder, E|].
      rewrite List.Forall_forall in *. intros z Hz.
      apply (consistent_trans x y z); [exact Hx | exact Hy | exact (Hacc z Hz) | |].
      * apply before_inOrder, E.
      * apply F, Hz.
    + constructor; [apply IH; assumption|].
      rewrite List.Forall_forall in *. intros z Hz.
      apply (Permutation_in _ (insertSorted_Permutation before x acc)) in Hz.
      destruct Hz as [<-|Hz]; [apply not_before_inOrder; assumption | apply F, Hz].
Qed.

Lemma fold_insert_sorted xs : forall acc,
  incl xs l -> incl acc l -> StronglySorted R acc ->
  StronglySorted R (fold_left (fun sorted x => insertSorted before x sorted) xs acc).
Proof.
  induction xs as [|x xs IH]; intros acc Hxs Hacc S; simpl; [exact S|].
  apply IH.
  - intros z Hz. apply Hxs. right. exact Hz.
  - intros z Hz. apply (Permutation_in _ (insertSorted_Permutation before x acc)) in Hz.
    destruct Hz as [<-|Hz]; [apply Hxs; left; reflexivity | exact (Hacc z Hz)].
  - apply insertSorted_sorted; [apply Hxs; left; reflexivity | exact Hacc | exact S].
Qed.

Lemma sortBy_sorted : StronglySorted R (sortBy before l).
Proof.
  apply fold_insert_sorted; [apply incl_refl | intros z [] | constructor].
Qed.
End SortedByComparator.

Lemma rankedList_sound {A} (le : A -> A -> bool) (l : list A) :
  StronglySorted (fun a b => le a b = true) l -> rankedList le l = true.
Proof.
  induction 1 as [|x l S IH F]; simpl; [reflexivity|].
  rewrite IH, andb_true_r. apply forallb_forall. rewrite List.Forall_forall in F. exact F.
Qed.

Lemma slice0_nonneg {A} (l : list A) (limit : Z) :
  0 <= limit -> slice0 l limit = firstn (Z.to_nat limit) l.
Proof.
  intros H. unfold slice0.
  destruct (limit <? 0) eqn:E; [apply Z.ltb_lt in E; lia|].
  destruct (Z.le_ge_cases limit (Z.of_nat (length l))).
  - rewrite Z.min_l by lia. reflexivity.
  - rewrite Z.min_r by lia. rewrite Nat2Z.id.
    rewrite firstn_all. symmetry. apply firstn_all2. lia.
Qed.

(** C6, as amended: for a limit that is not negative the output has
    [min(limit, candidates.length)] entries and is the first [limit] entries
    of a reordering of the candidates; when the comparator of the source
    (distance, with names deciding between distances less than 1e-6 apart)
    orders the candidates consistently, every entry of that reordering may
    stand before every later one. *)
Theorem computeCandidates_ranked (localeCompare : string -> string -> Z)
    (entries : list VariableListEntry) (targetRgb : RGB) (limit : Z) :
  0 <= limit ->
  Z.of_nat (length (computeCandidates localeCompare entries targetRgb limit))
    = Z.min limit (Z.of_nat (length entries)) /\
  exists ws,
    Permutation ws (withDistance entries targetRgb) /\
    computeCandidates localeCompare entries targetRgb limit
      = map toCandidate (firstn (Z.to_nat limit) ws) /\
    (consistentOn (comparefn localeCompare) (withDistance entries targetRgb) = true ->
     StronglySorted (fun a b => inOrder (comparefn localeCompare) a b = true) ws).
Proof.
  intros Hlimit. unfold computeCandidates.
  rewrite slice0_nonneg by assumption. split.
  - rewrite length_map, length_firstn, sortBy_length.
    unfold withDistance. rewrite length_map. lia.
  - exists (sortBy (rankedBefore localeCompare) (withDistance entries targetRgb)).
    split; [apply sortBy_Permutation|]. split; [reflexivity|].
    intros Hcons. apply (sortBy_sorted (comparefn localeCompare)). exact Hcons.
Qed.

(** C6, on three candidates for red with the limit 2: the comparator is
    consistent on them. *)
Lemma computeCandidates_ranked_witness :
  0 <= 2 /\
  consistentOn (comparefn compareCodeUnits)
               (withDistance Examples.threeColors Examples.red) = true /\
  Z.of_nat (length (computeCandidates compareCodeUnits Examples.threeColors Examples.red 2))
    = Z.min 2 (Z.of_nat (length Examples.threeColors)) /\
  exists ws,
    Permutation ws (withDistance Examples.threeColors Examples.red) /\
    computeCandidates compareCodeUnits Examples.threeColors Examples.red 2
      = map toCandidate (firstn (Z.to_nat 2) ws) /\
    (consistentOn (comparefn compareCodeUnits)
                  (withDistance Examples.threeColors Examples.red) = true ->
     StronglySorted (fun a b => inOrder (comparefn compareCodeUnits) a b = true) ws).
Proof.
  split; [lia|]. split; [vm_compute; reflexivity|].
  apply computeCandidates_ranked. lia.
Defined.

(** The ranking of the witness: the exact match first, then the two
    candidates at distance sqrt 2 by name. *)
Example ranking_of_three :
  computeCandidates compareCodeUnits Examples.threeColors Examples.red 2
  = [mkCandidate "VariableID:1:2" "red/500" "ff0000";
     mkCandidate "VariableID:1:1" "blue/500" "0000ff"].
Proof. vm_compute. reflexivity. Qed.

(** C6, the claim as stated fails twice.  With the limit -1 the output of
    three candidates has two entries, not [min(-1, 3)].  And for three
    candidates at distances 0, 6e-7 and 1.2e-6 from the target, named c, b
    and a, the first two and the last two are ties decided by name while the
    outer two are not a tie: no order of the three has every entry before
    every later one, whatever the sort does; the source's comparator puts
    the farthest first. *)
Lemma computeCandidates_not_ranked :
  Z.of_nat (length (computeCandidates compareCodeUnits Examples.nearTies Examples.black (-1)))
    <> Z.min (-1) (Z.of_nat (length Examples.nearTies)) /\
  map cand_variableName (computeCandidates compareCodeUnits Examples.nearTies Examples.black 12)
    = ["a"; "b"; "c"] /\
  ~ exists ws,
      Permutation ws (withDistance Examples.nearTies Examples.black) /\
      StronglySorted (fun a b => inOrder (comparefn compareCodeUnits) a b = true) ws.
Proof.
  split; [vm_compute; discriminate|]. split; [vm_compute; reflexivity|].
  intros (ws & P & S).
  apply rankedList_sound in S.
  apply Permutation_sym, permutations_Permutation in P.
  assert (T : forallb (fun ws => negb (rankedList (inOrder (comparefn compareCodeUnits)) ws))
                      (permutations (withDistance Examples.nearTies Examples.black)) = true)
    by (vm_compute; reflexivity).
  rewrite forallb_forall in T. apply list_elem_of_In in P.
  specialize (T ws P). rewrite S in T. discriminate T.
Qed.

(** ** The catalog index *)

Ltac run := unfold bind, ret, await, tryCatch, postMessage, cacheGet, cacheSet in *; cbn beta iota.

Lemma find_app {A} (f : A -> bool) (l1 l2 : list A) :
  find f (l1 ++ l2) = match find f l1 with Some x => Some x | None => find f l2 end.
Proof.
  induction l1 as [|x l1 IH]; simpl; [reflexivity|]. destruct (f x); [reflexivity | exact IH].
Qed.

Section Index.
Variables (figma : Figma) (modeId : string).

(** One pass of a prefix group leaves the keys that are set and gives
    each free key to the first entry of the group that has it. *)
Lemma group_pass prefix ids : forall (colorMap : gmap string ColorMapEntry) k,
  fold_left (setEntryIfAbsent figma modeId prefix) ids colorMap !! k =
  match colorMap !! k with
  | Some e => Some e
  | None => toEntry <$> find (hasKey k)
              (List.filter (underPrefix prefix) (colorEntries figma modeId ids))
  end.
Proof.
  induction ids as [|id ids IH]; intros colorMap k; simpl.
  - destruct (colorMap !! k); reflexivity.
  - rewrite IH. unfold setEntryIfAbsent, colorEntries. cbn [omap list_omap].
    unfold colorEntry at 2.
    destruct (getVariableByIdAsync figma id) as [v|]; [|reflexivity].
    destruct (resolvedType v); try reflexivity.
    destruct (valuesByMode v !! modeId) as [[c|]|] eqn:Ev.
    + cbn [List.filter]. unfold underPrefix at 2. cbn [fst].
      destruct (matchesPrefix (var_name v) prefix); cbn [negb]; [|reflexivity].
      cbn [find]. unfold hasKey at 2, entryKey at 1. cbn [snd].
      set (key := rgbOpacityKey _ _ _ _).
      destruct (colorMap !! key) eqn:Ek.
      * destruct (String.eqb_spec key k) as [<-|Hne]; [rewrite Ek|]; reflexivity.
      * rewrite lookup_insert. destruct (String.eqb_spec key k) as [<-|Hne].
        -- rewrite decide_True by reflexivity. rewrite Ek. reflexivity.
        -- rewrite decide_False by assumption. reflexivity.
    + destruct (negb _); reflexivity.
    + destruct (negb _); reflexivity.
Qed.

Lemma group_passes ids order : forall (colorMap : gmap string ColorMapEntry) k,
  fold_left
    (fun colorMap prefix => fold_left (setEntryIfAbsent figma modeId prefix) ids colorMap)
    order colorMap !! k =
  match colorMap !! k with
  | Some e => Some e
  | None => toEntry <$> find (hasKey k) (byGroups order (colorEntries figma modeId ids))
  end.
Proof.
  induction order as [|prefix order IH]; intros colorMap k; simpl.
  - destruct (colorMap !! k); reflexivity.
  - rewrite IH, group_pass. unfold byGroups. cbn [map concat]. rewrite find_app.
    destruct (colorMap !! k); [reflexivity|].
    destruct (find _ (List.filter _ _)); reflexivity.
Qed.

Lemma list_pass prefixes ids : forall out,
  fold_left (pushEntry figma modeId (Some prefixes)) ids out =
  out ++ map toListEntry
           (List.filter (fun e => existsb (matchesPrefix (var_name (fst e))) prefixes)
                        (colorEntries figma modeId ids)).
Proof.
  induction ids as [|id ids IH]; intros out; simpl.
  - rewrite app_nil_r. reflexivity.
  - rewrite IH. unfold pushEntry, colorEntries. cbn [omap list_omap].
    unfold colorEntry at 2.
    destruct (getVariableByIdAsync figma id) as [v|]; [|reflexivity].
    destruct (resolvedType v); try reflexivity.
    destruct (valuesByMode v !! modeId) as [[c|]|] eqn:Ev.
    + cbn [List.filter fst].
      destruct (existsb (matchesPrefix (var_name v)) prefixes); cbn [negb]; [|reflexivity].
      rewrite <- app_assoc. reflexivity.
    + destruct (negb _); reflexivity.
    + destruct (negb _); reflexivity.
Qed.
End Index.

(** C5, as amended: with a group filter the exact map is built from the
    first two prefixes of the filter, group after group: a key belongs to
    the first entry that has it in the first group, else in the second, so
    between two entries of the same key the one under the earlier of the
    two prefixes wins, and entries under further prefixes are not indexed.
    The candidate list, when it is computed and not served from the cache,
    holds every color entry whose name matches at least one prefix of its
    own filter (Color/ and Black/ unless it is given one), in collection
    order. *)
Theorem grouped_index (figma : Figma) (collectionName : string) (mode : ModeName)
    (prefixes : list string) (groupPrefixFilter : option (list string))
    (collection : VariableCollection) (modeId : string) (st : State) :
  findVariableCollectionByName figma collectionName st
    = (Normal (Some (LocalSource collection)), st) ->
  resolveModeId collection mode = Some modeId ->
  variableListCacheMap st !! variableListCacheKey collectionName mode true groupPrefixFilter
    = None ->
  let entries := colorEntries figma modeId (variableIds collection) in
  (exists colorMap,
     getCollectionColorMap figma collectionName mode (mkOptions (Some true) (Some prefixes)) st
       = (Normal colorMap, st) /\
     forall k, colorMap !! k
               = toEntry <$> find (hasKey k) (byGroups (firstn 2 prefixes) entries)) /\
  (exists st',
     getCollectionVariableList figma collectionName mode true groupPrefixFilter st
       = (Normal (map toListEntry
                    (List.filter
                       (fun e => matchesGroupFilter (var_name (fst e))
                                   (default GROUP_FILTER_PREFIXES groupPrefixFilter))
                       entries)), st')).
Proof.
  intros Hfind Hmode Hmiss entries. split.
  - eexists. split.
    + unfold getCollectionColorMap. run. rewrite Hfind, Hmode. cbn. reflexivity.
    + intros k.
      replace (match prefixes with p0 :: p1 :: _ => [p0; p1] | _ => prefixes end)
        with (firstn 2 prefixes) by (destruct prefixes as [|? [|? ?]]; reflexivity).
      rewrite group_passes, lookup_empty. reflexivity.
  - eexists. unfold getCollectionVariableList. run. rewrite Hmiss, Hfind, Hmode.
    replace (match groupPrefixFilter with
             | Some prefixes0 => Some prefixes0
             | None => Some GROUP_FILTER_PREFIXES
             end)
      with (Some (default GROUP_FILTER_PREFIXES groupPrefixFilter))
      by (destruct groupPrefixFilter; reflexivity).
    rewrite list_pass. cbn [app]. reflexivity.
Qed.

(** C5, on the host of scenario 3 with the built-in prefixes. *)
Lemma grouped_index_witness :
  findVariableCollectionByName Examples.groupsHost "Primitive" initialState
    = (Normal (Some (LocalSource Examples.groups)), initialState) /\
  resolveModeId Examples.groups Light = Some "1:0" /\
  variableListCacheMap initialState !! variableListCacheKey "Primitive" Light true None = None /\
  let entries := colorEntries Examples.groupsHost "1:0" (variableIds Examples.groups) in
  (exists colorMap,
     getCollectionColorMap Examples.groupsHost "Primitive" Light
       (mkOptions (Some true) (Some ["Color/"; "Black/"])) initialState
       = (Normal colorMap, initialState) /\
     forall k, colorMap !! k
               = toEntry <$> find (hasKey k) (byGroups (firstn 2 ["Color/"; "Black/"]) entries)) /\
  (exists st',
     getCollectionVariableList Examples.groupsHost "Primitive" Light true None initialState
       = (Normal (map toListEntry
                    (List.filter
                       (fun e => matchesGroupFilter (var_name (fst e))
                                   (default GROUP_FILTER_PREFIXES None))
                       entries)), st')).
Proof.
  split; [reflexivity|]. split; [reflexivity|]. split; [reflexivity|].
  apply (grouped_index Examples.groupsHost "Primitive" Light ["Color/"; "Black/"] None
                       Examples.groups "1:0" initialState); reflexivity.
Defined.

(** Between two entries of one key the first prefix wins (scenario 3 of
    the specification), whatever their order in the collection. *)
Example first_prefix_wins :
  exists colorMap st',
    getCollectionColorMap Examples.groupsHost "Primitive" Light
      (mkOptions (Some true) None) initialState = (Normal colorMap, st') /\
    name <$> colorMap !! "0,0,0,1" = Some "Color/bg" /\
    fst (getCollectionVariableList Examples.groupsHost "Primitive" Light true None initialState)
      = Normal [mkListEntry "VariableID:2:2" "Black/bg" 0 0 0;
                mkListEntry "VariableID:2:1" "Color/bg" 0 0 0].
Proof.
  eexists. eexists. split; [vm_compute; reflexivity|].
  split; vm_compute; reflexivity.
Qed.

(** C5, the claim as stated fails.  With the three prefixes Color/, Black/
    and Gray/ the entry Gray/500 matches the filter and no other entry has
    its key, yet the exact map does not hold it: the third prefix is never
    processed.  And a candidate list cached while the collection held
    Color/bg alone is served unchanged once Black/bg is there as well. *)
Lemma grouped_index_third_prefix_ignored :
  (matchesGroupFilter "Gray/500" ["Color/"; "Black/"; "Gray/"] = true /\
   map (fun e => (var_name (fst e), entryKey e))
       (colorEntries Examples.groupsHost "1:0" (variableIds Examples.groups))
     = [("Black/bg", "0,0,0,1"); ("Color/bg", "0,0,0,1"); ("Gray/500", "0.5,0.5,0.5,1")] /\
   exists colorMap st',
     getCollectionColorMap Examples.groupsHost "Primitive" Light
       (mkOptions (Some true) (Some ["Color/"; "Black/"; "Gray/"])) initialState
       = (Normal colorMap, st') /\
     colorMap !! "0.5,0.5,0.5,1" = None) /\
  (let st1 := snd (getCollectionVariableList Examples.colorOnlyHost "Primitive" Light
                     true None initialState) in
   matchesGroupFilter "Black/bg" GROUP_FILTER_PREFIXES = true /\
   fst (getCollectionVariableList Examples.groupsHost "Primitive" Light true None st1)
     = Normal [mkListEntry "VariableID:2:1" "Color/bg" 0 0 0]).
Proof.
  split.
  - split; [vm_compute; reflexivity|]. split; [vm_compute; reflexivity|].
    eexists. eexists. split; vm_compute; reflexivity.
  - split; vm_compute; reflexivity.
Qed.

(** ** Library collections *)

Lemma findVariableCollectionByName_library figma name lib st st' :
  findVariableCollectionByName figma name st = (Normal (Some (LibrarySource lib)), st') ->
  st' = st /\
  exists locals,
    getLocalVariableCollectionsAsync figma = Normal locals /\
    find (fun c => String.eqb (normalized (lib_name c)) (normalized name))
         (getLibraryVariableCollectionsSafe figma) = Some lib.
Proof.
  unfold findVariableCollectionByName, normalized. run.
  destruct (String.length (toLowerCase (trim name)) =? 0)%nat; [intros H; discriminate H|].
  destruct (getLocalVariableCollectionsAsync figma) as [locals|e]; [|intros H; discriminate H].
  destruct (find _ locals); [intros H; discriminate H|].
  destruct (find _ (getLibraryVariableCollectionsSafe figma)) as [l|] eqn:E;
    intros H; inversion H; subst. eauto.
Qed.

(** Every library name is listed, under its own spelling or under the
    spelling of an earlier collection of the same normalized name. *)
Lemma addUnseenNames_covers libraryNames : forall (seen : gset string) localNames,
  (forall k, k ∈ seen -> exists n, In n localNames /\ normalized n = k) ->
  (forall n, In n localNames -> In n (addUnseenNames libraryNames seen localNames)) /\
  (forall n, In n libraryNames ->
     exists n', In n' (addUnseenNames libraryNames seen localNames) /\
                normalized n' = normalized n).
Proof.
  induction libraryNames as [|name rest IH]; intros seen localNames Hseen; simpl.
  - split; [auto | intros n []].
  - fold (normalized name). destruct (decide (normalized name ∈ seen)) as [Hin|Hout].
    + destruct (IH seen localNames Hseen) as [Hkeep Hcover]. split; [exact Hkeep|].
      intros n [<-|Hn]; [|auto].
      destruct (Hseen _ Hin) as (n' & Hn' & E). eauto.
    + destruct (IH ({[normalized name]} ∪ seen) (localNames ++ [name])) as [Hkeep Hcover].
      { intros k Hk. apply elem_of_union in Hk as [Hk|Hk].
        - apply elem_of_singleton in Hk as ->. exists name. split; [|reflexivity].
          apply in_or_app. right. left. reflexivity.
        - destruct (Hseen k Hk) as (n & Hn & E). exists n. split; [|exact E].
          apply in_or_app. left. exact Hn. }
      split.
      * intros n Hn. apply Hkeep, in_or_app. left. exact Hn.
      * intros n [<-|Hn]; [|auto].
        exists name. split; [|reflexivity]. apply Hkeep, in_or_app. right. left. reflexivity.
Qed.

(** C10, as amended: when the collection lookup resolves the name to a
    library collection, the exact map is empty, a scan gives the
    empty-catalog error result, and the candidate list is empty unless the
    list cache still holds a list under the key of the request, which is
    then returned; all this although the name is one of those
    [getAvailableCollectionNames] lists. *)
Theorem library_collection_has_no_entries (figma : Figma) (collectionName : string)
    (mode : ModeName) (library : LibraryVariableCollection) (st : State) :
  findVariableCollectionByName figma collectionName st
    = (Normal (Some (LibrarySource library)), st) ->
  (forall options,
     getCollectionColorMap figma collectionName mode options st = (Normal ∅, st)) /\
  (forall useGroupFilters,
     runScan figma collectionName mode useGroupFilters st
       = (Normal (mkScanResult [] [] [] 0
                    (Some (emptyCatalogError collectionName useGroupFilters))), st)) /\
  (forall useGroupFilters groupPrefixFilter,
     getCollectionVariableList figma collectionName mode useGroupFilters groupPrefixFilter st
       = (Normal (default []
                    (variableListCacheMap st
                       !! variableListCacheKey collectionName mode useGroupFilters
                            groupPrefixFilter)), st)) /\
  (exists names,
     getAvailableCollectionNames figma st = (Normal names, st) /\
     exists n, In n names /\ normalized n = normalized collectionName).
Proof.
  intros Hfind.
  assert (Hmap : forall options,
            getCollectionColorMap figma collectionName mode options st = (Normal ∅, st)).
  { intros options. unfold getCollectionColorMap. run. rewrite Hfind. reflexivity. }
  split; [exact Hmap|]. split; [|split].
  - intros useGroupFilters. unfold runScan, runScanBody. run. rewrite Hmap. reflexivity.
  - intros useGroupFilters groupPrefixFilter. unfold getCollectionVariableList. run.
    destruct (variableListCacheMap st !! _); [reflexivity|]. rewrite Hfind. reflexivity.
  - apply findVariableCollectionByName_library in Hfind as (_ & locals & Hlocals & Hlib).
    unfold getAvailableCollectionNames. run. rewrite Hlocals. eexists. split; [reflexivity|].
    apply find_some in Hlib as [Hin Heq]. apply String.eqb_eq in Heq.
    rewrite <- Heq. apply addUnseenNames_covers.
    + intros k Hk. apply elem_of_list_to_set, list_elem_of_In, in_map_iff in Hk
        as (n & <- & Hn). eauto.
    + apply in_map_iff. eauto.
Qed.

(** C10, on a host that offers Primitive from a team library only. *)
Lemma library_collection_has_no_entries_witness :
  findVariableCollectionByName Examples.libraryOnlyHost "Primitive" initialState
    = (Normal (Some (LibrarySource (mkLibraryCollection "Primitive" "key-1"))), initialState) /\
  (forall options,
     getCollectionColorMap Examples.libraryOnlyHost "Primitive" Light options initialState
       = (Normal ∅, initialState)) /\
  (forall useGroupFilters,
     runScan Examples.libraryOnlyHost "Primitive" Light useGroupFilters initialState
       = (Normal (mkScanResult [] [] [] 0
                    (Some (emptyCatalogError "Primitive" useGroupFilters))), initialState)) /\
  (forall useGroupFilters groupPrefixFilter,
     getCollectionVariableList Examples.libraryOnlyHost "Primitive" Light useGroupFilters
       groupPrefixFilter initialState
       = (Normal (default []
                    (variableListCacheMap initialState
                       !! variableListCacheKey "Primitive" Light useGroupFilters
                            groupPrefixFilter)), initialState)) /\
  (exists names,
     getAvailableCollectionNames Examples.libraryOnlyHost initialState
       = (Normal names, initialState) /\
     exists n, In n names /\ normalized n = normalized "Primitive").
Proof.
  split; [reflexivity|].
  apply (library_collection_has_no_entries Examples.libraryOnlyHost "Primitive" Light
           (mkLibraryCollection "Primitive" "key-1") initialState).
  reflexivity.
Defined.

(** C10, the claim as stated fails: a candidate query fills the list cache
    while Primitive is a local collection; once the name resolves to a
    library collection only, the same query is still answered with the
    cached entry. *)
Lemma library_collection_served_from_cache :
  let st1 := snd (getCollectionVariableList Examples.primitiveHost "Primitive" Light
                    false None initialState) in
  findVariableCollectionByName Examples.libraryOnlyHost "Primitive" st1
    = (Normal (Some (LibrarySource (mkLibraryCollection "Primitive" "key-1"))), st1) /\
  fst (getCollectionVariableList Examples.libraryOnlyHost "Primitive" Light false None st1)
    = Normal [mkListEntry "VariableID:1:1" "blue/500" 0 0 1].
Proof. split; vm_compute; reflexivity. Qed.

(** ** Scanning *)

(** C9: [runScan] always completes with a result.  When the catalog lookup
    raises, or the page cannot be read, the result has no items and carries
    the message; when the exact map is empty, the result has no items and
    the empty-catalog message. *)
Theorem runScan_never_raises (figma : Figma) (collectionName : string) (mode : ModeName)
    (useGroupFilters : option bool) (st : State) :
  exists result st',
    runScan figma collectionName mode useGroupFilters st = (Normal result, st') /\
    match getCollectionColorMap figma collectionName mode
            (mkOptions (Some (default false useGroupFilters)) None) st with
    | (Throw e, st1) => result = mkScanResult [] [] [] 0 (Some e) /\ st' = st1
    | (Normal colorMap, st1) =>
        st' = st1 /\
        if (size colorMap =? 0)%nat
        then result = mkScanResult [] [] [] 0
                        (Some (emptyCatalogError collectionName useGroupFilters))
        else
          match currentPage figma with
          | Throw e => result = mkScanResult [] [] [] 0 (Some e)
          | Normal _ => error result = None /\ totalScanned result = length (items result)
          end
    end.
Proof.
  unfold runScan, runScanBody. run.
  destruct (getCollectionColorMap _ _ _ _ st) as [[colorMap|e] st1];
    [|do 2 eexists; split; [reflexivity | split; reflexivity]].
  destruct (size colorMap =? 0)%nat;
    [do 2 eexists; split; [reflexivity | split; reflexivity]|].
  destruct (currentPage figma) as [current|e];
    [|do 2 eexists; split; [reflexivity | split; reflexivity]].
  destruct (fold_left noteItem _ _) as [matched noMatch].
  do 2 eexists. split; [reflexivity|]. repeat split.
Qed.

(** Both failures happen: a host whose collections cannot be read, and one
    whose page cannot. *)
Example runScan_catalog_failure :
  fst (runScan Examples.unreadableHost "Primitive" Light None initialState)
    = Normal (mkScanResult [] [] [] 0 (Some "variables unavailable")).
Proof. vm_compute. reflexivity. Qed.

Example runScan_traversal_failure :
  fst (runScan Examples.pagelessHost "Primitive" Light None initialState)
    = Normal (mkScanResult [] [] [] 0 (Some "page not loaded")).
Proof. vm_compute. reflexivity. Qed.

(** ** Binding *)

Section Tally.

Lemma record_counts o result :
  (appliedCount (record o result) + skippedCount (record o result)
     + failedCount (record o result))%nat
  = S (appliedCount result + skippedCount result + failedCount result)%nat.
Proof. destruct o; simpl; lia. Qed.

Lemma fold_record_counts os : forall result,
  let final := fold_left (fun result o => record o result) os result in
  (appliedCount final + skippedCount final + failedCount final)%nat
  = (appliedCount result + skippedCount result + failedCount result + length os)%nat.
Proof.
  induction os as [|o os IH]; intros result; simpl; [lia|].
  rewrite IH, record_counts. lia.
Qed.

Lemma fold_record_reasons os : forall result,
  length (failedReasons result) = failedCount result ->
  let final := fold_left (fun result o => record o result) os result in
  length (failedReasons final) = failedCount final.
Proof.
  induction os as [|o os IH]; intros result H; simpl; [exact H|].
  apply IH. destruct o; simpl; [exact H | exact H |].
  rewrite length_app. simpl. lia.
Qed.

Lemma fold_record_failures os : forall items result,
  length os = length items ->
  failedReasons (fold_left (fun result o => record o result) os result)
  = failedReasons result ++ map snd (failures items os).
Proof.
  induction os as [|o os IH]; intros [|item items] result H; try discriminate H; simpl.
  - rewrite app_nil_r. reflexivity.
  - injection H as H. rewrite (IH items) by exact H.
    destruct o; simpl; try reflexivity. rewrite <- app_assoc. reflexivity.
Qed.

End Tally.

Lemma append_cons c s t : String c s +:+ t = String c (s +:+ t).
Proof. reflexivity. Qed.

Lemma append_assoc s t u : (s +:+ t) +:+ u = s +:+ (t +:+ u).
Proof.
  induction s as [|c s IH]; [reflexivity|]. rewrite !append_cons, IH. reflexivity.
Qed.

Lemma prefix_append p rest : String.prefix p (p +:+ rest) = true.
Proof.
  induction p as [|c p IH].
  - destruct rest; reflexivity.
  - rewrite append_cons. cbn [String.prefix].
    destruct (ascii_dec c c) as [_|N]; [exact IH | contradiction].
Qed.

Lemma startsWith_bracket name rest :
  startsWith ("[" +:+ name +:+ String "]" rest) ("[" +:+ name +:+ "]") = true.
Proof.
  unfold startsWith.
  replace ("[" +:+ name +:+ String "]" rest) with (("[" +:+ name +:+ "]") +:+ rest).
  - apply prefix_append.
  - rewrite !append_assoc. reflexivity.
Qed.

Section Loops.
Variable figma : Figma.

(** The loop body of [applyBindingsToItems] records one outcome. *)
Lemma bindItem_record doc result item :
  isMatched item = true ->
  bindItem figma (doc, result) item
  = (fst (bindItem figma (doc, emptyResult) item),
     record (outcomeOf (snd (bindItem figma (doc, emptyResult) item))) result).
Proof.
  unfold isMatched, bindItem. intros H.
  destruct (matchVariableId item); [|discriminate H].
  repeat match goal with
         | |- context [match ?x with _ => _ end] => destruct x
         end; reflexivity.
Qed.

Lemma bindItem_names_owner doc item reason :
  outcomeOf (snd (bindItem figma (doc, emptyResult) item)) = Failed reason ->
  namesOwner (item, reason).
Proof.
  unfold bindItem, namesOwner. cbn [fst snd].
  repeat match goal with
         | |- context [match ?x with _ => _ end] => destruct x
         end; cbn; intros H; try discriminate H;
    injection H as <-; apply startsWith_bracket.
Qed.



(** A loop whose body records one outcome per item isolates failures. *)
Lemma loop_isolated body items :
  (forall doc result item, In item items ->
     body (doc, result) item
     = (fst (body (doc, emptyResult) item),
        record (outcomeOf (snd (body (doc, emptyResult) item))) result)) ->
  (forall doc item reason, In item items ->
     outcomeOf (snd (body (doc, emptyResult) item)) = Failed reason ->
     namesOwner (item, reason)) ->
  forall doc,
    failuresIsolated items (outcomes body doc items)
                     (snd (fold_left body items (doc, emptyResult))).
Proof.
  intros Hrecord Hnames doc.
  assert (Hlen : forall its d, length (outcomes body d its) = length its).
  { intros its. induction its as [|it its IH]; intros d; simpl; [reflexivity|].
    destruct (body (d, emptyResult) it). simpl. rewrite IH. reflexivity. }
  assert (Hfold : forall d result,
             snd (fold_left body items (d, result))
             = fold_left (fun result o => record o result) (outcomes body d items) result).
  { clear Hnames doc. induction items as [|item items IH]; intros d result;
      simpl; [reflexivity|].
    rewrite Hrecord by (left; reflexivity).
    destruct (body (d, emptyResult) item) as [d' r]. cbn [fst snd fold_left].
    apply IH. intros. apply Hrecord. right. assumption. }
  assert (Hown : forall d, Forall namesOwner (failures items (outcomes body d items))).
  { clear Hrecord Hfold doc. induction items as [|item items IH]; intros d; simpl;
      [constructor|].
    pose proof (Hnames d item) as Hn.
    destruct (body (d, emptyResult) item) as [d' r]. cbn [snd] in Hn.
    assert (IH' : Forall namesOwner (failures items (outcomes body d' items)))
      by (apply IH; intros; eapply Hnames; [right|]; eassumption).
    destruct (outcomeOf r); try exact IH'.
    constructor; [apply Hn; [left|]; reflexivity | exact IH']. }
  unfold failuresIsolated. rewrite Hfold. fold (tally (outcomes body doc items)).
  split; [reflexivity|]. split; [apply Hlen|].
  unfold tally. split; [|split; [|split]].
  - rewrite fold_record_counts, Hlen. reflexivity.
  - apply fold_record_reasons. reflexivity.
  - rewrite (fold_record_failures _ items) by apply Hlen. reflexivity.
  - apply Hown.
Qed.





End Loops.

Section Awaited.
Variable rejects : ScanItem -> option string.
Variable body : gmap string SceneNode * ApplyResult -> ScanItem
                -> gmap string SceneNode * ApplyResult.

(** With no lookup that rejects the loop is the plain one. *)
Lemma forAwait_settled items : forall st,
  Forall (fun item => rejects item = None) items ->
  forAwait rejects body items st
  = (fst (fold_left body items st), Normal (snd (fold_left body items st))).
Proof.
  induction items as [|item items IH]; intros st H; [reflexivity|].
  apply Forall_cons_1 in H as [Hitem H]. cbn [forAwait fold_left].
  rewrite Hitem. apply IH, H.
Qed.

Lemma forAwait_outcome items : forall st,
  match forAwait rejects body items st with
  | (doc', Normal result) =>
      Forall (fun item => rejects item = None) items /\
      (doc', result) = fold_left body items st
  | (doc', Throw e) =>
      exists before item after,
        items = before ++ item :: after /\
        Forall (fun item => rejects item = None) before /\
        rejects item = Some e /\
        doc' = fst (fold_left body before st)
  end.
Proof.
  induction items as [|item items IH]; intros st.
  - cbn. split; [constructor | destruct st; reflexivity].
  - cbn [forAwait]. destruct (rejects item) as [e|] eqn:Hitem.
    + exists [], item, items. repeat split; [constructor | exact Hitem].
    + specialize (IH (body st item)).
      destruct (forAwait rejects body items (body st item)) as [doc' [result|e]].
      * destruct IH as [H E]. split; [constructor; assumption | exact E].
      * destruct IH as (before & it & after & -> & H & Hit & E).
        exists (item :: before), it, after.
        repeat split; [constructor; assumption | exact Hit | exact E].
Qed.

Lemma forAwait_settlesOrAborts items doc :
  settlesOrAborts rejects body items doc (forAwait rejects body items (doc, emptyResult)).
Proof. apply forAwait_outcome. Qed.

End Awaited.

(** The two functions when none of their lookups rejects. *)
Lemma applyBindingsToItemsAsync_settled figma doc items :
  Forall (fun item => bindItem_rejects figma item = None) (List.filter isMatched items) ->
  applyBindingsToItemsAsync figma doc items
  = (fst (applyBindingsToItems figma doc items),
     Normal (snd (applyBindingsToItems figma doc items))).
Proof. intros H. apply forAwait_settled, H. Qed.

Lemma applyTokenToColorAsync_settled figma lastScanItems doc hex variableId :
  getVariableByIdAsync_rejects figma variableId = None ->
  Forall (fun item => bindChosen_rejects figma item = None) (itemsToBind lastScanItems hex) ->
  applyTokenToColorAsync figma lastScanItems doc hex variableId
  = (fst (applyTokenToColor figma lastScanItems doc hex variableId),
     Normal (snd (applyTokenToColor figma lastScanItems doc hex variableId))).
Proof.
  intros Hvar H. unfold applyTokenToColorAsync, applyTokenToColor.
  destruct (itemsToBind lastScanItems hex) as [|item targets]; [reflexivity|].
  rewrite Hvar. destruct (getVariableByIdAsync figma variableId); [|reflexivity].
  apply forAwait_settled, H.
Qed.

Lemma bindItem_isolated figma doc items :
  failuresIsolated (List.filter isMatched items)
                   (outcomes (bindItem figma) doc (List.filter isMatched items))
                   (snd (fold_left (bindItem figma) (List.filter isMatched items)
                                   (doc, emptyResult))).
Proof.
  apply loop_isolated.
  - intros d result item Hin. apply bindItem_record.
    apply filter_In in Hin as [_ H]. exact H.
  - intros d item reason _. apply bindItem_names_owner.
Qed.




(** The failures C2 lists, on one run of [applyBindingsToItems] each: a
    node and a variable that do not resolve, with the third item bound all
    the same; and a binding that raises, with the next item still tried. *)
Example isolated_failures :
  snd (applyBindingsToItems Examples.primitiveHost {[ "1:2" := Examples.rectangle None ]}
         [Examples.redItem "1:3" (Some "VariableID:1:1");
          Examples.redItem "1:2" (Some "VariableID:1:9");
          Examples.redItem "1:2" (Some "VariableID:1:1")])
  = mkApplyResult 1 0 2
      ["[Rectangle 1] 노드를 찾을 수 없음: 1:3";
       "[Rectangle 1] 변수를 찾을 수 없음: VariableID:1:9"] /\
  snd (applyBindingsToItems Examples.lockedHost {[ "1:2" := Examples.rectangle None ]}
         [Examples.redItem "1:2" (Some "VariableID:1:1");
          Examples.redItem "1:3" (Some "VariableID:1:1")])
  = mkApplyResult 0 0 2
      ["[Rectangle 1] fills[0]: node is locked";
       "[Rectangle 1] 노드를 찾을 수 없음: 1:3"].
Proof. split; vm_compute; reflexivity. Qed.

(** The same failures when lookups may reject: on a host where the lookup
    of the node 1:3 rejects, the variable that does not resolve is recorded
    and the next item is bound; the item of the node 1:3 ends the pass, and
    the paint bound before it stays bound. *)
Example rejected_lookup_aborts :
  let doc : gmap string SceneNode := {[ "1:2" := Examples.rectangle None ]} in
  snd (applyBindingsToItemsAsync Examples.unloadedHost doc
         [Examples.redItem "1:2" (Some "VariableID:1:9");
          Examples.redItem "1:2" (Some "VariableID:1:1")])
  = Normal (mkApplyResult 1 0 1 ["[Rectangle 1] 변수를 찾을 수 없음: VariableID:1:9"]) /\
  applyBindingsToItemsAsync Examples.unloadedHost doc
    [Examples.redItem "1:2" (Some "VariableID:1:1");
     Examples.redItem "1:3" (Some "VariableID:1:1");
     Examples.redItem "1:2" (Some "VariableID:1:1")]
  = ({[ "1:2" := Examples.rectangle (Some "VariableID:1:1") ]},
     Throw "node 1:3 is not loaded").
Proof. cbv zeta. split; vm_compute; reflexivity. Qed.

Section Rebinding.
Variable figma : Figma.

(** The document a loop body leaves does not depend on the result so far. *)
Lemma bindItem_document doc result item :
  fst (bindItem figma (doc, result) item) = fst (bindItem figma (doc, emptyResult) item).
Proof.
  unfold bindItem.
  repeat match goal with
         | |- context [match ?x with _ => _ end] => destruct x
         end; reflexivity.
Qed.

(** [applyBindingsToItems] re-verifies the slot: an item whose variable and
    node resolve is skipped, and the document kept, unless its slot
    exists, holds a solid paint and is unbound; only then is the binding
    attempted. *)
Lemma bindItem_reverifies doc result item id variable node :
  matchVariableId item = Some id ->
  getVariableByIdAsync figma id = Some variable ->
  doc !! nodeId item = Some node ->
  match paintsOf node (property item) with
  | Paints paints =>
      match boundAt node (property item) (index item), paints !! index item with
      | None, Some (SOLID color opacity bound) =>
          exists reason,
          bindItem figma (doc, result) item
          = match bindPaint figma node (property item) (index item) paints
                            (SOLID color opacity bound) variable with
            | Normal node' => (<[nodeId item := node']> doc, applied result)
            | Throw e => (doc, failed result (reason e))
            end
      | _, _ => bindItem figma (doc, result) item = (doc, skipped result)
      end
  | _ => bindItem figma (doc, result) item = (doc, skipped result)
  end.
Proof.
  intros Hid Hvar Hnode. unfold bindItem. rewrite Hid, Hvar, Hnode.
  destruct (paintsOf node (property item)) as [| |paints]; try reflexivity.
  destruct (boundAt node (property item) (index item)); [reflexivity|].
  destruct (paints !! index item) as [[color opacity bound|]|]; try reflexivity.
  eexists (fun e => _). destruct (bindPaint _ _ _ _ _ _ _); reflexivity.
Qed.

Lemma assignPaints_paints node property paints node' :
  assignPaints figma node property paints = Normal node' ->
  paintsOf node' property = Paints paints /\
  (forall i, boundAt node' property i = mjoin (paintBound <$> paints !! i)) /\
  (forall other i, other <> property ->
     paintsOf node' other = paintsOf node other /\
     (is_Some (boundAt node other i) -> boundAt node' other i = boundAt node other i)).
Proof.
  unfold assignPaints. destruct (setPaints_raises figma node property paints); [discriminate|].
  intros H. injection H as <-. unfold boundAt.
  destruct property; cbn; (split; [reflexivity|]); split.
  - intros i. rewrite list_lookup_fmap. destruct (paints !! i); reflexivity.
  - intros [] i Hne; [contradiction|]. split; [reflexivity|].
    destruct (boundVariables node); [reflexivity | intros [? ?]; discriminate].
  - intros i. rewrite list_lookup_fmap. destruct (paints !! i); reflexivity.
  - intros [] i Hne; [|contradiction]. split; [reflexivity|].
    destruct (boundVariables node); [reflexivity | intros [? ?]; discriminate].
Qed.

(** What a successful binding is. *)
Lemma bindItem_applied doc item :
  outcomeOf (snd (bindItem figma (doc, emptyResult) item)) = Applied ->
  exists id variable node paints color opacity bound node',
    matchVariableId item = Some id /\
    getVariableByIdAsync figma id = Some variable /\
    doc !! nodeId item = Some node /\
    paintsOf node (property item) = Paints paints /\
    boundAt node (property item) (index item) = None /\
    paints !! index item = Some (SOLID color opacity bound) /\
    assignPaints figma node (property item)
      (<[index item := SOLID color opacity (Some (var_id variable))]> paints) = Normal node' /\
    fst (bindItem figma (doc, emptyResult) item) = <[nodeId item := node']> doc.
Proof.
  unfold bindItem.
  destruct (matchVariableId item) as [id|] eqn:Hid; [|discriminate].
  destruct (getVariableByIdAsync figma id) as [variable|] eqn:Hvar; [|discriminate].
  destruct (doc !! nodeId item) as [node|] eqn:Hnode; [|discriminate].
  destruct (paintsOf node (property item)) as [| |paints] eqn:Hpaints; try discriminate.
  destruct (boundAt node (property item) (index item)) eqn:Hbound; [discriminate|].
  destruct (paints !! index item) as [[color opacity bound|]|] eqn:Hslot; try discriminate.
  unfold bindPaint, setBoundVariableForPaint.
  destruct (setBoundVariableForPaint_raises figma _ variable); [discriminate|].
  destruct (assignPaints figma node (property item) _) as [node'|e] eqn:Hassign;
    [|discriminate].
  intros _. cbn [fst]. do 8 eexists. repeat split; eassumption || reflexivity.
Qed.

Lemma bindItem_applied_held doc item :
  outcomeOf (snd (bindItem figma (doc, emptyResult) item)) = Applied ->
  held (fst (bindItem figma (doc, emptyResult) item)) item /\ resolves figma item.
Proof.
  intros H. apply bindItem_applied in H
    as (id & variable & node & paints & color & opacity & bound & node'
        & Hid & Hvar & Hnode & Hpaints & Hbound & Hslot & Hassign & ->).
  split; [|exists id, variable; auto].
  apply assignPaints_paints in Hassign as (Hpaints' & Hbound' & _).
  assert (Hnew : <[index item := SOLID color opacity (Some (var_id variable))]> paints
                 !! index item = Some (SOLID color opacity (Some (var_id variable))))
    by (apply list_lookup_insert_eq; eapply lookup_lt_Some; eassumption).
  exists node', (<[index item := SOLID color opacity (Some (var_id variable))]> paints),
         (SOLID color opacity (Some (var_id variable))).
  rewrite lookup_insert_eq, Hbound', Hnew. cbn. eauto.
Qed.

(** A bound slot stays bound whatever item is processed next. *)
Lemma bindItem_keeps_held doc result item it :
  held doc it -> held (fst (bindItem figma (doc, result) item)) it.
Proof.
  intros Hheld. rewrite bindItem_document.
  destruct (outcomeOf (snd (bindItem figma (doc, emptyResult) item))) eqn:Ho.
  2,3: replace (fst (bindItem figma (doc, emptyResult) item)) with doc; [exact Hheld|];
    revert Ho; unfold bindItem, bindPaint;
    repeat match goal with
           | |- context [match ?x with _ => _ end] => destruct x
           end; cbn; intros Ho; try discriminate Ho; reflexivity.
  apply bindItem_applied in Ho
    as (id & variable & node & paints & color & opacity & bound & node'
        & Hid & Hvar & Hnode & Hpaints & Hbound & Hslot & Hassign & ->).
  destruct Hheld as (n & ps & p & Hn & Hps & Hp & Hpb & Hb). unfold held.
  destruct (decide (nodeId item = nodeId it)) as [Heq|Hne].
  - rewrite <- Heq in Hn. rewrite Hnode in Hn. injection Hn as <-.
    apply assignPaints_paints in Hassign as (Hpaints' & Hbound' & Hother).
    destruct (decide (property item = property it)) as [Hprop|Hprop].
    + rewrite <- Hprop in *. rewrite Hpaints in Hps. injection Hps as <-.
      assert (Hi : index item <> index it)
        by (intros E; rewrite E in Hbound; rewrite Hbound in Hb; destruct Hb as [? ?]; discriminate).
      exists node', (<[index item := SOLID color opacity (Some (var_id variable))]> paints), p.
      split; [rewrite <- Heq; apply lookup_insert_eq|].
      split; [exact Hpaints'|].
      split; [rewrite list_lookup_insert_ne by exact Hi; exact Hp|].
      split; [exact Hpb|].
      rewrite Hbound', list_lookup_insert_ne by exact Hi. rewrite Hp. exact Hpb.
    + destruct (Hother (property it) (index it)) as [Hsame Hkeep]; [congruence|].
      exists node', ps, p.
      split; [rewrite <- Heq; apply lookup_insert_eq|].
      split; [rewrite Hsame; exact Hps|].
      split; [exact Hp|]. split; [exact Hpb|].
      rewrite Hkeep by exact Hb. exact Hb.
  - exists n, ps, p. rewrite lookup_insert_ne by exact Hne. auto.
Qed.

Lemma fold_keeps_held items it : forall doc result,
  held doc it -> held (fst (fold_left (bindItem figma) items (doc, result))) it.
Proof.
  induction items as [|item items IH]; intros doc result H; cbn [fold_left]; [exact H|].
  destruct (bindItem figma (doc, result) item) as [doc' result'] eqn:E.
  apply IH. replace doc' with (fst (bindItem figma (doc, result) item)) by (rewrite E; reflexivity).
  apply bindItem_keeps_held, H.
Qed.

(** An item whose slot is bound is skipped. *)
Lemma bindItem_held_skipped doc result item :
  held doc item -> resolves figma item ->
  bindItem figma (doc, result) item = (doc, skipped result).
Proof.
  intros (node & paints & paint & Hnode & Hpaints & _ & _ & alias & Hbound)
         (id & variable & Hid & Hvar).
  unfold bindItem. rewrite Hid, Hvar, Hnode, Hpaints, Hbound. reflexivity.
Qed.

(** After a pass, the slot of every applied item is bound. *)
Lemma applied_items_held items : forall doc result,
  Forall (fun item => isMatched item = true) items ->
  Forall2 (fun item o =>
             o = Applied ->
             held (fst (fold_left (bindItem figma) items (doc, result))) item
             /\ resolves figma item)
          items (outcomes (bindItem figma) doc items).
Proof.
  induction items as [|item items IH]; intros doc result Hm; cbn [fold_left outcomes];
    [constructor|].
  apply Forall_cons_iff in Hm as [Hitem Hm].
  rewrite (bindItem_record figma doc result item Hitem).
  pose proof (bindItem_applied_held doc item) as Happlied.
  destruct (bindItem figma (doc, emptyResult) item) as [doc' r]. cbn [fst snd] in *.
  constructor; [|apply IH, Hm].
  intros Ho. destruct (Happlied Ho) as [Hheld Hres]. split; [|exact Hres].
  apply fold_keeps_held, Hheld.
Qed.

(** In a document where the slots of the applied items are bound, a pass
    skips those items. *)
Lemma held_items_skipped items : forall first doc,
  Forall2 (fun item o => o = Applied -> held doc item /\ resolves figma item) items first ->
  Forall2 (fun o1 o2 => o1 = Applied -> o2 = Skipped)
          first (outcomes (bindItem figma) doc items).
Proof.
  induction items as [|item items IH]; intros first doc H.
  - apply Forall2_nil_inv_l in H as ->. constructor.
  - apply Forall2_cons_inv_l in H as (o & first' & Ho & H & ->). cbn [outcomes].
    destruct (bindItem figma (doc, emptyResult) item) as [doc' r] eqn:E.
    constructor.
    + intros ->. destruct (Ho eq_refl) as [Hheld Hres].
      rewrite (bindItem_held_skipped doc emptyResult item Hheld Hres) in E.
      injection E as <- <-. reflexivity.
    + apply IH. eapply Forall2_impl; [exact H|].
      intros it o' Hit Happ. destruct (Hit Happ) as [Hheld Hres]. split; [|exact Hres].
      replace doc' with (fst (bindItem figma (doc, emptyResult) item))
        by (rewrite E; reflexivity).
      apply bindItem_keeps_held, Hheld.
Qed.

End Rebinding.

(** C4: the second [applyBindingsToItems] over the same items, on the
    document the first one left, records Skipped for every item the first
    one recorded Applied for; the results of both are the tallies of these
    outcomes. *)
Theorem second_apply_skips (figma : Figma) (doc : gmap string SceneNode)
    (items : list ScanItem) :
  let toApply := List.filter isMatched items in
  let first := applyBindingsToItems figma doc items in
  let second := applyBindingsToItems figma (fst first) items in
  snd first = tally (outcomes (bindItem figma) doc toApply) /\
  snd second = tally (outcomes (bindItem figma) (fst first) toApply) /\
  Forall2 (fun o1 o2 => o1 = Applied -> o2 = Skipped)
          (outcomes (bindItem figma) doc toApply)
          (outcomes (bindItem figma) (fst first) toApply).
Proof.
  intros toApply first second.
  assert (Hm : Forall (fun item => isMatched item = true) toApply).
  { apply List.Forall_forall. intros item Hin. apply filter_In in Hin as [_ H]. exact H. }
  assert (Htally : forall d, snd (applyBindingsToItems figma d items)
                             = tally (outcomes (bindItem figma) d toApply)).
  { intros d. unfold applyBindingsToItems. apply loop_isolated.
    - intros d' result item Hin. apply bindItem_record.
      apply filter_In in Hin as [_ H]. exact H.
    - intros d' item reason _. apply bindItem_names_owner. }
  split; [apply Htally|]. split; [apply Htally|].
  apply held_items_skipped. unfold first, applyBindingsToItems.
  apply applied_items_held, Hm.
Qed.

(** The two passes of C4 on a rectangle with one unbound red fill. *)
Example two_passes :
  let doc : gmap string SceneNode := {[ "1:2" := Examples.rectangle None ]} in
  let items := [Examples.redItem "1:2" (Some "VariableID:1:1")] in
  let first := applyBindingsToItems Examples.primitiveHost doc items in
  snd first = mkApplyResult 1 0 0 [] /\
  snd (applyBindingsToItems Examples.primitiveHost (fst first) items) = mkApplyResult 0 1 0 [].
Proof. split; vm_compute; reflexivity. Qed.

(** C3: [applyTokenToColor] does not look at the binding of the slot.  The
    rectangle's fill is bound to another variable; [applyBindingsToItems]
    skips it and keeps the document, [applyTokenToColor] binds it anew and
    reports it applied. *)
Theorem applyTokenToColor_rebinds_bound_slot :
  let doc : gmap string SceneNode := {[ "1:2" := Examples.rectangle (Some "VariableID:9:9") ]} in
  boundAt (Examples.rectangle (Some "VariableID:9:9")) fills 0 = Some "VariableID:9:9" /\
  applyBindingsToItems Examples.primitiveHost doc
    [Examples.redItem "1:2" (Some "VariableID:1:1")]
    = (doc, mkApplyResult 0 1 0 []) /\
  applyTokenToColor Examples.primitiveHost [Examples.redItem "1:2" None] doc
    "ff0000" "VariableID:1:1"
    = ({[ "1:2" := Examples.rectangle (Some "VariableID:1:1") ]}, mkApplyResult 1 0 0 []).
Proof. repeat split; vm_compute; reflexivity. Qed.

(** ** Candidate queries *)

(** A hex the parser rejects is answered with an empty list and the error
    Invalid HEX; nothing is raised. *)
Lemma getCandidatesForHex_invalid (localeCompare : string -> string -> Z) (figma : Figma)
    (hex collectionName : string) (mode : ModeName) (useGroupFilters : bool) (st : State) :
  parseHexToRgb (trim (stripLeadingHash hex)) = None ->
  onmessage localeCompare figma
    (MsgGetCandidatesForHex hex collectionName mode useGroupFilters) st
  = (Normal tt,
     mkState (sent st ++ [candidatesResult (trim (stripLeadingHash hex)) [] (Some "Invalid HEX")])
             (variableListCacheMap st) (lastScanItems st) (document st)).
Proof. intros H. unfold onmessage. run. rewrite H. reflexivity. Qed.

(** The command always completes: what the lookup raises is answered as an
    error with an empty list. *)
Lemma getCandidatesForHex_completes (localeCompare : string -> string -> Z) (figma : Figma)
    (hex collectionName : string) (mode : ModeName) (useGroupFilters : bool) (st : State) :
  exists st',
    onmessage localeCompare figma
      (MsgGetCandidatesForHex hex collectionName mode useGroupFilters) st = (Normal tt, st').
Proof.
  unfold onmessage. run.
  destruct (parseHexToRgb _); [|eexists; reflexivity].
  destruct (getCollectionVariableList _ _ _ _ _ st) as [[entries|e] st1]; eexists; reflexivity.
Qed.

(** C8: 12345g is not six hexadecimal digits, yet [parseInt] reads the five
    digits before the g: [parseHexToRgb] returns the color 012345, and the
    command answers with the ranked candidates and no error. *)
Theorem parseHexToRgb_accepts_trailing_garbage :
  allChars isHexDigit "12345g" = false /\
  parseInt16 "12345g" = Some 74565 /\
  parseHexToRgb "12345g"
    = Some (mkRGB (PrimFloat.div 1 255) (PrimFloat.div 35 255) (PrimFloat.div 69 255)) /\
  hexRoundTrip "12345g" = Some "012345" /\
  sent (snd (onmessage compareCodeUnits Examples.primitiveHost
               (MsgGetCandidatesForHex "12345g" "Primitive" Light false) initialState))
    = [candidatesResult "12345g" [mkCandidate "VariableID:1:1" "blue/500" "0000ff"] None].
Proof. repeat split; vm_compute; reflexivity. Qed.

(** * Further properties of the code *)

(** ** Collection lookup (src/variableCollectionUtils.ts) *)

Lemma length_zero_iff (s : string) : (String.length s =? 0)%nat = true <-> s = "".
Proof. destruct s; cbn; split; intros H; congruence. Qed.

Lemma find_normalized_some {A} (nameOf : A -> string) key l c :
  find (fun c => String.eqb (toLowerCase (trim (nameOf c))) key) l = Some c ->
  In c l /\ normalized (nameOf c) = key.
Proof. intros H. apply find_some in H as [Hin E]. apply String.eqb_eq in E. auto. Qed.

Lemma find_normalized_none {A} (nameOf : A -> string) key l :
  find (fun c => String.eqb (toLowerCase (trim (nameOf c))) key) l = None <->
  forall c, In c l -> normalized (nameOf c) <> key.
Proof.
  split.
  - intros H c Hin E. apply (find_none _ _ H) in Hin.
    apply String.eqb_neq in Hin. contradiction.
  - intros H. destruct (find _ l) as [c|] eqn:E; [|reflexivity].
    apply find_normalized_some in E as [Hin E]. destruct (H c Hin E).
Qed.

(** X1: the lookup answers with a collection, answers null or raises, and
    what it posts goes with the answer.  A collection is returned without
    any message: a local one whose name, trimmed and lower-cased, is the
    query's, or a library one when no local collection has that name.  Null
    is returned together with exactly one not-found message: with empty
    name lists when the query is blank, with the names of all collections
    when none of them has the name.  The lookup raises only when the local
    collections cannot be read, never because of the team library. *)
Theorem findVariableCollectionByName_outcome (figma : Figma) (name : string) (st : State) :
  match findVariableCollectionByName figma name st with
  | (Normal (Some (LocalSource c)), st') =>
      st' = st /\ normalized name <> "" /\
      exists locals,
        getLocalVariableCollectionsAsync figma = Normal locals /\
        In c locals /\ normalized (coll_name c) = normalized name
  | (Normal (Some (LibrarySource l)), st') =>
      st' = st /\ normalized name <> "" /\
      exists locals,
        getLocalVariableCollectionsAsync figma = Normal locals /\
        (forall c, In c locals -> normalized (coll_name c) <> normalized name) /\
        In l (getLibraryVariableCollectionsSafe figma) /\
        normalized (lib_name l) = normalized name
  | (Normal None, st') =>
      exists error localNames libraryNames,
        st' = mkState (sent st ++ [variableCollectionNotFound error localNames libraryNames])
                      (variableListCacheMap st) (lastScanItems st) (document st) /\
        ((normalized name = "" /\ localNames = [] /\ libraryNames = []) \/
         (normalized name <> "" /\
          exists locals,
            getLocalVariableCollectionsAsync figma = Normal locals /\
            localNames = map coll_name locals /\
            libraryNames = map lib_name (getLibraryVariableCollectionsSafe figma) /\
            (forall n, In n (localNames ++ libraryNames) -> normalized n <> normalized name)))
  | (Throw e, st') =>
      st' = st /\ normalized name <> "" /\ getLocalVariableCollectionsAsync figma = Throw e
  end.
Proof.
  unfold findVariableCollectionByName. fold (normalized name). run.
  destruct (String.length (normalized name) =? 0)%nat eqn:Hblank.
  - apply length_zero_iff in Hblank. do 3 eexists. split; [reflexivity|]. left. auto.
  - assert (Hname : normalized name <> "").
    { intros E. apply length_zero_iff in E. congruence. }
    destruct (getLocalVariableCollectionsAsync figma) as [locals|e]; [|auto].
    destruct (find _ locals) as [c|] eqn:Elocal.
    + apply find_normalized_some in Elocal as [Hin E]. eauto 6.
    + pose proof (proj1 (find_normalized_none _ _ _) Elocal) as Hlocal.
      destruct (find _ (getLibraryVariableCollectionsSafe figma)) as [l|] eqn:Elib.
      * apply find_normalized_some in Elib as [Hin E]. eauto 8.
      * pose proof (proj1 (find_normalized_none _ _ _) Elib) as Hlib.
        do 3 eexists. split; [reflexivity|]. right. split; [exact Hname|].
        exists locals. repeat split.
        intros n Hn. apply in_app_or in Hn as [Hn|Hn]; apply in_map_iff in Hn as (c & <- & Hc);
          auto.
Qed.

(** X2: the answer of the lookup depends on the query only through its
    trimmed, lower-cased form, and not on the state: two spellings of one
    name get the same collection, the same null or the same failure. *)
Theorem findVariableCollectionByName_normalized (figma : Figma) (name1 name2 : string)
    (st1 st2 : State) :
  normalized name1 = normalized name2 ->
  fst (findVariableCollectionByName figma name1 st1)
  = fst (findVariableCollectionByName figma name2 st2).
Proof.
  intros E. unfold findVariableCollectionByName. fold (normalized name1) (normalized name2).
  rewrite E. run.
  destruct (String.length (normalized name2) =? 0)%nat; [reflexivity|].
  destruct (getLocalVariableCollectionsAsync figma) as [locals|e]; [|reflexivity].
  destruct (find _ locals); [reflexivity|].
  destruct (find _ (getLibraryVariableCollectionsSafe figma)); reflexivity.
Qed.

Lemma findVariableCollectionByName_normalized_witness :
  normalized "  PRIMITIVE " = normalized "Primitive" /\
  fst (findVariableCollectionByName Examples.primitiveHost "  PRIMITIVE " initialState)
  = fst (findVariableCollectionByName Examples.primitiveHost "Primitive" initialState).
Proof.
  split; [reflexivity|].
  apply (findVariableCollectionByName_normalized Examples.primitiveHost
           "  PRIMITIVE " "Primitive" initialState initialState).
  reflexivity.
Defined.

(** The names the loop of [getAvailableCollectionNames] adds. *)
Lemma addUnseenNames_merge libraryNames : forall (seen : gset string) localNames,
  exists added,
    addUnseenNames libraryNames seen localNames = localNames ++ added /\
    sublist added libraryNames /\
    NoDup (map normalized added) /\
    (forall n, In n added -> normalized n ∉ seen) /\
    (forall n, In n libraryNames ->
       normalized n ∈ seen \/ In (normalized n) (map normalized added)).
Proof.
  induction libraryNames as [|name rest IH]; intros seen localNames; simpl.
  - exists []. rewrite app_nil_r. split; [reflexivity|]. split; [apply sublist_nil|].
    split; [constructor|]. split; intros n [].
  - fold (normalized name). destruct (decide (normalized name ∈ seen)) as [Hin|Hout].
    + destruct (IH seen localNames) as (added & E & Hsub & Hnd & Hnew & Hcover).
      exists added. split; [exact E|]. split; [apply sublist_cons, Hsub|].
      split; [exact Hnd|]. split; [exact Hnew|].
      intros n [<-|Hn]; [left; exact Hin | apply Hcover, Hn].
    + destruct (IH ({[normalized name]} ∪ seen) (localNames ++ [name]))
        as (added & E & Hsub & Hnd & Hnew & Hcover).
      exists (name :: added). split; [rewrite E, <- app_assoc; reflexivity|].
      split; [apply sublist_skip, Hsub|]. split; [|split].
      * cbn [map]. constructor; [|exact Hnd].
        intros Hn. apply list_elem_of_In, in_map_iff in Hn as (n & En & Hn).
        apply (Hnew n Hn). rewrite En. set_solver.
      * intros n [<-|Hn]; [exact Hout|]. intros Hs. apply (Hnew n Hn). set_solver.
      * intros n [<-|Hn]; [right; left; reflexivity|].
        destruct (Hcover n Hn) as [Hs|Ha]; [|right; right; exact Ha].
        apply elem_of_union in Hs as [Hs|Hs]; [|left; exact Hs].
        apply elem_of_singleton in Hs. right. left. symmetry. exact Hs.
Qed.

Lemma seen_local_names (localNames : list string) (k : string) :
  k ∈ (list_to_set (map (fun n => toLowerCase (trim n)) localNames) : gset string) <->
  In k (map normalized localNames).
Proof. rewrite elem_of_list_to_set, list_elem_of_In. reflexivity. Qed.

(** X3: the list of collection names is the local names, all of them and
    in order, followed by library names: each added name is a library name,
    the added names keep the library's order, no two of them and none of
    them and a local name are the same once trimmed and lower-cased, and
    every library name is represented.  The call raises only when the local
    collections cannot be read, and changes nothing. *)
Theorem getAvailableCollectionNames_merge (figma : Figma) (st : State) :
  match getAvailableCollectionNames figma st with
  | (Normal names, st') =>
      st' = st /\
      exists locals added,
        getLocalVariableCollectionsAsync figma = Normal locals /\
        names = map coll_name locals ++ added /\
        sublist added (map lib_name (getLibraryVariableCollectionsSafe figma)) /\
        NoDup (map normalized added) /\
        (forall n, In n added -> ~ In (normalized n) (map normalized (map coll_name locals))) /\
        (forall n, In n (map lib_name (getLibraryVariableCollectionsSafe figma)) ->
           In (normalized n) (map normalized names))
  | (Throw e, st') => st' = st /\ getLocalVariableCollectionsAsync figma = Throw e
  end.
Proof.
  unfold getAvailableCollectionNames. run.
  destruct (getLocalVariableCollectionsAsync figma) as [locals|e]; [|auto].
  split; [reflexivity|].
  destruct (addUnseenNames_merge (map lib_name (getLibraryVariableCollectionsSafe figma))
              (list_to_set (map (fun n => toLowerCase (trim n)) (map coll_name locals)))
              (map coll_name locals))
    as (added & E & Hsub & Hnd & Hnew & Hcover).
  exists locals, added. rewrite E. repeat split; try assumption.
  - intros n Hn Hl. apply (Hnew n Hn). apply seen_local_names, Hl.
  - intros n Hn. rewrite map_app. apply in_or_app.
    destruct (Hcover n Hn) as [Hs|Ha]; [left; apply seen_local_names, Hs | right; exact Ha].
Qed.

(** X4: the names [getAvailableCollectionNames] lists are the names the
    lookup resolves: a query gets a collection exactly when it is not blank
    and its trimmed, lower-cased form is that of a listed name. *)
Theorem listed_names_resolve (figma : Figma) (st : State) (names : list string)
    (name : string) :
  fst (getAvailableCollectionNames figma st) = Normal names ->
  (exists source, findVariableCollectionByName figma name st = (Normal (Some source), st))
  <-> normalized name <> "" /\ In (normalized name) (map normalized names).
Proof.
  unfold getAvailableCollectionNames, findVariableCollectionByName.
  fold (normalized name). run.
  destruct (getLocalVariableCollectionsAsync figma) as [locals|e]; [|intros H; discriminate H].
  cbn [fst]. intros Hnames. injection Hnames as <-.
  destruct (addUnseenNames_merge (map lib_name (getLibraryVariableCollectionsSafe figma))
              (list_to_set (map (fun n => toLowerCase (trim n)) (map coll_name locals)))
              (map coll_name locals))
    as (added & -> & Hsub & _ & _ & Hcover).
  rewrite map_app, in_app_iff.
  destruct (String.length (normalized name) =? 0)%nat eqn:Hblank.
  { apply length_zero_iff in Hblank.
    split; [intros [source H]; discriminate H | intros [H _]; contradiction]. }
  assert (Hname : normalized name <> "").
  { intros E. apply length_zero_iff in E. congruence. }
  destruct (find _ locals) as [c|] eqn:Elocal.
  { apply find_normalized_some in Elocal as [Hin En].
    split; [intros _ | eauto]. split; [exact Hname|]. left. rewrite <- En.
    apply in_map, in_map, Hin. }
  pose proof (proj1 (find_normalized_none _ _ _) Elocal) as Hlocal.
  destruct (find _ (getLibraryVariableCollectionsSafe figma)) as [l|] eqn:Elib.
  { apply find_normalized_some in Elib as [Hin En].
    split; [intros _ | eauto]. split; [exact Hname|]. rewrite <- En.
    destruct (Hcover (lib_name l)) as [Hs|Ha]; [apply in_map, Hin | left | right; exact Ha].
    apply seen_local_names, Hs. }
  pose proof (proj1 (find_normalized_none _ _ _) Elib) as Hlib.
  split; [intros [source H]; discriminate H|]. intros [_ Hin]. exfalso.
  destruct Hin as [Hin|Hin]; apply in_map_iff in Hin as (n & En & Hn).
  - apply in_map_iff in Hn as (c & <- & Hc). exact (Hlocal c Hc En).
  - apply list_elem_of_In in Hn. apply (elem_of_sublist _ _ _ Hn) in Hsub.
    apply list_elem_of_In, in_map_iff in Hsub as (l & <- & Hl). exact (Hlib l Hl En).
Qed.

Lemma listed_names_resolve_witness :
  fst (getAvailableCollectionNames Examples.libraryOnlyHost initialState)
    = Normal ["Primitive"] /\
  ((exists source,
      findVariableCollectionByName Examples.libraryOnlyHost " primitive" initialState
      = (Normal (Some source), initialState))
   <-> normalized " primitive" <> "" /\ In (normalized " primitive") (map normalized ["Primitive"])).
Proof.
  split; [reflexivity|].
  apply (listed_names_resolve Examples.libraryOnlyHost initialState ["Primitive"] " primitive").
  reflexivity.
Defined.

(** ** The catalog index without group filters, modes and the list cache *)

Section PlainIndex.
Variables (figma : Figma) (modeId : string).

Lemma colorEntries_cons id ids :
  colorEntries figma modeId (id :: ids)
  = match colorEntry figma modeId id with
    | Some e => e :: colorEntries figma modeId ids
    | None => colorEntries figma modeId ids
    end.
Proof. unfold colorEntries. cbn [omap list_omap]. destruct (colorEntry _ _ _); reflexivity. Qed.

Lemma setEntry_colorEntry (colorMap : gmap string ColorMapEntry) id :
  setEntry figma modeId colorMap id
  = match colorEntry figma modeId id with
    | Some e => <[entryKey e := toEntry e]> colorMap
    | None => colorMap
    end.
Proof.
  unfold setEntry, colorEntry.
  destruct (getVariableByIdAsync figma id) as [v|]; [|reflexivity].
  destruct (resolvedType v); try reflexivity.
  destruct (valuesByMode v !! modeId) as [[c|]|]; reflexivity.
Qed.

(** The unfiltered loop gives each key to the last entry that has it. *)
Lemma plain_pass ids : forall (colorMap : gmap string ColorMapEntry) k,
  fold_left (setEntry figma modeId) ids colorMap !! k =
  match find (hasKey k) (rev (colorEntries figma modeId ids)) with
  | Some e => Some (toEntry e)
  | None => colorMap !! k
  end.
Proof.
  induction ids as [|id ids IH]; intros colorMap k; [reflexivity|].
  cbn [fold_left]. rewrite IH, colorEntries_cons, setEntry_colorEntry.
  destruct (colorEntry figma modeId id) as [e|]; [|reflexivity].
  cbn [rev]. rewrite find_app.
  destruct (find (hasKey k) (rev (colorEntries figma modeId ids))); [reflexivity|].
  cbn [find]. unfold hasKey at 1.
  destruct (String.eqb_spec (entryKey e) k) as [<-|Hne].
  - rewrite lookup_insert_eq. reflexivity.
  - rewrite lookup_insert_ne by exact Hne. reflexivity.
Qed.

End PlainIndex.

Lemma find_some_iff {A} (f : A -> bool) (l : list A) :
  is_Some (find f l) <-> exists x, In x l /\ f x = true.
Proof.
  split.
  - intros [x H]. apply find_some in H. eauto.
  - intros (x & Hin & Hx). destruct (find f l) eqn:E; [eauto|].
    rewrite (find_none _ _ E x Hin) in Hx. discriminate Hx.
Qed.

(** X5: without group filters the exact map gives each key to the last
    color entry of the collection that has it: of two variables with the
    same RGB+alpha key the later one in [variableIds] is the match, and
    every key of a color entry is in the map. *)
Theorem plain_index_last_wins (figma : Figma) (collectionName : string) (mode : ModeName)
    (options : CollectionColorMapOptions) (collection : VariableCollection) (modeId : string)
    (st : State) :
  findVariableCollectionByName figma collectionName st
    = (Normal (Some (LocalSource collection)), st) ->
  resolveModeId collection mode = Some modeId ->
  default false (useGroupFilters options) = false ->
  let entries := colorEntries figma modeId (variableIds collection) in
  exists colorMap,
    getCollectionColorMap figma collectionName mode options st = (Normal colorMap, st) /\
    (forall k, colorMap !! k = toEntry <$> find (hasKey k) (rev entries)) /\
    (forall e, In e entries -> is_Some (colorMap !! entryKey e)).
Proof.
  intros Hfind Hmode Hplain entries. eexists. split; [|split].
  - unfold getCollectionColorMap. run. rewrite Hfind, Hmode, Hplain. cbn. reflexivity.
  - intros k. rewrite plain_pass, lookup_empty.
    fold entries. destruct (find _ _); reflexivity.
  - intros e He. rewrite plain_pass. fold entries.
    assert (Hs : is_Some (find (hasKey (entryKey e)) (rev entries))).
    { apply find_some_iff. exists e. split; [apply in_rev in He; exact He|].
      apply String.eqb_refl. }
    destruct Hs as [e' ->]. eauto.
Qed.

(** X5, on the collection of scenario 3 read in its mode Light: Black/bg
    and Color/bg have the key of black and Color/bg comes later, Gray/500
    has a key of its own. *)
Lemma plain_index_last_wins_witness :
  findVariableCollectionByName Examples.groupsHost "Primitive" initialState
    = (Normal (Some (LocalSource Examples.groups)), initialState) /\
  resolveModeId Examples.groups Light = Some "1:0" /\
  default false (useGroupFilters (mkOptions None None)) = false /\
  map (fun e => (var_name (fst e), entryKey e))
      (colorEntries Examples.groupsHost "1:0" (variableIds Examples.groups))
    = [("Black/bg", "0,0,0,1"); ("Color/bg", "0,0,0,1"); ("Gray/500", "0.5,0.5,0.5,1")] /\
  let entries := colorEntries Examples.groupsHost "1:0" (variableIds Examples.groups) in
  exists colorMap,
    getCollectionColorMap Examples.groupsHost "Primitive" Light (mkOptions None None) initialState
      = (Normal colorMap, initialState) /\
    (forall k, colorMap !! k = toEntry <$> find (hasKey k) (rev entries)) /\
    (forall e, In e entries -> is_Some (colorMap !! entryKey e)).
Proof.
  split; [reflexivity|]. split; [reflexivity|]. split; [reflexivity|].
  split; [vm_compute; reflexivity|].
  apply (plain_index_last_wins Examples.groupsHost "Primitive" Light (mkOptions None None)
           Examples.groups "1:0" initialState); reflexivity.
Defined.

(** The map of that witness: black is matched to Color/bg, the later of
    the two. *)
Example plain_index_of_groups :
  exists colorMap st',
    getCollectionColorMap Examples.groupsHost "Primitive" Light (mkOptions None None) initialState
      = (Normal colorMap, st') /\
    name <$> colorMap !! "0,0,0,1" = Some "Color/bg" /\
    name <$> colorMap !! "0.5,0.5,0.5,1" = Some "Gray/500" /\
    size colorMap = 2%nat.
Proof. do 2 eexists. split; [vm_compute; reflexivity|]. repeat split; vm_compute; reflexivity. Qed.

(** The order it depends on: Black/bg comes first in the collection, so
    Color/bg is the match of black; with group filters it is Color/bg by
    priority (example first_prefix_wins). *)
Example later_entry_wins :
  name <$> (fold_left (setEntry Examples.groupsHost "1:0") ["VariableID:2:1"; "VariableID:2:2"] ∅
            : gmap string ColorMapEntry) !! "0,0,0,1" = Some "Black/bg" /\
  name <$> (fold_left (setEntry Examples.groupsHost "1:0") ["VariableID:2:2"; "VariableID:2:1"] ∅
            : gmap string ColorMapEntry) !! "0,0,0,1" = Some "Color/bg".
Proof. split; vm_compute; reflexivity. Qed.

(** What the exact map holds, with or without group filters: color
    entries of the resolved local collection, each under its own key. *)
Lemma colorMap_sound figma collectionName mode options st colorMap st' k e :
  getCollectionColorMap figma collectionName mode options st = (Normal colorMap, st') ->
  colorMap !! k = Some e ->
  exists collection modeId entry,
    fst (findVariableCollectionByName figma collectionName st)
      = Normal (Some (LocalSource collection)) /\
    resolveModeId collection mode = Some modeId /\
    In entry (colorEntries figma modeId (variableIds collection)) /\
    entryKey entry = k /\ e = toEntry entry.
Proof.
  unfold getCollectionColorMap. run.
  destruct (findVariableCollectionByName figma collectionName st) as [[[[collection|l]|]|err] st1];
    try (intros H; inversion H; subst; rewrite lookup_empty; discriminate).
  destruct (resolveModeId collection mode) as [modeId|] eqn:Hmode;
    [|intros H; inversion H; subst; rewrite lookup_empty; discriminate].
  destruct (negb (default false (useGroupFilters options))).
  - intros H. inversion H; subst. rewrite plain_pass, lookup_empty.
    destruct (find _ _) as [entry|] eqn:E; [|discriminate]. intros He. injection He as <-.
    apply find_some in E as [Hin Hk]. apply String.eqb_eq in Hk. apply in_rev in Hin.
    exists collection, modeId, entry. auto.
  - intros H. inversion H; subst. rewrite group_passes, lookup_empty.
    destruct (find _ _) as [entry|] eqn:E; [|discriminate]. intros He. injection He as <-.
    apply find_some in E as [Hin Hk]. apply String.eqb_eq in Hk.
    unfold byGroups in Hin. apply in_concat in Hin as (group & Hgroup & Hin).
    apply in_map_iff in Hgroup as (prefix & <- & _). apply filter_In in Hin as [Hin _].
    exists collection, modeId, entry. auto.
Qed.

(** ** Modes *)

Lemma resolveModeId_fallback collection mode :
  (forall m, In m (modes collection) ->
     toLowerCase (mode_name m) <> toLowerCase (modeString mode)) ->
  resolveModeId collection mode = modeId <$> head (modes collection).
Proof.
  intros H. unfold resolveModeId.
  destruct (find _ (modes collection)) as [m|] eqn:E; [|reflexivity].
  apply find_some in E as [Hin E]. apply String.eqb_eq in E. destruct (H m Hin E).
Qed.

(** X6: a collection is read in the mode whose name is the requested one
    up to case, and in its first mode when it has no such mode: for a
    collection in which no mode is called light or dark, the exact map
    and the scan are the same for Light and for Dark. *)
Theorem missing_mode_reads_first_mode (figma : Figma) (collectionName : string)
    (collection : VariableCollection) (st : State) :
  findVariableCollectionByName figma collectionName st
    = (Normal (Some (LocalSource collection)), st) ->
  (forall m mode, In m (modes collection) ->
     toLowerCase (mode_name m) <> toLowerCase (modeString mode)) ->
  (forall mode, resolveModeId collection mode = modeId <$> head (modes collection)) /\
  (forall options,
     getCollectionColorMap figma collectionName Light options st
     = getCollectionColorMap figma collectionName Dark options st) /\
  (forall useGroupFilters,
     runScan figma collectionName Light useGroupFilters st
     = runScan figma collectionName Dark useGroupFilters st).
Proof.
  intros Hfind Hmodes.
  assert (Hres : forall mode, resolveModeId collection mode = modeId <$> head (modes collection))
    by (intros mode; apply resolveModeId_fallback; intros m Hm; apply Hmodes, Hm).
  assert (Hmap : forall options,
            getCollectionColorMap figma collectionName Light options st
            = getCollectionColorMap figma collectionName Dark options st).
  { intros options. unfold getCollectionColorMap. run. rewrite Hfind, !Hres. reflexivity. }
  split; [exact Hres|]. split; [exact Hmap|].
  intros useGroupFilters. unfold runScan, runScanBody. run. rewrite Hmap. reflexivity.
Qed.

Lemma missing_mode_reads_first_mode_witness :
  let collection := mkCollection "Brand" [mkMode "Default" "1:0"] ["VariableID:1:1"] in
  let figma := Examples.host [collection] [] [Examples.blue500] Examples.emptyPage in
  findVariableCollectionByName figma "Brand" initialState
    = (Normal (Some (LocalSource collection)), initialState) /\
  (forall m mode, In m (modes collection) ->
     toLowerCase (mode_name m) <> toLowerCase (modeString mode)) /\
  (forall mode, resolveModeId collection mode = modeId <$> head (modes collection)) /\
  (forall options,
     getCollectionColorMap figma "Brand" Light options initialState
     = getCollectionColorMap figma "Brand" Dark options initialState) /\
  (forall useGroupFilters,
     runScan figma "Brand" Light useGroupFilters initialState
     = runScan figma "Brand" Dark useGroupFilters initialState).
Proof.
  cbv zeta.
  assert (H : forall m mode,
            In m (modes (mkCollection "Brand" [mkMode "Default" "1:0"] ["VariableID:1:1"])) ->
            toLowerCase (mode_name m) <> toLowerCase (modeString mode)).
  { intros m mode [<-|[]]; destruct mode; vm_compute; discriminate. }
  split; [reflexivity|]. split; [exact H|].
  apply (missing_mode_reads_first_mode
           (Examples.host [mkCollection "Brand" [mkMode "Default" "1:0"] ["VariableID:1:1"]] []
                          [Examples.blue500] Examples.emptyPage)
           "Brand" (mkCollection "Brand" [mkMode "Default" "1:0"] ["VariableID:1:1"])
           initialState); [reflexivity | exact H].
Defined.

(** ** The list cache *)

(** X7: once the candidate list of a local collection has been answered,
    the same query is answered with the same list and no further effect,
    whatever the host holds by then: the list comes from
    [variableListCacheMap]. *)
Theorem variable_list_served_from_cache (figma : Figma) (collectionName : string)
    (mode : ModeName) (useGroupFilters : bool) (groupPrefixFilter : option (list string))
    (collection : VariableCollection) (st : State) :
  findVariableCollectionByName figma collectionName st
    = (Normal (Some (LocalSource collection)), st) ->
  modes collection <> [] ->
  exists entries st',
    getCollectionVariableList figma collectionName mode useGroupFilters groupPrefixFilter st
      = (Normal entries, st') /\
    variableListCacheMap st'
      !! variableListCacheKey collectionName mode useGroupFilters groupPrefixFilter
      = Some entries /\
    forall later,
      getCollectionVariableList later collectionName mode useGroupFilters groupPrefixFilter st'
        = (Normal entries, st').
Proof.
  intros Hfind Hmodes.
  assert (Hmode : exists modeId, resolveModeId collection mode = Some modeId).
  { unfold resolveModeId. destruct (find _ (modes collection)); [eauto|].
    destruct (modes collection); [contradiction | cbn; eauto]. }
  destruct Hmode as [modeId Hmode].
  unfold getCollectionVariableList. run.
  destruct (variableListCacheMap st !! _) as [cached|] eqn:Hcache.
  - exists cached, st. split; [reflexivity|]. split; [exact Hcache|].
    intros later. rewrite Hcache. reflexivity.
  - rewrite Hfind, Hmode. cbn. do 2 eexists. split; [reflexivity|]. cbn.
    rewrite lookup_insert_eq. split; [reflexivity|]. intros later. reflexivity.
Qed.

Lemma variable_list_served_from_cache_witness :
  findVariableCollectionByName Examples.primitiveHost "Primitive" initialState
    = (Normal (Some (LocalSource Examples.primitive)), initialState) /\
  modes Examples.primitive <> [] /\
  exists entries st',
    getCollectionVariableList Examples.primitiveHost "Primitive" Light false None initialState
      = (Normal entries, st') /\
    variableListCacheMap st' !! variableListCacheKey "Primitive" Light false None
      = Some entries /\
    forall later,
      getCollectionVariableList later "Primitive" Light false None st' = (Normal entries, st').
Proof.
  split; [reflexivity|]. split; [discriminate|].
  apply (variable_list_served_from_cache Examples.primitiveHost "Primitive" Light false None
           Examples.primitive initialState); [reflexivity | discriminate].
Defined.

Lemma list_ascii_of_append s t :
  list_ascii_of_string (s +:+ t) = list_ascii_of_string s ++ list_ascii_of_string t.
Proof. induction s as [|c s IH]; [reflexivity|]. rewrite append_cons. cbn. rewrite IH. reflexivity. Qed.

Lemma list_ascii_of_string_inj s t : list_ascii_of_string s = list_ascii_of_string t -> s = t.
Proof.
  intros H. rewrite <- (string_of_list_ascii_of_string s), <- (string_of_list_ascii_of_string t), H.
  reflexivity.
Qed.

(** The key of the list cache, read from its end. *)
Lemma variableListCacheKey_rev collectionName mode useGroupFilters :
  rev (list_ascii_of_string (variableListCacheKey collectionName mode useGroupFilters None))
  = rev (list_ascii_of_string
           ("|" +:+ modeString mode +:+ "|" +:+ (if useGroupFilters then "true" else "false")
                +:+ "|" +:+ (if useGroupFilters then "all" else "none")))
    ++ rev (list_ascii_of_string collectionName).
Proof.
  unfold variableListCacheKey. rewrite list_ascii_of_append, rev_app_distr. reflexivity.
Qed.

(** X8: the keys of the list cache do not collide for the queries the
    plugin makes (none passes a prefix filter of its own): two queries
    share a cache entry only if they name the same collection, mode and
    group-filter flag. *)
Theorem variableListCacheKey_injective (name1 name2 : string) (mode1 mode2 : ModeName)
    (flag1 flag2 : bool) :
  variableListCacheKey name1 mode1 flag1 None = variableListCacheKey name2 mode2 flag2 None ->
  name1 = name2 /\ mode1 = mode2 /\ flag1 = flag2.
Proof.
  intros H. apply (f_equal (fun s => rev (list_ascii_of_string s))) in H.
  rewrite !variableListCacheKey_rev in H.
  destruct mode1, mode2, flag1, flag2; try discriminate H;
    apply app_inv_head, rev_inj, list_ascii_of_string_inj in H; auto.
Qed.

Lemma variableListCacheKey_injective_witness :
  variableListCacheKey "Primitive" Dark true None = variableListCacheKey "Primitive" Dark true None /\
  "Primitive" = "Primitive" /\ Dark = Dark /\ true = true.
Proof.
  split; [reflexivity|].
  apply (variableListCacheKey_injective "Primitive" "Primitive" Dark Dark true true).
  reflexivity.
Defined.

(** ** Traversal and scanning *)

Lemma SceneTree_induction (P : SceneTree -> Prop) :
  (forall node, P (Tree node None)) ->
  (forall node cs, Forall P cs -> P (Tree node (Some cs))) ->
  forall t, P t.
Proof.
  intros Hleaf Hnode. fix IH 1. intros [node [cs|]]; [|apply Hleaf].
  apply Hnode. induction cs as [|c cs IHcs]; constructor; [apply IH | exact IHcs].
Qed.

Lemma collectNodes_descendants (t : SceneTree) :
  collectNodes t = List.filter hasFillArray (descendants t).
Proof.
  induction t as [node|node cs IH] using SceneTree_induction.
  - cbn. destruct (hasFillArray node); reflexivity.
  - cbn [collectNodes descendants List.filter].
    assert (E : flat_map collectNodes cs = List.filter hasFillArray (flat_map descendants cs)).
    { induction IH as [|c cs Hc _ IHcs]; [reflexivity|].
      cbn [flat_map]. rewrite List.filter_app, Hc, IHcs. reflexivity. }
    rewrite E. destruct (hasFillArray node); reflexivity.
Qed.

(** X9: [collectNodes] returns the nodes of the subtree that have an
    array of fills, a node before its children and the children from left
    to right.  A node whose fills are mixed or missing is left out, with its
    strokes; its descendants are visited all the same. *)
Theorem collectNodes_preorder (t : SceneTree) :
  collectNodes t = List.filter hasFillArray (descendants t) /\
  (forall node, In node (collectNodes t) <-> In node (descendants t) /\ hasFillArray node = true).
Proof.
  split; [apply collectNodes_descendants|].
  intros node. rewrite collectNodes_descendants. apply filter_In.
Qed.

(** A frame with a mixed fill around a rectangle: the frame is left out,
    the rectangle is collected. *)
Example collectNodes_under_mixed :
  collectNodes
    (Tree (mkNode "1:1" "Frame" Mixed (Paints [SOLID Examples.red None None]) None)
          (Some [Tree (Examples.rectangle None) None]))
  = [Examples.rectangle None].
Proof. reflexivity. Qed.

Section Scan.
Variable colorMap : gmap string ColorMapEntry.

Lemma scanPaints_In node property paints : forall i item,
  In item (scanPaints node property i paints colorMap) <->
  exists j color opacity bound,
    paints !! j = Some (SOLID color opacity bound) /\
    boundAt node property (i + j)%nat = None /\
    item = scanItemOf colorMap node property (i + j)%nat color opacity.
Proof.
  induction paints as [|p paints IH]; intros i item.
  - split; [intros [] | intros (j & ? & ? & ? & H & _); discriminate H].
  - assert (Hmore : In item (scanPaints node property (S i) paints colorMap) <->
                    exists j color opacity bound,
                      (p :: paints) !! S j = Some (SOLID color opacity bound) /\
                      boundAt node property (i + S j)%nat = None /\
                      item = scanItemOf colorMap node property (i + S j)%nat color opacity).
    { rewrite IH. split; intros (j & color & opacity & bound & H1 & H2 & H3);
        exists j, color, opacity, bound; cbn [lookup list_lookup] in *;
        replace (i + S j)%nat with (S i + j)%nat in * by lia; auto. }
    assert (Hskip : forall j color opacity bound,
              (p :: paints) !! j = Some (SOLID color opacity bound) ->
              boundAt node property (i + j)%nat = None ->
              (forall c o b, p = SOLID c o b -> boundAt node property i <> None) ->
              exists j', j = S j').
    { intros [|j'] color opacity bound H1 H2 H; [|eauto].
      cbn in H1. injection H1 as ->. rewrite Nat.add_0_r in H2. destruct (H _ _ _ eq_refl H2). }
    cbn [scanPaints]. destruct p as [color opacity bound|type].
    + unfold isSolidUnbound. destruct (boundAt node property i) eqn:Hb; cbn [negb].
      * rewrite Hmore. split; [intros (j & H); eauto|].
        intros (j & c & o & b & H1 & H2 & H3).
        destruct (Hskip j c o b H1 H2) as [j' ->]; [intros; congruence | eauto 8].
      * cbn [In]. rewrite Hmore. split.
        -- intros [<-|(j & H)]; [|eauto].
           exists 0%nat, color, opacity, bound. rewrite Nat.add_0_r. auto.
        -- intros ([|j] & c & o & b & H1 & H2 & H3); [left | right; eauto 8].
           cbn in H1. injection H1 as <- <- <-. rewrite Nat.add_0_r in H3. auto.
    + rewrite Hmore. split; [intros (j & H); eauto|].
      intros (j & c & o & b & H1 & H2 & H3).
      destruct (Hskip j c o b H1 H2) as [j' ->]; [intros; discriminate | eauto 8].
Qed.

Lemma scanNodes_In nodes item :
  In item (scanNodes nodes colorMap) <->
  exists node paints color opacity bound,
    In node nodes /\
    paintsOf node (property item) = Paints paints /\
    paints !! index item = Some (SOLID color opacity bound) /\
    boundAt node (property item) (index item) = None /\
    item = scanItemOf colorMap node (property item) (index item) color opacity.
Proof.
  unfold scanNodes. rewrite in_flat_map. split.
  - intros (node & Hnode & Hitem). apply in_app_or in Hitem as [Hitem|Hitem].
    + destruct (node_fills node) as [| |paints] eqn:Hpaints; try destruct Hitem.
      apply scanPaints_In in Hitem as (j & color & opacity & bound & H1 & H2 & ->).
      exists node, paints, color, opacity, bound. cbn. auto.
    + destruct (node_strokes node) as [| |paints] eqn:Hpaints; try destruct Hitem.
      apply scanPaints_In in Hitem as (j & color & opacity & bound & H1 & H2 & ->).
      exists node, paints, color, opacity, bound. cbn. auto.
  - intros (node & paints & color & opacity & bound & Hnode & Hpaints & Hslot & Hbound & Hitem).
    exists node. split; [exact Hnode|]. apply in_or_app.
    destruct (property item) eqn:Hproperty; cbn [paintsOf] in Hpaints; rewrite Hpaints;
      [left | right]; apply scanPaints_In; exists (index item), color, opacity, bound; auto.
Qed.

Lemma scanItemOf_match node property index color alpha :
  let item := scanItemOf colorMap node property index color alpha in
  (matchVariableId item = None <-> matchVariableName item = None) /\
  forall id, matchVariableId item = Some id ->
    exists entry,
      colorMap !! rgbOpacityKey (r (currentColor item)) (g (currentColor item))
                                (b (currentColor item)) (Some (opacity item))
        = Some entry /\
      var_id (variable entry) = id /\ matchVariableName item = Some (name entry).
Proof.
  unfold scanItemOf. cbn.
  destruct (colorMap !! _) as [entry|]; cbn.
  - split; [split; discriminate|]. intros id H. injection H as <-. eauto.
  - split; [tauto | discriminate].
Qed.

End Scan.

(** X10: the items of [scanNodes] are the solid paints in the fills and
    strokes of the given nodes whose slot has no bound variable: each item
    names such a slot and carries its color, its opacity (1 when the paint
    has none) and the entry the exact map holds under the key of that color
    and opacity; every such slot has its item.  The two match fields of an
    item are null together. *)
Theorem scanNodes_items (nodes : list SceneNode) (colorMap : gmap string ColorMapEntry)
    (item : ScanItem) :
  (In item (scanNodes nodes colorMap) <->
   exists node paints color opacity bound,
     In node nodes /\
     paintsOf node (property item) = Paints paints /\
     paints !! index item = Some (SOLID color opacity bound) /\
     boundAt node (property item) (index item) = None /\
     item = scanItemOf colorMap node (property item) (index item) color opacity) /\
  (In item (scanNodes nodes colorMap) ->
   (matchVariableId item = None <-> matchVariableName item = None)).
Proof.
  split; [apply scanNodes_In|].
  intros H. apply scanNodes_In in H as (node & paints & color & opacity & bound & H).
  destruct H as (_ & _ & _ & _ & ->). apply scanItemOf_match.
Qed.

(** What a scan that reports no error returned. *)
Lemma runScan_success figma collectionName mode useGroupFilters st result st' :
  runScan figma collectionName mode useGroupFilters st = (Normal result, st') ->
  error result = None ->
  exists colorMap current,
    getCollectionColorMap figma collectionName mode
      (mkOptions (Some (default false useGroupFilters)) None) st = (Normal colorMap, st') /\
    currentPage figma = Normal current /\
    let items := scanNodes (flat_map collectNodes (scanRoots current)) colorMap in
    let groups := fold_left noteItem items ([], []) in
    result = mkScanResult items
               (map (fun e => mkMatched (fst e) (fst (snd e)) (snd (snd e))) (fst groups))
               (sortBy String.ltb (snd groups)) (length items) None.
Proof.
  unfold runScan, runScanBody. run.
  destruct (getCollectionColorMap _ _ _ _ st) as [[colorMap|e] st1];
    [|intros H; inversion H; subst; discriminate].
  destruct (size colorMap =? 0)%nat; [intros H; inversion H; subst; discriminate|].
  destruct (currentPage figma) as [current|e]; [|intros H; inversion H; subst; discriminate].
  assert (Hnodes : match selection current with
                   | [] => collectNodes (page current)
                   | sel => flat_map collectNodes sel
                   end = flat_map collectNodes (scanRoots current)).
  { unfold scanRoots. destruct (selection current); [cbn; rewrite app_nil_r|]; reflexivity. }
  rewrite Hnodes.
  destruct (fold_left noteItem _ _) as [matched noMatch] eqn:Hgroups.
  intros H _. inversion H; subst. exists colorMap, current.
  split; [reflexivity|]. split; [reflexivity|]. cbv zeta. rewrite Hgroups. reflexivity.
Qed.

(** X11: a match is exact.  Every item a scan reports as matched names a
    COLOR variable of the local collection the lookup resolved, by its id
    and its name, whose value in the resolved mode has the same RGB+alpha key
    as the paint. *)
Theorem scan_match_is_exact (figma : Figma) (collectionName : string) (mode : ModeName)
    (useGroupFilters : option bool) (st st' : State) (result : ScanResult)
    (item : ScanItem) (id : string) :
  runScan figma collectionName mode useGroupFilters st = (Normal result, st') ->
  In item (items result) ->
  matchVariableId item = Some id ->
  exists collection modeId variable value,
    fst (findVariableCollectionByName figma collectionName st)
      = Normal (Some (LocalSource collection)) /\
    resolveModeId collection mode = Some modeId /\
    In (variable, value) (colorEntries figma modeId (variableIds collection)) /\
    var_id variable = id /\
    matchVariableName item = Some (var_name variable) /\
    entryKey (variable, value)
    = rgbOpacityKey (r (currentColor item)) (g (currentColor item)) (b (currentColor item))
                    (Some (opacity item)).
Proof.
  intros Hscan Hitem Hid.
  destruct (error result) as [e|] eqn:Herror.
  { exfalso. revert Hscan Hitem. unfold runScan, runScanBody. run.
    destruct (getCollectionColorMap _ _ _ _ st) as [[colorMap|e'] st1];
      [|intros H; inversion H; subst; intros []].
    destruct (size colorMap =? 0)%nat; [intros H; inversion H; subst; intros []|].
    destruct (currentPage figma) as [current|e']; [|intros H; inversion H; subst; intros []].
    destruct (fold_left noteItem _ _) as [matched noMatch].
    intros H. inversion H; subst. discriminate Herror. }
  destruct (runScan_success _ _ _ _ _ _ _ Hscan Herror)
    as (colorMap & current & Hmap & _ & Hresult).
  cbv zeta in Hresult. rewrite Hresult in Hitem. cbn [items] in Hitem.
  apply scanNodes_In in Hitem as (node & paints & color & opacity & bound & H).
  destruct H as (_ & _ & _ & _ & Hitem).
  pose proof (scanItemOf_match colorMap node (property item) (index item) color opacity) as M.
  cbv zeta in M. rewrite <- Hitem in M. destruct M as [_ M].
  destruct (M id Hid) as (entry & Hentry & Hvar & Hname).
  destruct (colorMap_sound _ _ _ _ _ _ _ _ _ Hmap Hentry)
    as (collection & modeId & [variable value] & Hfound & Hmode & Hin & Hkey & ->).
  exists collection, modeId, variable, value. cbn in Hvar, Hname. auto 6.
Qed.

(** X11, on a page with a red rectangle and an ellipse, scanned against
    blue/500 and red/500. *)
Lemma scan_match_is_exact_witness :
  runScan Cases.paletteHost "Primitive" Light None initialState
    = (Normal Cases.scanned, initialState) /\
  In Cases.ellipseStroke (items Cases.scanned) /\
  matchVariableId Cases.ellipseStroke = Some "VariableID:1:2" /\
  exists collection modeId variable value,
    fst (findVariableCollectionByName Cases.paletteHost "Primitive" initialState)
      = Normal (Some (LocalSource collection)) /\
    resolveModeId collection Light = Some modeId /\
    In (variable, value) (colorEntries Cases.paletteHost modeId (variableIds collection)) /\
    var_id variable = "VariableID:1:2" /\
    matchVariableName Cases.ellipseStroke = Some (var_name variable) /\
    entryKey (variable, value)
    = rgbOpacityKey (r (currentColor Cases.ellipseStroke)) (g (currentColor Cases.ellipseStroke))
                    (b (currentColor Cases.ellipseStroke)) (Some (opacity Cases.ellipseStroke)).
Proof.
  assert (Hscan : runScan Cases.paletteHost "Primitive" Light None initialState
                  = (Normal Cases.scanned, initialState)) by (vm_compute; reflexivity).
  assert (Hin : In Cases.ellipseStroke (items Cases.scanned)) by (cbn; auto).
  split; [exact Hscan|]. split; [exact Hin|]. split; [reflexivity|].
  exact (scan_match_is_exact Cases.paletteHost "Primitive" Light None initialState initialState
           Cases.scanned Cases.ellipseStroke "VariableID:1:2" Hscan Hin eq_refl).
Defined.

(** ** The colors of a scan *)

Section SortedByOrder.
Context {A : Type} (lt : A -> A -> bool).
Hypothesis lt_asym : forall a b, lt a b = true -> lt b a = false.
Hypothesis le_trans : forall a b c, lt b a = false -> lt c b = false -> lt c a = false.

Let le (a b : A) : Prop := lt b a = false.

Lemma insertSorted_ordered x l :
  StronglySorted le l -> StronglySorted le (insertSorted lt x l).
Proof.
  induction l as [|y l IH]; intros S; simpl.
  - repeat constructor.
  - apply StronglySorted_inv in S as [S F]. destruct (lt x y) eqn:E.
    + constructor; [constructor; assumption|]. constructor; [apply lt_asym, E|].
      eapply List.Forall_impl; [|exact F]. intros z Hz.
      apply (le_trans x y z); [apply lt_asym, E | exact Hz].
    + constructor; [apply IH, S|].
      rewrite List.Forall_forall in *. intros z Hz.
      apply (Permutation_in _ (insertSorted_Permutation lt x l)) in Hz.
      destruct Hz as [<-|Hz]; [exact E | apply F, Hz].
Qed.

Lemma sortBy_ordered l : StronglySorted le (sortBy lt l).
Proof.
  unfold sortBy. generalize (SSorted_nil le). generalize (@nil A).
  induction l as [|x l IH]; intros acc S; simpl; [exact S|].
  apply IH, insertSorted_ordered, S.
Qed.

End SortedByOrder.

Lemma ltb_compare s t : String.ltb s t = true <-> String.compare s t = Lt.
Proof. unfold String.ltb. destruct (String.compare s t); split; congruence. Qed.

Lemma ltb_asym s t : String.ltb s t = true -> String.ltb t s = false.
Proof.
  intros H. apply ltb_compare in H. unfold String.ltb.
  rewrite String.compare_antisym, H. reflexivity.
Qed.

Lemma ltb_total s t : String.ltb t s = false -> s <> t -> String.ltb s t = true.
Proof.
  intros H Hne. apply ltb_compare. rewrite String.compare_antisym.
  unfold String.ltb in H. destruct (String.compare t s) eqn:E; try discriminate H.
  - apply String.compare_eq_iff in E. congruence.
  - reflexivity.
Qed.

Lemma ltb_trans s t u : String.ltb s t = true -> String.ltb t u = true -> String.ltb s u = true.
Proof.
  rewrite !ltb_compare. intros H1 H2.
  apply OrderedTypeEx.String_as_OT.cmp_lt.
  apply OrderedTypeEx.String_as_OT.lt_trans with t;
    apply OrderedTypeEx.String_as_OT.cmp_lt; assumption.
Qed.

Lemma leb_trans s t u :
  String.ltb t s = false -> String.ltb u t = false -> String.ltb u s = false.
Proof.
  intros H1 H2. destruct (String.ltb u s) eqn:E; [|reflexivity].
  destruct (string_dec s t) as [<-|Hne]; [congruence|].
  pose proof (ltb_total s t H1 Hne) as H. rewrite (ltb_trans u s t E H) in H2. discriminate H2.
Qed.

(** The default order of [sort()] on distinct strings is strictly
    ascending. *)
Lemma sort_strings_ascending l :
  List.NoDup l -> StronglySorted (fun s t => String.ltb s t = true) (sortBy String.ltb l).
Proof.
  intros Hnd.
  assert (Hnd' : List.NoDup (sortBy String.ltb l))
    by (eapply Permutation_NoDup; [symmetry; apply sortBy_Permutation | exact Hnd]).
  pose proof (sortBy_ordered String.ltb ltb_asym leb_trans l) as S.
  induction S as [|x l' S IH F]; constructor.
  - apply IH. inversion Hnd'; assumption.
  - rewrite List.Forall_forall in *. intros z Hz. apply ltb_total; [apply F, Hz|].
    intros <-. inversion Hnd'; contradiction.
Qed.

(** One turn of the grouping loop of [runScan]. *)
Lemma noteItem_step matched noMatch item :
  List.NoDup (map fst matched) -> List.NoDup noMatch ->
  exists matched1 noMatch1,
    noteItem (matched, noMatch) item = (matched1, noMatch1) /\
    List.NoDup (map fst matched1) /\ List.NoDup noMatch1 /\
    (forall hex, In hex (map fst matched1) <->
       In hex (map fst matched) \/ (fullyMatched item = true /\ itemHex item = hex)) /\
    (forall hex, In hex noMatch1 <->
       In hex noMatch \/ (fullyMatched item = false /\ itemHex item = hex)) /\
    (forall e, In e matched1 ->
       In e matched \/
       (~ In (fst e) (map fst matched) /\ itemHex item = fst e /\
        matchVariableId item = Some (snd (snd e)) /\
        matchVariableName item = Some (fst (snd e)))).
Proof.
  intros Hm Hn. unfold noteItem, fullyMatched. fold (itemHex item).
  assert (Hin : forall l : list (string * (string * string)),
            existsb (fun e => String.eqb (fst e) (itemHex item)) l = true
            <-> In (itemHex item) (map fst l)).
  { intros l. rewrite existsb_exists, in_map_iff.
    split; intros (e & H1 & H2); exists e;
      [apply String.eqb_eq in H2; auto | split; [exact H2 | apply String.eqb_eq, H1]]. }
  assert (Hin' : forall l, existsb (String.eqb (itemHex item)) l = true <-> In (itemHex item) l).
  { intros l. rewrite existsb_exists.
    split; [intros (e & H1 & H2); apply String.eqb_eq in H2; congruence|].
    intros H. exists (itemHex item). split; [exact H | apply String.eqb_refl]. }
  assert (Hunmatched :
            exists matched1 noMatch1,
              (if existsb (String.eqb (itemHex item)) noMatch then (matched, noMatch)
               else (matched, noMatch ++ [itemHex item])) = (matched1, noMatch1) /\
              List.NoDup (map fst matched1) /\ List.NoDup noMatch1 /\
              (forall hex, In hex (map fst matched1) <-> In hex (map fst matched)) /\
              (forall hex, In hex noMatch1 <-> In hex noMatch \/ itemHex item = hex) /\
              (forall e, In e matched1 -> In e matched)).
  { destruct (existsb (String.eqb (itemHex item)) noMatch) eqn:E.
    - apply Hin' in E. exists matched, noMatch. repeat split; auto; try tauto.
      intros [H|<-]; assumption.
    - assert (Hout : ~ In (itemHex item) noMatch) by (rewrite <- Hin', E; discriminate).
      exists matched, (noMatch ++ [itemHex item]). repeat split; auto; try tauto.
      + eapply Permutation_NoDup; [apply Permutation_cons_append|].
        constructor; assumption.
      + intros H. apply in_app_or in H as [H|[<-|[]]]; auto.
      + intros [H|<-]; apply in_or_app; [left | right; left]; auto. }
  destruct (matchVariableId item) as [id|], (matchVariableName item) as [tokenName|];
    try (destruct Hunmatched as (matched1 & noMatch1 & E & H1 & H2 & H3 & H4 & H5);
         exists matched1, noMatch1; rewrite E; split; [reflexivity|];
         split; [exact H1|]; split; [exact H2|];
         split; [intros hex; rewrite H3; split; [auto | intros [H|[H _]]; [exact H | discriminate H]]|];
         split; [intros hex; rewrite H4; split; intros [H|H]; auto; tauto|];
         intros e He; left; apply H5, He).
  clear Hunmatched.
  destruct (existsb _ matched) eqn:E.
  - apply Hin in E. exists matched, noMatch. repeat split; auto; try tauto.
    + intros [H|[_ <-]]; assumption.
    + intros [H|[H _]]; [exact H | discriminate H].
  - assert (Hout : ~ In (itemHex item) (map fst matched)) by (rewrite <- Hin, E; discriminate).
    exists (matched ++ [(itemHex item, (tokenName, id))]), noMatch.
    rewrite map_app. cbn [map fst]. repeat split; auto; try tauto.
    + eapply Permutation_NoDup; [apply Permutation_cons_append|].
      constructor; assumption.
    + intros H. apply in_app_or in H as [H|[<-|[]]]; auto.
    + intros [H|[_ <-]]; apply in_or_app; [left | right; left]; auto.
    + intros [H|[H _]]; [exact H | discriminate H].
    + intros e H. apply in_app_or in H as [H|[<-|[]]]; [left; exact H | right]. cbn. auto.
Qed.

Lemma noteItem_fold items : forall matched noMatch,
  List.NoDup (map fst matched) -> List.NoDup noMatch ->
  exists matched' noMatch',
    fold_left noteItem items (matched, noMatch) = (matched', noMatch') /\
    List.NoDup (map fst matched') /\ List.NoDup noMatch' /\
    (forall hex, In hex (map fst matched') <->
       In hex (map fst matched) \/
       exists item, In item items /\ fullyMatched item = true /\ itemHex item = hex) /\
    (forall hex, In hex noMatch' <->
       In hex noMatch \/
       exists item, In item items /\ fullyMatched item = false /\ itemHex item = hex) /\
    (forall e, In e matched' ->
       In e matched \/
       (~ In (fst e) (map fst matched) /\
        exists earlier item later,
          items = earlier ++ item :: later /\ itemHex item = fst e /\
          matchVariableId item = Some (snd (snd e)) /\
          matchVariableName item = Some (fst (snd e)) /\
          forall i, In i earlier -> fullyMatched i = true -> itemHex i <> fst e)).
Proof.
  induction items as [|item items IH]; intros matched noMatch Hm Hn.
  - exists matched, noMatch. repeat split; auto; try tauto.
    + intros [H|(i & [] & _)]; exact H.
    + intros [H|(i & [] & _)]; exact H.
  - cbn [fold_left].
    destruct (noteItem_step matched noMatch item Hm Hn)
      as (m1 & n1 & -> & Hm1 & Hn1 & Hmem1 & Hno1 & Hent1).
    destruct (IH m1 n1 Hm1 Hn1) as (m' & n' & E & Hm' & Hn' & Hmem & Hno & Hent).
    exists m', n'. split; [exact E|]. split; [exact Hm'|]. split; [exact Hn'|].
    split; [|split].
    + intros hex. rewrite Hmem, Hmem1. split.
      * intros [[H|[H1 H2]]|(i & Hi & H)].
        -- left. exact H.
        -- right. exists item. split; [left; reflexivity | auto].
        -- right. exists i. split; [right; exact Hi | exact H].
      * intros [H|(i & [<-|Hi] & H)]; [left; left; exact H | left; right; exact H |].
        right. exists i. auto.
    + intros hex. rewrite Hno, Hno1. split.
      * intros [[H|[H1 H2]]|(i & Hi & H)].
        -- left. exact H.
        -- right. exists item. split; [left; reflexivity | auto].
        -- right. exists i. split; [right; exact Hi | exact H].
      * intros [H|(i & [<-|Hi] & H)]; [left; left; exact H | left; right; exact H |].
        right. exists i. auto.
    + intros e He. destruct (Hent e He) as [H|(Hfresh & earlier & i & later & -> & H)].
      * destruct (Hent1 e H) as [H'|(Hfresh & Hhex & Hid & Hname)]; [left; exact H'|].
        right. split; [exact Hfresh|]. exists [], item, items.
        repeat split; auto; intros i [].
      * right. split; [intros Hin; apply Hfresh, Hmem1; left; exact Hin|].
        exists (item :: earlier), i, later. destruct H as (Hhex & Hid & Hname & Hfirst).
        repeat split; auto. intros i' [<-|Hi'] Hfull; [|apply Hfirst; assumption].
        intros Heq. apply Hfresh, Hmem1. right. auto.
Qed.

Lemma scanned_fullyMatched nodes colorMap item :
  In item (scanNodes nodes colorMap) -> fullyMatched item = isMatched item.
Proof.
  intros H. apply scanNodes_In in H as (node & paints & color & alpha & bound & H).
  destruct H as (_ & _ & _ & _ & ->).
  unfold fullyMatched, isMatched, scanItemOf. cbn. destruct (colorMap !! _); reflexivity.
Qed.

(** X12: the colors of a scan that reports no error.  [matchedColors] has
    one entry for each hex that a matched item has, with the variable of
    the first matched item of that hex; [noMatchColors] has each hex that
    an unmatched item has once, in strictly ascending order.  A hex is in
    both lists when it has matched and unmatched items. *)
Theorem scan_groups_colors (figma : Figma) (collectionName : string) (mode : ModeName)
    (useGroupFilters : option bool) (st st' : State) (result : ScanResult) :
  runScan figma collectionName mode useGroupFilters st = (Normal result, st') ->
  error result = None ->
  List.NoDup (map matched_hex (matchedColors result)) /\
  StronglySorted (fun s t => String.ltb s t = true) (noMatchColors result) /\
  (forall hex, In hex (map matched_hex (matchedColors result)) <->
     exists item, In item (items result) /\ isMatched item = true /\ itemHex item = hex) /\
  (forall hex, In hex (noMatchColors result) <->
     exists item, In item (items result) /\ isMatched item = false /\ itemHex item = hex) /\
  (forall m, In m (matchedColors result) ->
     exists earlier item later,
       items result = earlier ++ item :: later /\
       itemHex item = matched_hex m /\
       matchVariableId item = Some (matched_variableId m) /\
       matchVariableName item = Some (tokenName m) /\
       forall i, In i earlier -> isMatched i = true -> itemHex i <> matched_hex m).
Proof.
  intros Hscan Herror.
  destruct (runScan_success _ _ _ _ _ _ _ Hscan Herror)
    as (colorMap & current & _ & _ & Hresult).
  cbv zeta in Hresult.
  set (scannedItems := scanNodes (flat_map collectNodes (scanRoots current)) colorMap) in *.
  assert (Hfull : forall i, In i scannedItems -> fullyMatched i = isMatched i)
    by (intros i; apply scanned_fullyMatched).
  destruct (noteItem_fold scannedItems [] [] (List.NoDup_nil _) (List.NoDup_nil _))
    as (matched & noMatch & E & Hm & Hn & Hmem & Hno & Hent).
  rewrite E in Hresult. cbn [fst snd] in Hresult. subst result.
  cbn [matchedColors noMatchColors items].
  assert (Hhex : map matched_hex
                     (map (fun e => mkMatched (fst e) (fst (snd e)) (snd (snd e))) matched)
                 = map fst matched)
    by (rewrite map_map; reflexivity).
  rewrite Hhex. split; [exact Hm|]. split; [apply sort_strings_ascending, Hn|].
  split; [|split].
  - intros hex. rewrite Hmem. split.
    + intros [[]|(i & Hi & H1 & H2)]. exists i. rewrite <- Hfull by exact Hi. auto.
    + intros (i & Hi & H1 & H2). right. exists i. rewrite Hfull by exact Hi. auto.
  - intros hex. split.
    + intros H. apply (Permutation_in _ (sortBy_Permutation String.ltb noMatch)) in H.
      apply Hno in H as [[]|(i & Hi & H1 & H2)]. exists i. rewrite <- Hfull by exact Hi. auto.
    + intros (i & Hi & H1 & H2).
      apply (Permutation_in _ (Permutation_sym (sortBy_Permutation String.ltb noMatch))).
      apply Hno. right. exists i. rewrite Hfull by exact Hi. auto.
  - intros m Hin. apply in_map_iff in Hin as (e & <- & He). cbn.
    destruct (Hent e He) as [[]|(_ & earlier & i & later & Hsplit & H1 & H2 & H3 & Hfirst)].
    exists earlier, i, later. repeat split; auto.
    intros i' Hi' Hmatched. apply Hfirst; [exact Hi'|].
    rewrite Hfull; [exact Hmatched|]. rewrite Hsplit. apply in_or_app. left. exact Hi'.
Qed.

Lemma scan_groups_colors_witness :
  runScan Cases.paletteHost "Primitive" Light None initialState
    = (Normal Cases.scanned, initialState) /\
  error Cases.scanned = None /\
  List.NoDup (map matched_hex (matchedColors Cases.scanned)) /\
  StronglySorted (fun s t => String.ltb s t = true) (noMatchColors Cases.scanned) /\
  (forall hex, In hex (map matched_hex (matchedColors Cases.scanned)) <->
     exists item, In item (items Cases.scanned) /\ isMatched item = true /\ itemHex item = hex) /\
  (forall hex, In hex (noMatchColors Cases.scanned) <->
     exists item, In item (items Cases.scanned) /\ isMatched item = false /\ itemHex item = hex) /\
  (forall m, In m (matchedColors Cases.scanned) ->
     exists earlier item later,
       items Cases.scanned = earlier ++ item :: later /\
       itemHex item = matched_hex m /\
       matchVariableId item = Some (matched_variableId m) /\
       matchVariableName item = Some (tokenName m) /\
       forall i, In i earlier -> isMatched i = true -> itemHex i <> matched_hex m).
Proof.
  assert (Hscan : runScan Cases.paletteHost "Primitive" Light None initialState
                  = (Normal Cases.scanned, initialState)) by (vm_compute; reflexivity).
  split; [exact Hscan|]. split; [reflexivity|].
  exact (scan_groups_colors Cases.paletteHost "Primitive" Light None initialState initialState
           Cases.scanned Hscan eq_refl).
Defined.

(** ** The scan command *)

Lemma findVariableCollectionByName_frame figma name st :
  sameStore st (snd (findVariableCollectionByName figma name st)).
Proof.
  unfold findVariableCollectionByName, sameStore. run.
  destruct (String.length _ =? 0)%nat; [cbn; auto|].
  destruct (getLocalVariableCollectionsAsync figma) as [locals|e]; [|cbn; auto].
  destruct (find _ locals); [cbn; auto|].
  destruct (find _ (getLibraryVariableCollectionsSafe figma)); cbn; auto.
Qed.

Lemma getCollectionColorMap_frame figma collectionName mode options st :
  sameStore st (snd (getCollectionColorMap figma collectionName mode options st)).
Proof.
  pose proof (findVariableCollectionByName_frame figma collectionName st) as F.
  unfold getCollectionColorMap. run.
  destruct (findVariableCollectionByName figma collectionName st) as [[[[c|l]|]|e] st1];
    try exact F.
  destruct (resolveModeId c mode); [|exact F].
  destruct (negb _); exact F.
Qed.

Lemma runScan_frame figma collectionName mode useGroupFilters st :
  exists result st',
    runScan figma collectionName mode useGroupFilters st = (Normal result, st') /\
    sameStore st st' /\ totalScanned result = length (items result).
Proof.
  pose proof (getCollectionColorMap_frame figma collectionName mode
                (mkOptions (Some (default false useGroupFilters)) None) st) as F.
  unfold runScan, runScanBody. run.
  destruct (getCollectionColorMap _ _ _ _ st) as [[colorMap|e] st1]; cbn [snd] in F;
    [|do 2 eexists; split; [reflexivity | split; [exact F | reflexivity]]].
  destruct (size colorMap =? 0)%nat;
    [do 2 eexists; split; [reflexivity | split; [exact F | reflexivity]]|].
  destruct (currentPage figma) as [current|e];
    [|do 2 eexists; split; [reflexivity | split; [exact F | reflexivity]]].
  destruct (fold_left noteItem _ _) as [matched noMatch].
  do 2 eexists. split; [reflexivity | split; [exact F | reflexivity]].
Qed.



(** ** What a binding pass changes *)

Section Kept.

Lemma paintKept_refl paint : paintKept paint paint.
Proof. left. reflexivity. Qed.

Lemma paintKept_trans p1 p2 p3 : paintKept p1 p2 -> paintKept p2 p3 -> paintKept p1 p3.
Proof.
  intros [->|(color & alpha & bound & id & -> & ->)] H; [exact H|].
  destruct H as [->|(color' & alpha' & bound' & id' & E & ->)].
  - right. exists color, alpha, bound, id. auto.
  - injection E as <- <- _. right. exists color, alpha, bound, id'. auto.
Qed.

Lemma paints_refl (paints : list Paint) : Forall2 paintKept paints paints.
Proof. induction paints; constructor; [apply paintKept_refl | assumption]. Qed.

Lemma paints_trans (l1 l2 l3 : list Paint) :
  Forall2 paintKept l1 l2 -> Forall2 paintKept l2 l3 -> Forall2 paintKept l1 l3.
Proof.
  intros H. revert l3. induction H as [|x y l1 l2 Hxy H IH]; intros l3 H3.
  - inversion H3. constructor.
  - inversion H3 as [|? z ? l3' Hyz H3']; subst. constructor.
    + eapply paintKept_trans; eassumption.
    + apply IH, H3'.
Qed.

Lemma paintsKept_refl p : paintsKept p p.
Proof. destruct p; cbn; [reflexivity | reflexivity | apply paints_refl]. Qed.

Lemma paintsKept_trans p1 p2 p3 : paintsKept p1 p2 -> paintsKept p2 p3 -> paintsKept p1 p3.
Proof.
  destruct p1 as [| |l1], p2 as [| |l2]; cbn; try discriminate; try (intros _ H; exact H);
    destruct p3 as [| |l3]; cbn; try discriminate; auto.
  apply paints_trans.
Qed.

Lemma nodeKept_refl node : nodeKept node node.
Proof. repeat split; apply paintsKept_refl. Qed.

Lemma nodeKept_trans n1 n2 n3 : nodeKept n1 n2 -> nodeKept n2 n3 -> nodeKept n1 n3.
Proof.
  intros (H1 & H2 & H3 & H4) (H1' & H2' & H3' & H4').
  repeat split; try congruence; eapply paintsKept_trans; eassumption.
Qed.

Lemma documentKept_refl touched doc : documentKept touched doc doc.
Proof. intros id. destruct (doc !! id); [split; [apply nodeKept_refl | reflexivity] | exact I]. Qed.

Lemma documentKept_trans t1 t2 d1 d2 d3 :
  documentKept t1 d1 d2 -> documentKept t2 d2 d3 -> documentKept (t1 ++ t2) d1 d3.
Proof.
  intros H1 H2 id. specialize (H1 id). specialize (H2 id).
  destruct (d1 !! id) as [n1|], (d2 !! id) as [n2|], (d3 !! id) as [n3|]; try tauto.
  destruct H1 as [K1 F1], H2 as [K2 F2]. split; [eapply nodeKept_trans; eassumption|].
  intros Hout. rewrite F2, F1; [reflexivity | |]; intros Hin; apply Hout, in_or_app; auto.
Qed.

(** Replacing the bound paint in its slot keeps the paints. *)
Lemma insert_kept (paints : list Paint) : forall index color alpha bound id,
  paints !! index = Some (SOLID color alpha bound) ->
  Forall2 paintKept paints (<[index := SOLID color alpha (Some id)]> paints).
Proof.
  induction paints as [|p paints IH]; intros [|index] color alpha bound id H;
    try discriminate H; cbn in *.
  - injection H as ->. constructor; [|apply paints_refl].
    right. exists color, alpha, bound, id. auto.
  - constructor; [apply paintKept_refl | eapply IH, H].
Qed.

Variable figma : Figma.

Lemma bindPaint_kept node property index paints color alpha bound variable node' :
  paintsOf node property = Paints paints ->
  paints !! index = Some (SOLID color alpha bound) ->
  bindPaint figma node property index paints (SOLID color alpha bound) variable = Normal node' ->
  nodeKept node node'.
Proof.
  intros Hpaints Hslot. unfold bindPaint, setBoundVariableForPaint, assignPaints.
  destruct (setBoundVariableForPaint_raises figma _ variable); [discriminate|].
  destruct (setPaints_raises figma node property _); [discriminate|].
  intros H. injection H as <-.
  unfold nodeKept.
  destruct property; cbn [paintsOf] in Hpaints;
    cbn [node_id node_name node_fills node_strokes]; rewrite Hpaints;
    repeat split; try apply paintsKept_refl; eapply insert_kept, Hslot.
Qed.

Lemma step_kept doc id node node' :
  doc !! id = Some node -> nodeKept node node' ->
  documentKept [id] doc (<[id := node']> doc).
Proof.
  intros Hnode Hkept id'. destruct (decide (id = id')) as [<-|Hne].
  - rewrite Hnode, lookup_insert_eq. split; [exact Hkept|]. intros H. destruct H. left. reflexivity.
  - rewrite lookup_insert_ne by exact Hne.
    destruct (doc !! id'); [split; [apply nodeKept_refl | reflexivity] | exact I].
Qed.

Lemma bindItem_kept doc result item :
  documentKept [nodeId item] doc (fst (bindItem figma (doc, result) item)).
Proof.
  unfold bindItem.
  destruct (matchVariableId item) as [id|]; [|apply documentKept_refl].
  destruct (getVariableByIdAsync figma id) as [variable|]; [|apply documentKept_refl].
  destruct (doc !! nodeId item) as [node|] eqn:Hnode; [|apply documentKept_refl].
  destruct (paintsOf node (property item)) as [| |paints] eqn:Hpaints;
    try apply documentKept_refl.
  destruct (boundAt node (property item) (index item)); [apply documentKept_refl|].
  destruct (paints !! index item) as [[color alpha bound|]|] eqn:Hslot;
    try apply documentKept_refl.
  destruct (bindPaint _ _ _ _ _ _ _) as [node'|e] eqn:Hbind; [|apply documentKept_refl].
  cbn [fst]. eapply step_kept; [exact Hnode|]. eapply bindPaint_kept; eassumption.
Qed.

Lemma bindChosen_kept variable doc result item :
  documentKept [nodeId item] doc (fst (bindChosen figma variable (doc, result) item)).
Proof.
  unfold bindChosen.
  destruct (doc !! nodeId item) as [node|] eqn:Hnode; [|apply documentKept_refl].
  destruct (paintsOf node (property item)) as [| |paints] eqn:Hpaints;
    try apply documentKept_refl.
  destruct (paints !! index item) as [[color alpha bound|]|] eqn:Hslot;
    try apply documentKept_refl.
  destruct (bindPaint _ _ _ _ _ _ _) as [node'|e] eqn:Hbind; [|apply documentKept_refl].
  cbn [fst]. eapply step_kept; [exact Hnode|]. eapply bindPaint_kept; eassumption.
Qed.

Lemma loop_kept (body : gmap string SceneNode * ApplyResult -> ScanItem ->
                       gmap string SceneNode * ApplyResult) :
  (forall doc result item, documentKept [nodeId item] doc (fst (body (doc, result) item))) ->
  forall targets doc result,
    documentKept (map nodeId targets) doc (fst (fold_left body targets (doc, result))).
Proof.
  intros Hbody targets.
  induction targets as [|item targets IH]; intros doc result; cbn [fold_left map].
  - apply documentKept_refl.
  - specialize (Hbody doc result item).
    destruct (body (doc, result) item) as [doc' result']. cbn [fst] in Hbody.
    change (nodeId item :: map nodeId targets) with ([nodeId item] ++ map nodeId targets).
    eapply documentKept_trans; [exact Hbody | apply IH].
Qed.

End Kept.

(** X14: what a binding pass leaves of the document, for both apply
    functions and every host (the host returns the paint it was given with
    its color bound).  The same node ids resolve afterwards; every node
    keeps its id, its name and, in fills and in strokes, the number and the
    order of its paints, each paint being unchanged or the same solid color
    and opacity with a variable bound; and a node that none of the
    processed items names is unchanged. *)
Theorem apply_keeps_document (figma : Figma) (doc : gmap string SceneNode)
    (items lastScanItems : list ScanItem) (hex variableId : string) :
  documentKept (map nodeId (List.filter isMatched items)) doc
               (fst (applyBindingsToItems figma doc items)) /\
  documentKept (map nodeId (itemsToBind lastScanItems hex)) doc
               (fst (applyTokenToColor figma lastScanItems doc hex variableId)).
Proof.
  split.
  - unfold applyBindingsToItems. apply loop_kept. apply bindItem_kept.
  - unfold applyTokenToColor.
    destruct (itemsToBind lastScanItems hex) as [|item targets] eqn:E;
      [apply documentKept_refl|].
    destruct (getVariableByIdAsync figma variableId) as [variable|];
      [|apply documentKept_refl].
    apply loop_kept. apply bindChosen_kept.
Qed.

(** The rectangle after a pass that bound its fill, and the ellipse no item
    named. *)
Example kept_after_apply :
  let doc : gmap string SceneNode :=
    {[ "1:2" := Examples.rectangle None; "1:3" := Cases.ellipse ]} in
  let doc' := fst (applyBindingsToItems Cases.paletteHost doc [Cases.rectangleFill]) in
  doc' !! "1:2" = Some (Examples.rectangle (Some "VariableID:1:2")) /\
  doc' !! "1:3" = Some Cases.ellipse.
Proof. split; vm_compute; reflexivity. Qed.

(** ** The target of [applyTokenToColor] *)

Section Written.

Let written (c : ascii) : bool := negb (isUpperHexLetter c).

Lemma allChars_app p s t : allChars p (s +:+ t) = allChars p s && allChars p t.
Proof.
  induction s as [|c s IH]; [reflexivity|].
  rewrite append_cons. cbn [allChars]. rewrite IH, andb_assoc. reflexivity.
Qed.

Lemma written_digitChar d : written (digitChar d) = true.
Proof.
  unfold digitChar. generalize (Z.to_nat d). intros n.
  do 16 (destruct n as [|n]; [reflexivity|]). destruct n; reflexivity.
Qed.

Lemma written_digitsFrom fuel : forall radix n acc,
  allChars written acc = true -> allChars written (digitsFrom fuel radix n acc) = true.
Proof.
  induction fuel as [|f IH]; intros radix n acc H; simpl; [exact H|].
  destruct (n <? radix).
  - cbn [allChars]. rewrite written_digitChar. exact H.
  - apply IH. cbn [allChars]. rewrite written_digitChar. exact H.
Qed.

Lemma written_fractionDigits16 fuel : forall num den,
  allChars written (Number.fractionDigits16 fuel num den) = true.
Proof.
  induction fuel as [|f IH]; intros num den; simpl; [reflexivity|].
  destruct (num =? 0); [reflexivity|].
  cbn [allChars]. rewrite written_digitChar. apply IH.
Qed.

Lemma written_toString16 x : allChars written (Number.toString16 x) = true.
Proof.
  unfold Number.toString16. destruct (Prim2SF x) as [s|s| |s m e]; try reflexivity.
  - destruct s; reflexivity.
  - rewrite allChars_app. apply andb_true_intro. split; [destruct s; reflexivity|].
    destruct (0 <=? e); [apply written_digitsFrom; reflexivity|].
    rewrite allChars_app. apply andb_true_intro.
    split; [apply written_digitsFrom; reflexivity|].
    destruct (_ =? 0); [reflexivity|].
    rewrite allChars_app. apply written_fractionDigits16.
Qed.

Lemma written_padStart0 n s : allChars written s = true -> allChars written (padStart0 n s) = true.
Proof.
  intros H. unfold padStart0. rewrite allChars_app, H, andb_true_r.
  induction (n - String.length s)%nat as [|k IH]; [reflexivity|].
  cbn [repeat String.concat]. destruct (repeat "0" k) eqn:E; [reflexivity|].
  rewrite allChars_app. exact IH.
Qed.

(** [rgbToHexStr] writes no upper-case letter A to F, whatever the
    numbers. *)
Lemma rgbToHexStr_written r g b : noUpperHexLetter (rgbToHexStr r g b) = true.
Proof.
  unfold noUpperHexLetter, rgbToHexStr. cbn [map join].
  rewrite !allChars_app, !written_padStart0 by apply written_toString16. reflexivity.
Qed.

End Written.

(** X15: [applyTokenToColor] compares the target as it is written, after
    the leading # and the surrounding white space are removed, with the
    lower-case hex of the items.  A target with an upper-case letter A to F
    selects no item: nothing is bound, and the result is all zeros whether
    or not the variable resolves. *)
Theorem applyTokenToColor_is_case_sensitive (figma : Figma) (lastScanItems : list ScanItem)
    (doc : gmap string SceneNode) (hex variableId : string) :
  noUpperHexLetter (trim (stripLeadingHash hex)) = false ->
  itemsToBind lastScanItems hex = [] /\
  applyTokenToColor figma lastScanItems doc hex variableId = (doc, emptyResult).
Proof.
  intros Hupper.
  assert (E : itemsToBind lastScanItems hex = []).
  { unfold itemsToBind. induction lastScanItems as [|item rest IH]; [reflexivity|].
    cbn [List.filter]. destruct (isMatched item); [exact IH|].
    destruct (String.eqb_spec
                (rgbToHexStr (r (currentColor item)) (g (currentColor item))
                             (b (currentColor item)))
                (trim (stripLeadingHash hex))) as [Heq|_]; [|exact IH].
    rewrite <- Heq, rgbToHexStr_written in Hupper. discriminate Hupper. }
  split; [exact E|]. unfold applyTokenToColor. rewrite E. reflexivity.
Qed.

(** The red rectangle is selected by ff0000 and by #ff0000, not by
    FF0000. *)
Lemma applyTokenToColor_is_case_sensitive_witness :
  noUpperHexLetter (trim (stripLeadingHash "#FF0000")) = false /\
  itemsToBind [Examples.redItem "1:2" None] "#FF0000" = [] /\
  applyTokenToColor Examples.primitiveHost [Examples.redItem "1:2" None]
    {[ "1:2" := Examples.rectangle None ]} "#FF0000" "VariableID:1:1"
  = ({[ "1:2" := Examples.rectangle None ]}, emptyResult).
Proof.
  split; [reflexivity|].
  apply (applyTokenToColor_is_case_sensitive Examples.primitiveHost
           [Examples.redItem "1:2" None] {[ "1:2" := Examples.rectangle None ]}
           "#FF0000" "VariableID:1:1").
  reflexivity.
Defined.

Example applyTokenToColor_lower_case :
  itemsToBind [Examples.redItem "1:2" None] "#ff0000 " = [Examples.redItem "1:2" None] /\
  itemsToBind [Examples.redItem "1:2" None] "ff0000" = [Examples.redItem "1:2" None].
Proof. split; vm_compute; reflexivity. Qed.

(** ** Candidates *)

Lemma toCandidate_withDistance entries targetRgb w :
  In w (withDistance entries targetRgb) ->
  exists v, In v entries /\ toCandidate w = candidateOf v.
Proof.
  unfold withDistance. intros H. apply in_map_iff in H as (v & <- & Hv).
  exists v. split; [exact Hv | reflexivity].
Qed.

Lemma In_firstn {A} (x : A) n l : In x (firstn n l) -> In x l.
Proof. intros H. rewrite <- (firstn_skipn n l). apply in_or_app. left. exact H. Qed.

Lemma slice0_length {A} (l : list A) (limit : Z) :
  Z.of_nat (length (slice0 l limit))
  = if limit <? 0 then Z.max (Z.of_nat (length l) + limit) 0
    else Z.min limit (Z.of_nat (length l)).
Proof.
  unfold slice0. rewrite length_firstn.
  destruct (limit <? 0) eqn:E; [apply Z.ltb_lt in E | apply Z.ltb_ge in E]; lia.
Qed.

(** X16: [computeCandidates] for every limit, negative ones included.
    Each candidate is made of an entry of the list: its id, its name and
    the hex of its RGB.  A limit that is not negative keeps that many
    entries from the front of the ranking, a negative one drops that many
    from its end, and a limit of at least the length of the list returns a
    candidate for every entry. *)
Theorem computeCandidates_from_entries (localeCompare : string -> string -> Z)
    (entries : list VariableListEntry) (targetRgb : RGB) (limit : Z) :
  let candidates := computeCandidates localeCompare entries targetRgb limit in
  (forall c, In c candidates -> exists v, In v entries /\ c = candidateOf v) /\
  Z.of_nat (length candidates)
    = (if limit <? 0 then Z.max (Z.of_nat (length entries) + limit) 0
       else Z.min limit (Z.of_nat (length entries))) /\
  (Z.of_nat (length entries) <= limit -> Permutation candidates (map candidateOf entries)).
Proof.
  cbv zeta. unfold computeCandidates.
  set (sorted := sortBy (rankedBefore localeCompare) (withDistance entries targetRgb)).
  assert (Hperm : Permutation sorted (withDistance entries targetRgb))
    by apply sortBy_Permutation.
  assert (Hlen : length sorted = length entries).
  { unfold sorted. rewrite sortBy_length. unfold withDistance. apply length_map. }
  split; [|split].
  - intros c Hc. apply in_map_iff in Hc as (w & <- & Hw).
    unfold slice0 in Hw. apply In_firstn in Hw.
    apply (Permutation_in _ Hperm) in Hw.
    destruct (toCandidate_withDistance _ _ _ Hw) as (v & Hv & E). eauto.
  - rewrite length_map, slice0_length, Hlen. reflexivity.
  - intros Hall. unfold slice0.
    destruct (limit <? 0) eqn:E; [apply Z.ltb_lt in E; lia|].
    rewrite Z.min_r by lia. rewrite Nat2Z.id, firstn_all.
    rewrite Hperm. unfold withDistance. rewrite map_map. reflexivity.
Qed.

(** ** Candidate queries *)

Lemma postedLookup_refl st : postedLookup st st.
Proof. repeat split. left. reflexivity. Qed.

Lemma findVariableCollectionByName_posts figma name st :
  postedLookup st (snd (findVariableCollectionByName figma name st)).
Proof.
  unfold findVariableCollectionByName. run.
  assert (Hpost : forall m, isNotFound m = true ->
            postedLookup st (mkState (sent st ++ [m]) (variableListCacheMap st)
                                     (lastScanItems st) (document st))).
  { intros m Hm. repeat split. right. exists m. auto. }
  destruct (String.length _ =? 0)%nat; [apply Hpost; reflexivity|].
  destruct (getLocalVariableCollectionsAsync figma) as [locals|e]; [|apply postedLookup_refl].
  destruct (find _ locals); [apply postedLookup_refl|].
  destruct (find _ (getLibraryVariableCollectionsSafe figma));
    [apply postedLookup_refl | apply Hpost; reflexivity].
Qed.

Lemma getCollectionVariableList_posts figma collectionName mode useGroupFilters
    groupPrefixFilter st :
  postedLookup st (snd (getCollectionVariableList figma collectionName mode useGroupFilters
                          groupPrefixFilter st)).
Proof.
  pose proof (findVariableCollectionByName_posts figma collectionName st) as F.
  unfold getCollectionVariableList. run.
  destruct (variableListCacheMap st !! _); [apply postedLookup_refl|].
  destruct (findVariableCollectionByName figma collectionName st) as [[[[c|l]|]|e] st1];
    try exact F.
  destruct (resolveModeId c mode); exact F.
Qed.

(** X17: the candidate query command always completes and answers with
    exactly one candidatesResult message, which is the last one it posts;
    before it at most one not-found message of the lookup is posted.  The
    answer holds at most 12 candidates; when it carries no error it echoes
    the hex without its leading # and surrounding white space, and when it
    carries one it has no candidates.  The items of the last scan and the
    document are as before. *)
Theorem getCandidatesForHex_answers_once (localeCompare : string -> string -> Z)
    (figma : Figma) (hex collectionName : string) (mode : ModeName) (useGroupFilters : bool)
    (st : State) :
  exists st1 st' shown candidates error,
    onmessage localeCompare figma
      (MsgGetCandidatesForHex hex collectionName mode useGroupFilters) st = (Normal tt, st') /\
    postedLookup st st1 /\
    sent st' = sent st1 ++ [candidatesResult shown candidates error] /\
    lastScanItems st' = lastScanItems st /\
    document st' = document st /\
    (length candidates <= 12)%nat /\
    match error with
    | None => shown = trim (stripLeadingHash hex)
    | Some _ => candidates = []
    end.
Proof.
  unfold onmessage. run.
  destruct (parseHexToRgb _) as [targetRgb|].
  - pose proof (getCollectionVariableList_posts figma collectionName mode useGroupFilters
                  None st) as F.
    destruct (getCollectionVariableList _ _ _ _ _ st) as [[entries|e] st1]; cbn [snd] in F.
    + exists st1. do 4 eexists. split; [reflexivity|]. split; [exact F|].
      cbn [sent lastScanItems document]. destruct F as (_ & Hlast & Hdoc).
      repeat split; auto.
      rewrite length_map.
      match goal with |- (length (slice0 ?l 12) <= 12)%nat =>
        pose proof (slice0_length l 12) as L end.
      change (12 <? 0) with false in L. cbv iota in L. lia.
    + exists st1. do 4 eexists. split; [reflexivity|]. split; [exact F|].
      cbn [sent lastScanItems document]. destruct F as (_ & Hlast & Hdoc).
      repeat split; auto. apply Nat.le_0_l.
  - exists st. do 4 eexists. split; [reflexivity|]. split; [apply postedLookup_refl|].
    cbn [sent lastScanItems document]. repeat split; auto. apply Nat.le_0_l.
Qed.

(** ** Scan, then apply *)

(** X18: the apply command after a scan command.  The scan stores its
    items; the apply command then runs the pass over the matched ones among
    them and no others, and neither command raises.  When the pass returns,
    which it does when no lookup of a matched item rejects, the command
    posts its two notices and one applyResult whose applied, skipped and
    failed counts add up to the number of matched items of the scan, which
    is the total of the scanUI message less its count of unmatched items.
    When a lookup rejects, the command posts the notice of the failure and
    an applyResult of zeros with the error, and the bindings made before the
    rejection stay in the document. *)
Theorem scan_then_apply (localeCompare : string -> string -> Z) (figma : Figma)
    (collectionName : string) (mode : ModeName) (useGroupFilters : bool) (st : State) :
  collectionName <> "" ->
  exists scanned st1 st2,
    onmessage localeCompare figma (MsgScan (Some collectionName) (Some mode) useGroupFilters) st
      = (Normal tt, st1) /\
    last (sent st1) = Some (scanMessage scanned) /\
    lastScanItems st1 = items scanned /\
    onmessage localeCompare figma MsgApply st1 = (Normal tt, st2) /\
    lastScanItems st2 = items scanned /\
    document st2 = fst (applyBindingsToItemsAsync figma (document st1) (items scanned)) /\
    match snd (applyBindingsToItemsAsync figma (document st1) (items scanned)) with
    | Normal outcome =>
        sent st2 = sent st1 ++ [notify "Applying..." false;
                                notify (appliedSummary outcome) false;
                                applyResult outcome None] /\
        (appliedCount outcome + skippedCount outcome + failedCount outcome)%nat
          = length (List.filter isMatched (items scanned)) /\
        (appliedCount outcome + skippedCount outcome + failedCount outcome
           + length (List.filter (fun i => negb (isMatched i)) (items scanned)))%nat
          = totalScanned scanned
    | Throw e =>
        sent st2 = sent st1 ++ [notify "Applying..." false;
                                notify "Apply failed" true;
                                applyResult emptyResult (Some e)] /\
        exists item,
          In item (List.filter isMatched (items scanned)) /\
          bindItem_rejects figma item = Some e
    end /\
    ((forall item, In item (items scanned) -> bindItem_rejects figma item = None) ->
     exists outcome,
       snd (applyBindingsToItemsAsync figma (document st1) (items scanned)) = Normal outcome).
Proof.
  intros Hname.
  destruct (runScan_frame figma collectionName mode (Some useGroupFilters) (cleared st))
    as (scanned & st0 & Hscan & (Hcache & Hlast & Hdoc) & Htotal).
  destruct collectionName as [|c rest]; [contradiction|].
  set (st1 := mkState (sent st0 ++ [scanMessage scanned]) (variableListCacheMap st0)
                      (items scanned) (document st0)).
  assert (Hcmd : onmessage localeCompare figma
                   (MsgScan (Some (String c rest)) (Some mode) useGroupFilters) st
                 = (Normal tt, st1)).
  { unfold onmessage, clearCache, setLastScanItems. run. fold (cleared st).
    rewrite Hscan. reflexivity. }
  pose proof (forAwait_outcome (bindItem_rejects figma) (bindItem figma)
                (List.filter isMatched (items scanned)) (document st1, emptyResult)) as Hpass.
  pose proof (bindItem_isolated figma (document st1) (items scanned)) as Hiso.
  fold (applyBindingsToItemsAsync figma (document st1) (items scanned)) in Hpass.
  exists scanned, st1.
  destruct (applyBindingsToItemsAsync figma (document st1) (items scanned))
    as [doc' [outcome|e]] eqn:Epass.
  - exists (mkState (sent st1 ++ [notify "Applying..." false;
                                  notify (appliedSummary outcome) false;
                                  applyResult outcome None])
                    (variableListCacheMap st1) (items scanned) doc').
    split; [exact Hcmd|]. split; [apply last_snoc|]. split; [reflexivity|].
    split; [|split; [reflexivity|split; [reflexivity|split; [|eauto]]]].
    + unfold onmessage, getLastScanItems, onDocument. run.
      change (lastScanItems (mkState (sent st1 ++ [notify "Applying..." false])
                                     (variableListCacheMap st1) (lastScanItems st1)
                                     (document st1))) with (items scanned).
      cbn [document]. fold st1. rewrite Epass.
      cbn [sent variableListCacheMap lastScanItems document fst snd].
      rewrite <- !app_assoc. reflexivity.
    + cbn [snd]. destruct Hpass as [_ Hfold].
      assert (Hcount : (appliedCount outcome + skippedCount outcome + failedCount outcome)%nat
                       = length (List.filter isMatched (items scanned))).
      { rewrite <- Hfold in Hiso. apply Hiso. }
      split; [reflexivity|]. split; [exact Hcount|].
      rewrite Hcount, Htotal. apply List.filter_length.
  - exists (mkState (sent st1 ++ [notify "Applying..." false;
                                  notify "Apply failed" true;
                                  applyResult emptyResult (Some e)])
                    (variableListCacheMap st1) (items scanned) doc').
    split; [exact Hcmd|]. split; [apply last_snoc|]. split; [reflexivity|].
    split; [|split; [reflexivity|split; [reflexivity|split]]].
    + unfold onmessage, getLastScanItems, onDocument. run.
      change (lastScanItems (mkState (sent st1 ++ [notify "Applying..." false])
                                     (variableListCacheMap st1) (lastScanItems st1)
                                     (document st1))) with (items scanned).
      cbn [document]. fold st1. rewrite Epass.
      cbn [sent variableListCacheMap lastScanItems document fst snd].
      rewrite <- !app_assoc. reflexivity.
    + cbn [snd]. split; [reflexivity|].
      destruct Hpass as (before & item & after & E & _ & Hitem & _).
      exists item. split; [|exact Hitem]. rewrite E. apply in_elt.
    + intros Hnone. exfalso.
      destruct Hpass as (before & item & after & E & _ & Hitem & _).
      assert (Hin : In item (List.filter isMatched (items scanned)))
        by (rewrite E; apply in_elt).
      apply filter_In in Hin as [Hin _]. rewrite (Hnone item Hin) in Hitem. discriminate Hitem.
Qed.

(** X18, on the page of two shapes: no lookup rejects and the two matched
    items are bound (example apply_command_outcomes). *)
Lemma scan_then_apply_witness :
  "Primitive" <> "" /\
  exists scanned st1 st2,
    onmessage compareCodeUnits Cases.paletteHost (MsgScan (Some "Primitive") (Some Light) false)
              Cases.started = (Normal tt, st1) /\
    last (sent st1) = Some (scanMessage scanned) /\
    lastScanItems st1 = items scanned /\
    onmessage compareCodeUnits Cases.paletteHost MsgApply st1 = (Normal tt, st2) /\
    lastScanItems st2 = items scanned /\
    document st2
      = fst (applyBindingsToItemsAsync Cases.paletteHost (document st1) (items scanned)) /\
    match snd (applyBindingsToItemsAsync Cases.paletteHost (document st1) (items scanned)) with
    | Normal outcome =>
        sent st2 = sent st1 ++ [notify "Applying..." false;
                                notify (appliedSummary outcome) false;
                                applyResult outcome None] /\
        (appliedCount outcome + skippedCount outcome + failedCount outcome)%nat
          = length (List.filter isMatched (items scanned)) /\
        (appliedCount outcome + skippedCount outcome + failedCount outcome
           + length (List.filter (fun i => negb (isMatched i)) (items scanned)))%nat
          = totalScanned scanned
    | Throw e =>
        sent st2 = sent st1 ++ [notify "Applying..." false;
                                notify "Apply failed" true;
                                applyResult emptyResult (Some e)] /\
        exists item,
          In item (List.filter isMatched (items scanned)) /\
          bindItem_rejects Cases.paletteHost item = Some e
    end /\
    ((forall item, In item (items scanned) -> bindItem_rejects Cases.paletteHost item = None) ->
     exists outcome,
       snd (applyBindingsToItemsAsync Cases.paletteHost (document st1) (items scanned))
       = Normal outcome).
Proof.
  split; [discriminate|].
  apply (scan_then_apply compareCodeUnits Cases.paletteHost "Primitive" Light false Cases.started).
  discriminate.
Defined.

(** Both outcomes of the apply command on the items of that scan, the
    document holding the two shapes: on the host of the witness the two
    matched items are bound; where the lookup of the ellipse rejects, the
    rectangle is bound, the pass ends at the stroke of the ellipse and the
    command reports the error. *)
Example apply_command_outcomes :
  let st := mkState [] ∅ (items Cases.scanned) Cases.shapes in
  (exists st',
     onmessage compareCodeUnits Cases.paletteHost MsgApply st = (Normal tt, st') /\
     sent st' = [notify "Applying..." false;
                 notify "Applied 2, Skipped 0, Failed 0" false;
                 applyResult (mkApplyResult 2 0 0 []) None]) /\
  (exists st',
     onmessage compareCodeUnits Cases.unloadedHost MsgApply st = (Normal tt, st') /\
     sent st' = [notify "Applying..." false;
                 notify "Apply failed" true;
                 applyResult emptyResult (Some "node 1:3 is not loaded")] /\
     document st' !! "1:2" = Some (Examples.rectangle (Some "VariableID:1:2")) /\
     document st' !! "1:3" = Some Cases.ellipse).
Proof.
  cbv zeta. split; eexists; (split; [vm_compute; reflexivity|]);
    repeat split; vm_compute; reflexivity.
Qed.

(** ** More on HEX and RGB *)

Section Decoding.

Lemma land_byte z : 0 <= Z.land z 255 <= 255.
Proof.
  change (Z.land z 255) with (Z.land z (Z.ones 8)). rewrite Z.land_ones by lia.
  change (2 ^ 8) with 256. pose proof (Z.mod_pos_bound z 256). lia.
Qed.

Lemma byteComponent_table :
  forallb (fun n => inUnitRange (byteComponent (Z.of_nat n))) (seq 0 256) = true.
Proof. vm_compute. reflexivity. Qed.

Lemma byteComponent_inUnitRange n : 0 <= n <= 255 -> inUnitRange (byteComponent n) = true.
Proof.
  intros H. pose proof byteComponent_table as T. rewrite forallb_forall in T.
  specialize (T (Z.to_nat n)). rewrite Z2Nat.id in T by lia. apply T, in_seq. lia.
Qed.

End Decoding.

(** X19: whatever [parseHexToRgb] accepts, the color it returns is an
    8-bit color: each component is a byte (0 to 255) divided by 255, and so
    lies within 0 and 1.  This holds also for the inputs it should have
    rejected (a sign, a 0x prefix, trailing characters). *)
Theorem parseHexToRgb_is_8bit (hex : string) (color : RGB) :
  parseHexToRgb hex = Some color ->
  (exists n1 n2 n3,
     0 <= n1 <= 255 /\ 0 <= n2 <= 255 /\ 0 <= n3 <= 255 /\
     color = mkRGB (byteComponent n1) (byteComponent n2) (byteComponent n3)) /\
  inUnitRange (r color) = true /\ inUnitRange (g color) = true /\ inUnitRange (b color) = true.
Proof.
  unfold parseHexToRgb.
  destruct (negb _); [discriminate|].
  destruct (parseInt16 _) as [n|]; [|discriminate].
  intros H. injection H as <-. cbn [r g b].
  split; [|repeat split; apply byteComponent_inUnitRange, land_byte].
  do 3 eexists. repeat split; try apply land_byte.
Qed.

Lemma parseHexToRgb_is_8bit_witness :
  parseHexToRgb "-12345" = Some (mkRGB (byteComponent 254) (byteComponent 220)
                                       (byteComponent 187)) /\
  (exists n1 n2 n3,
     0 <= n1 <= 255 /\ 0 <= n2 <= 255 /\ 0 <= n3 <= 255 /\
     mkRGB (byteComponent 254) (byteComponent 220) (byteComponent 187)
     = mkRGB (byteComponent n1) (byteComponent n2) (byteComponent n3)) /\
  inUnitRange (byteComponent 254) = true /\ inUnitRange (byteComponent 220) = true /\
  inUnitRange (byteComponent 187) = true.
Proof.
  split; [vm_compute; reflexivity|].
  apply (parseHexToRgb_is_8bit "-12345"
           (mkRGB (byteComponent 254) (byteComponent 220) (byteComponent 187))).
  vm_compute. reflexivity.
Defined.

Section Encoding.

Lemma digitChar_value v :
  0 <= v < 16 -> hexDigitValue (digitChar v) = Some v /\ hexDigitOK (digitChar v) v = true.
Proof.
  intros H.
  assert (E : In v (map Z.of_nat (seq 0 16))).
  { apply in_map_iff. exists (Z.to_nat v). split; [lia | apply in_seq; lia]. }
  cbn in E. repeat (destruct E as [<-|E]; [split; vm_compute; reflexivity|]). destruct E.
Qed.

(** Six digits of radix 16 are read as three bytes. *)
Lemma parseHexToRgb_digits c1 c2 c3 c4 c5 c6 v1 v2 v3 v4 v5 v6 :
  hexDigitValue c1 = Some v1 -> hexDigitValue c2 = Some v2 -> hexDigitValue c3 = Some v3 ->
  hexDigitValue c4 = Some v4 -> hexDigitValue c5 = Some v5 -> hexDigitValue c6 = Some v6 ->
  parseHexToRgb (String c1 (String c2 (String c3 (String c4 (String c5 (String c6 ""))))))
  = Some (mkRGB (byteComponent (16 * v1 + v2)) (byteComponent (16 * v3 + v4))
                (byteComponent (16 * v5 + v6))).
Proof.
  intros E1 E2 E3 E4 E5 E6.
  pose proof (hexDigitValue_ok _ _ E1) as O1. pose proof (hexDigitValue_ok _ _ E2) as O2.
  pose proof (hexDigitValue_ok _ _ E3) as O3. pose proof (hexDigitValue_ok _ _ E4) as O4.
  pose proof (hexDigitValue_ok _ _ E5) as O5. pose proof (hexDigitValue_ok _ _ E6) as O6.
  unfold hexDigitOK in *.
  repeat match goal with
         | H : _ && _ = true |- _ => apply andb_prop in H as [? ?]
         | H : negb _ = true |- _ => apply negb_true_iff in H
         | H : (_ <=? _) = true |- _ => apply Z.leb_le in H
         | H : (_ <? _) = true |- _ => apply Z.ltb_lt in H
         end.
  unfold parseHexToRgb.
  set (s := String c1 (String c2 (String c3 (String c4 (String c5 (String c6 "")))))).
  assert (Hstart : trimStart s = s).
  { unfold s. cbn [trimStart].
    match goal with H : isWhiteSpace c1 = false |- _ => rewrite H end. reflexivity. }
  assert (Hstrip : stripLeadingHash s = s).
  { unfold s, stripLeadingHash.
    match goal with H : Ascii.eqb c1 "#" = false |- _ => rewrite H end. reflexivity. }
  assert (Htrim : trim s = s).
  { unfold trim. rewrite Hstart. apply trimEnd_id. unfold s. cbn [allChars].
    repeat match goal with H : isWhiteSpace _ = false |- _ => rewrite H; clear H end.
    reflexivity. }
  assert (Hparse : parseInt16 s
                   = Some (16 * (16 * (16 * (16 * (16 * v1 + v2) + v3) + v4) + v5) + v6)).
  { unfold parseInt16. rewrite Hstart. unfold s.
    repeat match goal with
           | H : Ascii.eqb c1 _ = false |- _ => rewrite H; clear H
           | H : Ascii.eqb c2 _ = false |- _ => rewrite H; clear H
           end.
    rewrite andb_false_r. cbn [parseDigits16].
    rewrite E1, E2, E3, E4, E5, E6.
    cbn [default fmap option_fmap option_map parseDigits16].
    unfold id. f_equal. lia. }
  rewrite Hstrip, Htrim, Hparse. subst s.
  cbn [String.length Nat.eqb negb].
  destruct (bytes_of_digits v1 v2 v3 v4 v5 v6) as (B1 & B2 & B3); try lia.
  unfold byteComponent. rewrite B1, B2, B3. reflexivity.
Qed.

Lemma rgbToHexStr_bytes n1 n2 n3 :
  rgbToHexStr (byteComponent n1) (byteComponent n2) (byteComponent n3)
  = byteHex n1 +:+ byteHex n2 +:+ byteHex n3.
Proof. reflexivity. Qed.

Lemma byte_split n :
  0 <= n <= 255 -> exists hi lo, n = 16 * hi + lo /\ 0 <= hi < 16 /\ 0 <= lo < 16.
Proof. intros H. exists (n / 16), (n mod 16). Z.div_mod_to_equations. lia. Qed.

End Encoding.

(** X20: every 8-bit color survives the way to hex and back: for bytes
    n1, n2 and n3, writing the color (n1/255, n2/255, n3/255) with
    [rgbToHexStr] gives six lower-case digits, and [parseHexToRgb] reads
    them back as the very same three numbers. *)
Theorem decode_after_encode (n1 n2 n3 : Z) :
  0 <= n1 <= 255 -> 0 <= n2 <= 255 -> 0 <= n3 <= 255 ->
  let hex := rgbToHexStr (byteComponent n1) (byteComponent n2) (byteComponent n3) in
  String.length hex = 6%nat /\
  allChars isHexDigit hex = true /\
  toLowerCase hex = hex /\
  parseHexToRgb hex = Some (mkRGB (byteComponent n1) (byteComponent n2) (byteComponent n3)).
Proof.
  intros H1 H2 H3. cbv zeta. rewrite rgbToHexStr_bytes.
  destruct (byte_split n1 H1) as (h1 & l1 & -> & Hh1 & Hl1).
  destruct (byte_split n2 H2) as (h2 & l2 & -> & Hh2 & Hl2).
  destruct (byte_split n3 H3) as (h3 & l3 & -> & Hh3 & Hl3).
  rewrite !byteHex_digits by assumption.
  change (String (digitChar h1) (String (digitChar l1) "")
            +:+ String (digitChar h2) (String (digitChar l2) "")
            +:+ String (digitChar h3) (String (digitChar l3) ""))
    with (String (digitChar h1) (String (digitChar l1) (String (digitChar h2)
            (String (digitChar l2) (String (digitChar h3) (String (digitChar l3) "")))))).
  destruct (digitChar_value _ Hh1) as [V1 O1]. destruct (digitChar_value _ Hl1) as [V2 O2].
  destruct (digitChar_value _ Hh2) as [V3 O3]. destruct (digitChar_value _ Hl2) as [V4 O4].
  destruct (digitChar_value _ Hh3) as [V5 O5]. destruct (digitChar_value _ Hl3) as [V6 O6].
  split; [reflexivity|]. split; [|split].
  - cbn [allChars]. unfold isHexDigit. rewrite V1, V2, V3, V4, V5, V6. reflexivity.
  - unfold hexDigitOK in *.
    repeat match goal with
           | H : _ && _ = true |- _ => apply andb_prop in H as [? ?]
           | H : Ascii.eqb (digitChar _) _ = true |- _ => apply Ascii.eqb_eq in H
           end.
    cbn [toLowerCase]. congruence.
  - apply (parseHexToRgb_digits _ _ _ _ _ _ _ _ _ _ _ _ V1 V2 V3 V4 V5 V6).
Qed.

Lemma decode_after_encode_witness :
  0 <= 255 <= 255 /\ 0 <= 128 <= 255 /\ 0 <= 0 <= 255 /\
  let hex := rgbToHexStr (byteComponent 255) (byteComponent 128) (byteComponent 0) in
  String.length hex = 6%nat /\
  allChars isHexDigit hex = true /\
  toLowerCase hex = hex /\
  parseHexToRgb hex = Some (mkRGB (byteComponent 255) (byteComponent 128) (byteComponent 0)).
Proof.
  split; [lia|]. split; [lia|]. split; [lia|].
  apply (decode_after_encode 255 128 0); lia.
Defined.

(** ** Upper and lower case in a hex *)

Section LowerCase.

(** What lower-casing leaves of a character, for the parser: checked on
    all 256 characters. *)
Lemma lowerChar_parser c :
  isWhiteSpace (lowerChar c) = isWhiteSpace c /\
  hexDigitValue (lowerChar c) = hexDigitValue c /\
  Ascii.eqb (lowerChar c) "#" = Ascii.eqb c "#" /\
  Ascii.eqb (lowerChar c) "-" = Ascii.eqb c "-" /\
  Ascii.eqb (lowerChar c) "+" = Ascii.eqb c "+" /\
  Ascii.eqb (lowerChar c) "0" = Ascii.eqb c "0" /\
  (Ascii.eqb (lowerChar c) "x" || Ascii.eqb (lowerChar c) "X")
  = (Ascii.eqb c "x" || Ascii.eqb c "X").
Proof. destruct c as [[] [] [] [] [] [] [] []]; vm_compute; repeat split. Qed.

Lemma trimStart_lower s : trimStart (toLowerCase s) = toLowerCase (trimStart s).
Proof.
  induction s as [|c s IH]; [reflexivity|]. cbn [toLowerCase trimStart].
  rewrite (proj1 (lowerChar_parser c)). destruct (isWhiteSpace c); [exact IH | reflexivity].
Qed.

Lemma trimEnd_lower s : trimEnd (toLowerCase s) = toLowerCase (trimEnd s).
Proof.
  induction s as [|c s IH]; [reflexivity|]. cbn [toLowerCase trimEnd]. rewrite IH.
  destruct (trimEnd s); cbn [toLowerCase]; [|reflexivity].
  rewrite (proj1 (lowerChar_parser c)). destruct (isWhiteSpace c); reflexivity.
Qed.

Lemma trim_lower s : trim (toLowerCase s) = toLowerCase (trim s).
Proof. unfold trim. rewrite trimStart_lower, trimEnd_lower. reflexivity. Qed.

Lemma stripLeadingHash_lower s :
  stripLeadingHash (toLowerCase s) = toLowerCase (stripLeadingHash s).
Proof.
  destruct s as [|c s]; [reflexivity|]. cbn [toLowerCase stripLeadingHash].
  rewrite (proj1 (proj2 (proj2 (lowerChar_parser c)))). destruct (Ascii.eqb c "#"); reflexivity.
Qed.

Lemma length_lower s : String.length (toLowerCase s) = String.length s.
Proof. induction s as [|c s IH]; [reflexivity|]. cbn. rewrite IH. reflexivity. Qed.

Lemma parseDigits16_lower s : forall acc,
  parseDigits16 (toLowerCase s) acc = parseDigits16 s acc.
Proof.
  induction s as [|c s IH]; intros acc; [reflexivity|]. cbn [toLowerCase parseDigits16].
  rewrite (proj1 (proj2 (lowerChar_parser c))). destruct (hexDigitValue c); [apply IH | reflexivity].
Qed.

Lemma skipPrefix_lower s :
  match toLowerCase s with
  | String c0 (String c1 rest) =>
      if Ascii.eqb c0 "0" && (Ascii.eqb c1 "x" || Ascii.eqb c1 "X") then rest else toLowerCase s
  | _ => toLowerCase s
  end
  = toLowerCase
      match s with
      | String c0 (String c1 rest) =>
          if Ascii.eqb c0 "0" && (Ascii.eqb c1 "x" || Ascii.eqb c1 "X") then rest else s
      | _ => s
      end.
Proof.
  destruct s as [|c0 [|c1 rest]]; try reflexivity. cbn [toLowerCase].
  destruct (lowerChar_parser c0) as (_ & _ & _ & _ & _ & -> & _).
  destruct (lowerChar_parser c1) as (_ & _ & _ & _ & _ & _ & ->).
  destruct (_ && _); reflexivity.
Qed.

Lemma parseInt16_lower s : parseInt16 (toLowerCase s) = parseInt16 s.
Proof.
  unfold parseInt16. rewrite trimStart_lower.
  destruct (trimStart s) as [|c rest]; [reflexivity|]. cbn [toLowerCase].
  destruct (lowerChar_parser c) as (_ & _ & _ & -> & -> & _).
  change (String (lowerChar c) (toLowerCase rest)) with (toLowerCase (String c rest)).
  destruct (Ascii.eqb c "-"); [|destruct (Ascii.eqb c "+")];
    rewrite skipPrefix_lower, parseDigits16_lower; reflexivity.
Qed.

End LowerCase.

(** X21: [parseHexToRgb] does not tell upper case from lower case: a
    string and its lower-cased form are both rejected or both read as the
    same color, for every string of code units below 256 (lower-casing
    such a string keeps its length). *)
Theorem parseHexToRgb_ignores_case (hex : string) :
  parseHexToRgb (toLowerCase hex) = parseHexToRgb hex.
Proof.
  unfold parseHexToRgb.
  rewrite stripLeadingHash_lower, trim_lower, length_lower, parseInt16_lower. reflexivity.
Qed.

Example parseHexToRgb_upper_case :
  parseHexToRgb "#FF8000" = parseHexToRgb "ff8000" /\
  parseHexToRgb "ff8000" = Some (mkRGB (byteComponent 255) (byteComponent 128) (byteComponent 0)).
Proof. split; vm_compute; reflexivity. Qed.

(** ** Opacities in percent *)

Section Percent.

Lemma alphaField_table :
  forallb (fun k => String.eqb (alphaField (percent (Z.of_nat k)))
                               (Number.toString (percent (Z.of_nat k))))
          (seq 0 101) = true.
Proof. vm_compute. reflexivity. Qed.

Lemma alphaField_distinct :
  bool_decide (NoDup (map (fun k => alphaField (percent (Z.of_nat k))) (seq 0 101))) = true.
Proof. vm_compute. reflexivity. Qed.

Lemma alphaField_percent k : 0 <= k <= 100 ->
  alphaField (percent k) = Number.toString (percent k).
Proof.
  intros H. pose proof alphaField_table as T. rewrite forallb_forall in T.
  specialize (T (Z.to_nat k)). rewrite Z2Nat.id in T by lia.
  apply String.eqb_eq, T, in_seq. lia.
Qed.

Lemma alphaField_inj k1 k2 : 0 <= k1 <= 100 -> 0 <= k2 <= 100 ->
  alphaField (percent k1) = alphaField (percent k2) -> k1 = k2.
Proof.
  intros H1 H2 E. pose proof alphaField_distinct as D. apply bool_decide_eq_true in D.
  assert (L : forall k, 0 <= k <= 100 ->
            map (fun k => alphaField (percent (Z.of_nat k))) (seq 0 101) !! Z.to_nat k
            = Some (alphaField (percent k))).
  { intros k Hk. rewrite list_lookup_fmap, lookup_seq_lt by lia. cbn.
    rewrite Z2Nat.id by lia. reflexivity. }
  assert (I : Z.to_nat k1 = Z.to_nat k2).
  { eapply NoDup_lookup; [exact D | apply L, H1 | rewrite E; apply L, H2]. }
  lia.
Qed.

End Percent.

(** X22: opacities of a whole number of percent, 0 to 100, keep their
    value in the key and are told apart by it: the alpha field of the key
    of k/100 is k/100 as written, and two paints of the same RGB get the
    same key only if their percentages are the same. *)
Theorem percent_opacities_have_distinct_keys (red green blue : float) (k1 k2 : Z) :
  0 <= k1 <= 100 -> 0 <= k2 <= 100 ->
  alphaField (percent k1) = Number.toString (percent k1) /\
  (rgbOpacityKey red green blue (Some (percent k1))
   = rgbOpacityKey red green blue (Some (percent k2)) <-> k1 = k2).
Proof.
  intros H1 H2. split; [apply alphaField_percent, H1|].
  split; [|intros ->; reflexivity].
  unfold rgbOpacityKey. cbn [default]. intros E.
  apply field_split in E as [_ E]; try apply noComma_toString.
  apply field_split in E as [_ E]; try apply noComma_toString.
  apply field_split in E as [_ E]; try apply noComma_toString.
  apply alphaField_inj; assumption.
Qed.

Lemma percent_opacities_have_distinct_keys_witness :
  0 <= 50 <= 100 /\ 0 <= 51 <= 100 /\
  alphaField (percent 50) = Number.toString (percent 50) /\
  (rgbOpacityKey 1 0 0 (Some (percent 50)) = rgbOpacityKey 1 0 0 (Some (percent 51))
   <-> 50 = 51).
Proof.
  split; [lia|]. split; [lia|].
  apply (percent_opacities_have_distinct_keys 1 0 0 50 51); lia.
Defined.

(** ** Exact matches and candidates *)

Lemma list_pass_all figma modeId ids : forall out,
  fold_left (pushEntry figma modeId None) ids out
  = out ++ map toListEntry (colorEntries figma modeId ids).
Proof.
  induction ids as [|id ids IH]; intros out; cbn [fold_left].
  - cbn. rewrite app_nil_r. reflexivity.
  - rewrite IH, colorEntries_cons. unfold pushEntry, colorEntry.
    destruct (getVariableByIdAsync figma id) as [v|]; [|reflexivity].
    destruct (resolvedType v); try reflexivity.
    destruct (valuesByMode v !! modeId) as [[c|]|]; try reflexivity.
    rewrite <- app_assoc. reflexivity.
Qed.

(** X23: every variable that can be an exact match is offered as a
    candidate.  For the same collection, mode and group-filter flag, each
    entry of the exact map is in the candidate list, with its id, its name
    and the RGB of its key, when the list is computed and not served from
    the cache. *)
Theorem exact_matches_are_candidates (figma : Figma) (collectionName : string)
    (mode : ModeName) (useGroupFilters : bool) (st : State)
    (colorMap : gmap string ColorMapEntry) (entries : list VariableListEntry)
    (k : string) (e : ColorMapEntry) :
  variableListCacheMap st !! variableListCacheKey collectionName mode useGroupFilters None
    = None ->
  fst (getCollectionColorMap figma collectionName mode
         (mkOptions (Some useGroupFilters) None) st) = Normal colorMap ->
  fst (getCollectionVariableList figma collectionName mode useGroupFilters None st)
    = Normal entries ->
  colorMap !! k = Some e ->
  exists v alpha,
    In v entries /\
    variableId v = var_id (variable e) /\ variableName v = name e /\
    k = rgbOpacityKey (entry_r v) (entry_g v) (entry_b v) (Some alpha).
Proof.
  intros Hmiss. unfold getCollectionColorMap, getCollectionVariableList. run. rewrite Hmiss.
  destruct (findVariableCollectionByName figma collectionName st) as [[[[collection|l]|]|err] st1];
    cbn [fst]; try (intros H; injection H as <-; intros _; rewrite lookup_empty; discriminate);
    try discriminate.
  destruct (resolveModeId collection mode) as [modeId|];
    [|cbn [fst]; intros H; injection H as <-; intros _; rewrite lookup_empty; discriminate].
  assert (Hlisted : forall entry filter,
            In entry (List.filter filter (colorEntries figma modeId (variableIds collection))) ->
            exists v alpha,
              In v (map toListEntry
                      (List.filter filter (colorEntries figma modeId (variableIds collection)))) /\
              variableId v = var_id (variable (toEntry entry)) /\
              variableName v = name (toEntry entry) /\
              entryKey entry = rgbOpacityKey (entry_r v) (entry_g v) (entry_b v) (Some alpha)).
  { intros entry filter Hin. exists (toListEntry entry), (default 1%float (rgba_a (snd entry))).
    split; [apply in_map, Hin|]. repeat split. }
  destruct useGroupFilters; cbn [default negb fst].
  - intros H. injection H as <-. rewrite list_pass. cbn [app].
    intros H. injection H as <-.
    change (fold_left (setEntryIfAbsent figma modeId "Black/") (variableIds collection)
              (fold_left (setEntryIfAbsent figma modeId "Color/") (variableIds collection) ∅))
      with (fold_left
              (fun colorMap prefix =>
                 fold_left (setEntryIfAbsent figma modeId prefix) (variableIds collection)
                           colorMap)
              ["Color/"; "Black/"] ∅).
    rewrite group_passes, lookup_empty.
    destruct (find _ _) as [entry|] eqn:E; [|discriminate]. intros He. injection He as <-.
    apply find_some in E as [Hin Hk]. apply String.eqb_eq in Hk. subst k.
    apply Hlisted. unfold byGroups in Hin. apply in_concat in Hin as (group & Hgroup & Hin).
    apply in_map_iff in Hgroup as (prefix & <- & Hprefix).
    apply filter_In in Hin as [Hin Hunder]. apply filter_In. split; [exact Hin|].
    unfold underPrefix in Hunder.
    destruct Hprefix as [<-|[<-|[]]]; rewrite Hunder; [reflexivity | apply orb_true_r].
  - intros H. injection H as <-. rewrite list_pass_all. cbn [app].
    intros H. injection H as <-. rewrite plain_pass, lookup_empty.
    destruct (find _ _) as [entry|] eqn:E; [|discriminate]. intros He. injection He as <-.
    apply find_some in E as [Hin Hk]. apply String.eqb_eq in Hk. subst k.
    apply in_rev in Hin.
    destruct (Hlisted entry (fun _ => true)) as (v & alpha & Hv & H);
      [apply filter_In; auto|].
    exists v, alpha. split; [|exact H].
    clear - Hv. induction (colorEntries figma modeId (variableIds collection)) as [|x l IH];
      [exact Hv|]. cbn in *. tauto.
Qed.

Lemma exact_matches_are_candidates_witness :
  variableListCacheMap initialState !! variableListCacheKey "Primitive" Light true None = None /\
  fst (getCollectionColorMap Examples.groupsHost "Primitive" Light (mkOptions (Some true) None)
         initialState)
    = Normal {[ "0,0,0,1" := mkEntry Examples.colorBg "Color/bg" ]} /\
  fst (getCollectionVariableList Examples.groupsHost "Primitive" Light true None initialState)
    = Normal [mkListEntry "VariableID:2:2" "Black/bg" 0 0 0;
              mkListEntry "VariableID:2:1" "Color/bg" 0 0 0] /\
  ({[ "0,0,0,1" := mkEntry Examples.colorBg "Color/bg" ]} : gmap string ColorMapEntry)
    !! "0,0,0,1" = Some (mkEntry Examples.colorBg "Color/bg") /\
  exists v alpha,
    In v [mkListEntry "VariableID:2:2" "Black/bg" 0 0 0;
          mkListEntry "VariableID:2:1" "Color/bg" 0 0 0] /\
    variableId v = var_id (variable (mkEntry Examples.colorBg "Color/bg")) /\
    variableName v = name (mkEntry Examples.colorBg "Color/bg") /\
    "0,0,0,1" = rgbOpacityKey (entry_r v) (entry_g v) (entry_b v) (Some alpha).
Proof.
  assert (H1 : variableListCacheMap initialState
                 !! variableListCacheKey "Primitive" Light true None = None) by reflexivity.
  assert (H2 : fst (getCollectionColorMap Examples.groupsHost "Primitive" Light
                      (mkOptions (Some true) None) initialState)
               = Normal {[ "0,0,0,1" := mkEntry Examples.colorBg "Color/bg" ]})
    by (vm_compute; reflexivity).
  assert (H3 : fst (getCollectionVariableList Examples.groupsHost "Primitive" Light true None
                      initialState)
               = Normal [mkListEntry "VariableID:2:2" "Black/bg" 0 0 0;
                         mkListEntry "VariableID:2:1" "Color/bg" 0 0 0])
    by (vm_compute; reflexivity).
  assert (H4 : ({[ "0,0,0,1" := mkEntry Examples.colorBg "Color/bg" ]}
                : gmap string ColorMapEntry) !! "0,0,0,1"
               = Some (mkEntry Examples.colorBg "Color/bg")) by (vm_compute; reflexivity).
  split; [exact H1|]. split; [exact H2|]. split; [exact H3|]. split; [exact H4|].
  exact (exact_matches_are_candidates Examples.groupsHost "Primitive" Light true initialState
           _ _ "0,0,0,1" _ H1 H2 H3 H4).
Defined.

(** ** What a scan covers *)

(** X24: the paints a scan reports.  When something is selected the scan
    covers the selected subtrees, otherwise the whole page; among their
    nodes those with an array of fills; and in the fills and strokes of each
    the solid paints whose slot has no bound variable.  The items of a scan
    that reports no error are exactly these paints, each with its node, its
    property, its index, its color, its opacity and the entry of the exact
    map under its key. *)
Theorem scan_covers_unbound_solid_paints (figma : Figma) (collectionName : string)
    (mode : ModeName) (useGroupFilters : option bool) (st st' : State) (result : ScanResult) :
  runScan figma collectionName mode useGroupFilters st = (Normal result, st') ->
  error result = None ->
  exists colorMap current,
    fst (getCollectionColorMap figma collectionName mode
           (mkOptions (Some (default false useGroupFilters)) None) st) = Normal colorMap /\
    currentPage figma = Normal current /\
    forall item,
      In item (items result) <->
      exists root node paints color alpha bound,
        In root (scanRoots current) /\
        In node (descendants root) /\
        hasFillArray node = true /\
        paintsOf node (property item) = Paints paints /\
        paints !! index item = Some (SOLID color alpha bound) /\
        boundAt node (property item) (index item) = None /\
        item = scanItemOf colorMap node (property item) (index item) color alpha.
Proof.
  intros Hscan Herror.
  destruct (runScan_success _ _ _ _ _ _ _ Hscan Herror)
    as (colorMap & current & Hmap & Hpage & Hresult).
  exists colorMap, current. rewrite Hmap. split; [reflexivity|]. split; [exact Hpage|].
  intros item. cbv zeta in Hresult. subst result. cbn [items]. rewrite scanNodes_In. split.
  - intros (node & paints & color & alpha & bound & Hnode & H).
    apply in_flat_map in Hnode as (root & Hroot & Hnode).
    rewrite collectNodes_descendants in Hnode. apply filter_In in Hnode as [Hnode Hfill].
    exists root, node, paints, color, alpha, bound. tauto.
  - intros (root & node & paints & color & alpha & bound & Hroot & Hnode & Hfill & H).
    exists node, paints, color, alpha, bound. split; [|exact H].
    apply in_flat_map. exists root. split; [exact Hroot|].
    rewrite collectNodes_descendants. apply filter_In. auto.
Qed.

Lemma scan_covers_unbound_solid_paints_witness :
  runScan Cases.paletteHost "Primitive" Light None initialState
    = (Normal Cases.scanned, initialState) /\
  error Cases.scanned = None /\
  exists colorMap current,
    fst (getCollectionColorMap Cases.paletteHost "Primitive" Light
           (mkOptions (Some (default false None)) None) initialState) = Normal colorMap /\
    currentPage Cases.paletteHost = Normal current /\
    forall item,
      In item (items Cases.scanned) <->
      exists root node paints color alpha bound,
        In root (scanRoots current) /\
        In node (descendants root) /\
        hasFillArray node = true /\
        paintsOf node (property item) = Paints paints /\
        paints !! index item = Some (SOLID color alpha bound) /\
        boundAt node (property item) (index item) = None /\
        item = scanItemOf colorMap node (property item) (index item) color alpha.
Proof.
  assert (Hscan : runScan Cases.paletteHost "Primitive" Light None initialState
                  = (Normal Cases.scanned, initialState)) by (vm_compute; reflexivity).
  split; [exact Hscan|]. split; [reflexivity|].
  exact (scan_covers_unbound_solid_paints Cases.paletteHost "Primitive" Light None
           initialState initialState Cases.scanned Hscan eq_refl).
Defined.

(** ** Commands *)

(** X25: which commands can fail.  The scan command, the candidate query
    and the two apply commands always complete, for every host and state:
    what goes wrong inside them is reported in the message they post.  The
    command that lists the collections has no handler of its own: it
    completes exactly when the local collections can be read. *)
Theorem commands_complete (localeCompare : string -> string -> Z) (figma : Figma)
    (msg : PluginMessage) (st : State) :
  match msg with
  | MsgGetCollections =>
      (exists st', onmessage localeCompare figma msg st = (Normal tt, st')) <->
      (exists locals, getLocalVariableCollectionsAsync figma = Normal locals)
  | _ => exists st', onmessage localeCompare figma msg st = (Normal tt, st')
  end.
Proof.
  destruct msg as [|collectionName mode useGroupFilters
                   |hex collectionName mode useGroupFilters|hex variableId|].
  - unfold onmessage, getAvailableCollectionNames. run.
    destruct (getLocalVariableCollectionsAsync figma) as [locals|e].
    + split; eauto.
    + split; [intros [st' H]; discriminate H | intros [locals H]; discriminate H].
  - destruct collectionName as [[|c rest]|], mode as [mode|];
      try (eexists; reflexivity).
    destruct (runScan_frame figma (String c rest) mode (Some useGroupFilters) (cleared st))
      as (result & st1 & Hscan & _).
    unfold onmessage, clearCache, setLastScanItems. run. fold (cleared st).
    rewrite Hscan. eexists. reflexivity.
  - unfold onmessage. run.
    destruct (parseHexToRgb _); [|eexists; reflexivity].
    destruct (getCollectionVariableList _ _ _ _ _ st) as [[entries|e] st1]; eexists; reflexivity.
  - unfold onmessage, getLastScanItems, onDocument. run.
    destruct (applyTokenToColorAsync _ _ _ _ _) as [doc' [result|e]]; eexists; reflexivity.
  - unfold onmessage, getLastScanItems, onDocument. run.
    destruct (applyBindingsToItemsAsync _ _ _) as [doc' [result|e]]; eexists; reflexivity.
Qed.

(** ** Number::toString and the exact-match key

    Number::toString writes two numbers alike exactly when they are the
    same number.  The digits it chooses denote a decimal inside the rounding
    interval of the value; the intervals of two values of binary64 share at
    most a midpoint, which rounds to one of them only; and the rendering is
    read back as that decimal. *)

Section Canonical.

Lemma digits2_pos_size m : digits2_pos m = Pos.size m.
Proof. induction m; simpl; congruence. Qed.

Lemma size_bounds m : 2 ^ (Z.pos (Pos.size m) - 1) <= Z.pos m < 2 ^ Z.pos (Pos.size m).
Proof.
  pose proof (Pos.size_gt m) as Hgt. pose proof (Pos.size_le m) as Hle.
  assert (E : Z.pos (2 ^ Pos.size m) = 2 ^ Z.pos (Pos.size m)) by (rewrite Pos2Z.inj_pow; reflexivity).
  split.
  - assert (2 ^ Z.pos (Pos.size m) <= 2 * Z.pos m).
    { rewrite <- E. change (2 * Z.pos m) with (Z.pos m~0). apply Pos2Z.pos_le_pos, Hle. }
    replace (Z.pos (Pos.size m)) with (Z.succ (Z.pos (Pos.size m) - 1)) in H by lia.
    rewrite Z.pow_succ_r in H by lia. lia.
  - rewrite <- E. apply Pos2Z.pos_lt_pos, Hgt.
Qed.

Lemma finite_canonical x s m e : Prim2SF x = S754_finite s m e -> canonical m e.
Proof.
  intros H. pose proof (Prim2SF_valid x) as V. rewrite H in V.
  unfold SpecFloat.valid_binary, bounded, canonical_mantissa, fexp, SpecFloat.emin in V.
  apply andb_prop in V as [C B]. apply Z.eqb_eq in C. apply Z.leb_le in B.
  rewrite digits2_pos_size in C. pose proof (size_bounds m) as [Hlo Hhi].
  change prec with 53 in *. change emax with 1024 in *.
  set (D := Z.pos (Pos.size m)) in *.
  unfold canonical.
  destruct (Z.max_spec (D + e - 53) (3 - 1024 - 53)) as [[Hc E]|[Hc E]]; rewrite E in C.
  - assert (D <= 53) by lia.
    assert (2 ^ D <= 2 ^ 53) by (apply Z.pow_le_mono_r; lia).
    repeat split; try lia.
  - assert (D = 53) by lia. replace D with 53 in * by lia.
    repeat split; try lia.
Qed.

End Canonical.

Section Intervals.

(** The interval of the first value ends where that of the second begins,
    or before: at most the midpoint is shared, and then one of the two
    mantissas is odd. *)
Let apart (m : positive) (e : Z) (m' : positive) (e' : Z) : Prop :=
  midpointAbove m e <= midpointBelow m' e' /\
  (midpointAbove m e = midpointBelow m' e' -> Z.even (Z.pos m) = false \/ Z.even (Z.pos m') = false).

Lemma even_succ_or a b : b = a + 1 -> Z.even a = false \/ Z.even b = false.
Proof.
  intros ->. rewrite Z.add_1_r, Z.even_succ, <- Z.negb_even.
  destruct (Z.even a); auto.
Qed.

Lemma apart_same_exponent m m' e :
  canonical m e -> canonical m' e -> Z.pos m < Z.pos m' -> apart m e m' e.
Proof.
  intros (Hm & He & Hn) (Hm' & He' & Hn') Hlt. unfold apart, midpointAbove, midpointBelow.
  assert (HU : 0 < 2 ^ (e + 1074)) by (apply Z.pow_pos_nonneg; lia).
  set (U := 2 ^ (e + 1074)) in *.
  change (2 ^ 52) with 4503599627370496 in *. change (2 ^ 53) with 9007199254740992 in *.
  destruct ((Z.pos m' =? 4503599627370496) && (-1074 <? e)) eqn:C.
  - apply andb_prop in C as [C1 C2]. apply Z.eqb_eq in C1. apply Z.ltb_lt in C2. lia.
  - clearbody U. split; [apply Z.mul_le_mono_nonneg_r; lia|].
    intros E. apply even_succ_or. apply Z.mul_cancel_r in E; lia.
Qed.

Lemma apart_lower_exponent m m' e e' :
  canonical m e -> canonical m' e' -> e < e' -> apart m e m' e'.
Proof.
  intros (Hm & He & Hn) (Hm' & He' & Hn') Hlt. unfold apart, midpointAbove, midpointBelow.
  assert (HU : 0 < 2 ^ (e + 1074)) by (apply Z.pow_pos_nonneg; lia).
  replace (e' + 1074) with ((e + 1074) + (e' - e)) by lia.
  rewrite (Z.pow_add_r 2 (e + 1074) (e' - e)) by lia.
  assert (HD : 2 <= 2 ^ (e' - e)).
  { change 2 with (2 ^ 1) at 1. apply Z.pow_le_mono_r; lia. }
  set (U := 2 ^ (e + 1074)) in *. set (D := 2 ^ (e' - e)) in *. clearbody U D.
  change (2 ^ 52) with 4503599627370496 in *. change (2 ^ 53) with 9007199254740992 in *.
  assert (Hn2 : 4503599627370496 <= Z.pos m') by lia.
  destruct ((Z.pos m' =? 4503599627370496) && (-1074 <? e')) eqn:C.
  - apply andb_prop in C as [C1 C2]. apply Z.eqb_eq in C1. rewrite C1.
    assert (4 * Z.pos m + 2 <= (4 * 4503599627370496 - 1) * D) by nia.
    split; [nia|]. intros E. left.
    assert (Z.pos m = 9007199254740991) by nia.
    rewrite H0. reflexivity.
  - assert (Z.pos m' <> 4503599627370496).
    { intros E. rewrite E in C. cbn in C. apply Z.ltb_ge in C. lia. }
    assert (4 * Z.pos m + 2 < (4 * Z.pos m' - 2) * D) by nia.
    split; [nia|]. intros E. nia.
Qed.

Lemma apart_disjoint m e m' e' w :
  apart m e m' e' -> roundsTo m e w -> roundsTo m' e' w -> False.
Proof.
  intros [Hle Heq]. unfold roundsTo.
  assert (HT : 0 < 10 ^ 400) by (apply Z.pow_pos_nonneg; lia).
  set (T := 10 ^ 400) in *. set (K := 2 ^ 1076) in *. clearbody T K.
  destruct (Z.even (Z.pos m)) eqn:Em, (Z.even (Z.pos m')) eqn:Em'; intros H1 H2.
  - assert (midpointAbove m e = midpointBelow m' e') by nia.
    destruct (Heq H); discriminate.
  - nia.
  - nia.
  - nia.
Qed.

Lemma roundsTo_unique m e m' e' w :
  canonical m e -> canonical m' e' -> roundsTo m e w -> roundsTo m' e' w ->
  m = m' /\ e = e'.
Proof.
  intros C C' R R'.
  destruct (Z.lt_total e e') as [H|[H|H]].
  - exfalso. eapply apart_disjoint; [apply (apart_lower_exponent m m' e e'); assumption | eassumption..].
  - subst e'. destruct (Z.lt_total (Z.pos m) (Z.pos m')) as [Hm|[Hm|Hm]].
    + exfalso. eapply apart_disjoint; [apply (apart_same_exponent m m' e); assumption | eassumption..].
    + injection Hm as ->. auto.
    + exfalso. eapply apart_disjoint; [apply (apart_same_exponent m' m e); assumption | eassumption..].
  - exfalso. eapply apart_disjoint; [apply (apart_lower_exponent m' m e' e); assumption | eassumption..].
Qed.

End Intervals.

Lemma nth_powersFrom count : forall b x i,
  (i < count)%nat -> nth i (powersFrom count b x) 0 = x * b ^ Z.of_nat i.
Proof.
  induction count as [|c IH]; intros b x i Hi; [lia|].
  destruct i as [|i]; cbn [powersFrom nth].
  - rewrite Z.pow_0_r. lia.
  - rewrite IH by lia. rewrite Nat2Z.inj_succ, Z.pow_succ_r by lia. ring.
Qed.

Lemma estimate_table : estimatesOK (powersFrom 812 10 1) = true.
Proof. vm_compute. reflexivity. Qed.

Lemma estimatesOK_at tens L :
  estimatesOK tens = true -> -1074 <= L <= 1023 -> estimateOK tens L = true.
Proof.
  intros H HL. unfold estimatesOK in H. rewrite forallb_forall in H.
  specialize (H (Z.to_nat (L + 1074))). rewrite Z2Nat.id in H by lia.
  replace (L + 1074 - 1074) with L in H by lia.
  apply H, in_seq. lia.
Qed.

Lemma estimateOK_sound tens L :
  (forall i, (i < 812)%nat -> nth i tens 0 = 1 * 10 ^ Z.of_nat i) ->
  estimateOK tens L = true ->
  -1074 <= L ->
  let est := (L * 30103) / 100000 - 1 in
  0 <= est + 325 /\
  10 ^ (est + 399) * 2 ^ 1076 <= 2 ^ (L + 1076) * 10 ^ 400 /\
  2 ^ (L + 1077) * 10 ^ 400 <= 10 ^ (est + 405) * 2 ^ 1076.
Proof.
  intros Htens H HL. cbv zeta. unfold estimateOK in H. cbv zeta in H.
  set (est := L * 30103 / 100000 - 1) in *.
  apply andb_prop in H as [H H4]. apply andb_prop in H as [H H3].
  apply andb_prop in H as [H1 H2].
  apply Z.leb_le in H1. apply Z.ltb_lt in H2. apply Z.leb_le in H3. apply Z.leb_le in H4.
  rewrite !Htens in H3, H4 by lia.
  rewrite !Z2Nat.id in H3, H4 by lia.
  rewrite !Z.shiftl_mul_pow2 in H3, H4 by lia.
  rewrite !Z.mul_1_l in H3, H4. rewrite (Z.mul_comm (10 ^ 400)) in H3, H4.
  auto.
Qed.

Lemma estimate_bounds L :
  -1074 <= L <= 1023 ->
  let est := (L * 30103) / 100000 - 1 in
  0 <= est + 325 /\
  10 ^ (est + 399) * 2 ^ 1076 <= 2 ^ (L + 1076) * 10 ^ 400 /\
  2 ^ (L + 1077) * 10 ^ 400 <= 10 ^ (est + 405) * 2 ^ 1076.
Proof.
  intros HL. apply (estimateOK_sound (powersFrom 812 10 1)).
  - intros i Hi. apply nth_powersFrom, Hi.
  - apply estimatesOK_at; [exact estimate_table | exact HL].
  - lia.
Qed.

Section Scaling.

Lemma scaled_le a b a' b' l u :
  0 < l -> 0 < u -> a * l = a' * u -> b * l = b' * u -> (a <= b <-> a' <= b').
Proof. intros Hl Hu Ea Eb. split; intros H; nia. Qed.

Lemma scaled_lt a b a' b' l u :
  0 < l -> 0 < u -> a * l = a' * u -> b * l = b' * u -> (a < b <-> a' < b').
Proof. intros Hl Hu Ea Eb. split; intros H; nia. Qed.

Lemma floor_bounds a b : 0 < b -> a / b * b <= a < (a / b + 1) * b.
Proof.
  intros Hb. pose proof (Z.mul_div_le a b Hb). pose proof (Z.mul_succ_div_gt a b Hb). lia.
Qed.

Lemma ceilDiv_bounds a b :
  0 < b -> (Number.ceilDiv a b - 1) * b < a <= Number.ceilDiv a b * b.
Proof.
  intros Hb. unfold Number.ceilDiv. pose proof (floor_bounds (- a) b Hb). lia.
Qed.

(** The choice among the significands of an interval. *)
Lemma pick_sound (even : bool) (lo hi v den k s : Z) :
  0 < den ->
  (let smin := if even then Number.ceilDiv lo den else lo / den + 1 in
   let smax := if even then hi / den else Number.ceilDiv hi den - 1 in
   let smin0 := Z.max smin (10 ^ (k - 1)) in
   let smax0 := Z.min smax (10 ^ k) in
   if smin0 <=? smax0
   then Some (Z.max smin0 (Z.min smax0 (Number.nearestEven v den)))
   else None) = Some s ->
  (if even then lo <= s * den <= hi else lo < s * den < hi) /\
  10 ^ (k - 1) <= s <= 10 ^ k.
Proof.
  intros Hden. cbv zeta.
  set (smin := if even then Number.ceilDiv lo den else lo / den + 1).
  set (smax := if even then hi / den else Number.ceilDiv hi den - 1).
  destruct (Z.max smin (10 ^ (k - 1)) <=? Z.min smax (10 ^ k)) eqn:C; [|discriminate].
  apply Z.leb_le in C. intros E. injection E as <-.
  set (s := Z.max _ (Z.min _ _)).
  assert (Hs : smin <= s <= smax /\ 10 ^ (k - 1) <= s <= 10 ^ k) by (unfold s; lia).
  split; [|apply Hs]. destruct Hs as [Hs _]. clearbody s. clear C. subst smin smax.
  pose proof (ceilDiv_bounds lo den Hden). pose proof (floor_bounds lo den Hden).
  pose proof (ceilDiv_bounds hi den Hden). pose proof (floor_bounds hi den Hden).
  destruct even; nia.
Qed.

(** When some significand of the asked size is in the interval, there is
    a candidate. *)
Lemma pick_complete (even : bool) (lo hi v den k s : Z) :
  0 < den ->
  lo < s * den < hi -> 10 ^ (k - 1) <= s <= 10 ^ k ->
  (let smin := if even then Number.ceilDiv lo den else lo / den + 1 in
   let smax := if even then hi / den else Number.ceilDiv hi den - 1 in
   let smin0 := Z.max smin (10 ^ (k - 1)) in
   let smax0 := Z.min smax (10 ^ k) in
   if smin0 <=? smax0
   then Some (Z.max smin0 (Z.min smax0 (Number.nearestEven v den)))
   else None) <> None.
Proof.
  intros Hden Hs Hk. cbv zeta.
  set (smin := if even then Number.ceilDiv lo den else lo / den + 1).
  set (smax := if even then hi / den else Number.ceilDiv hi den - 1).
  assert (smin <= s <= smax).
  { subst smin smax.
    pose proof (ceilDiv_bounds lo den Hden). pose proof (floor_bounds lo den Hden).
    pose proof (ceilDiv_bounds hi den Hden). pose proof (floor_bounds hi den Hden).
    destruct even; nia. }
  destruct (Z.max smin (10 ^ (k - 1)) <=? Z.min smax (10 ^ k)) eqn:C; [discriminate|].
  apply Z.leb_gt in C. lia.
Qed.

(** Between [10^16] and [10^17] units [y] of the last of 17 digits, an
    interval around [v] that is wider than a unit holds a multiple of it. *)
Lemma significand_exists v lo hi y z :
  0 < y -> 0 < z -> lo < v < hi -> v < (hi - lo) * 10 ^ 16 ->
  10 ^ 16 * y <= v * z < 10 ^ 17 * y ->
  exists s, lo * z < s * y < hi * z /\ 10 ^ 16 <= s <= 10 ^ 17.
Proof.
  intros Hy Hz Hv Hw Hr.
  change (10 ^ 16) with 10000000000000000 in *.
  change (10 ^ 17) with 100000000000000000 in *.
  pose proof (floor_bounds (v * z) y Hy) as Hq.
  set (q := v * z / y) in *.
  assert (Hq1 : 10000000000000000 <= q) by (apply Z.div_le_lower_bound; lia).
  assert (Hq2 : q < 100000000000000000) by (apply Z.div_lt_upper_bound; lia).
  assert (Hwide : y < (hi - lo) * z) by nia.
  destruct (Z.lt_ge_cases (lo * z) (q * y)) as [H|H].
  - exists q. split; [nia | lia].
  - exists (q + 1). split; [nia | lia].
Qed.

Variables (m : positive) (e : Z).
Hypothesis valid : canonical m e.

Let V := 4 * Z.pos m.
Let HI := V + 2.
Let LO := if (Z.pos m =? 2 ^ 52) && (-1074 <? e) then V - 1 else V - 2.
Let P := 2 ^ Z.max (e - 2) 0.
Let Q := 2 ^ Z.max (2 - e) 0.
Let U := 2 ^ (e + 1074).
Let K := 2 ^ 1076.
Let T := 10 ^ 400.

Lemma P_pos : 0 < P.
Proof. apply Z.pow_pos_nonneg; lia. Qed.
Lemma Q_pos : 0 < Q.
Proof. apply Z.pow_pos_nonneg; lia. Qed.
Lemma U_pos : 0 < U.
Proof. destruct valid as (_ & He & _). apply Z.pow_pos_nonneg; lia. Qed.
Lemma K_pos : 0 < K.
Proof. apply Z.pow_pos_nonneg; lia. Qed.
Lemma T_pos : 0 < T.
Proof. apply Z.pow_pos_nonneg; lia. Qed.

Lemma P_K : P * K = Q * U.
Proof.
  destruct valid as (_ & He & _). unfold P, Q, K, U.
  rewrite <- !Z.pow_add_r by lia. f_equal. lia.
Qed.

Section Digits.
Variable d : Z.
Hypothesis d_bound : 0 <= d + 400.

Let num (x : Z) : Z := if 0 <=? d then x * P else x * P * 10 ^ (- d).
Let den : Z := if 0 <=? d then 10 ^ d * Q else Q.

Lemma scale_exists :
  exists l u, 0 < l /\ 0 < u /\
    (forall x, num x * l = x * U * T * u) /\
    (forall s, s * den * l = s * 10 ^ (d + 400) * K * u).
Proof.
  pose proof P_pos. pose proof Q_pos. pose proof U_pos. pose proof K_pos. pose proof T_pos.
  pose proof P_K as E. unfold num, den. destruct (0 <=? d) eqn:Hd.
  - apply Z.leb_le in Hd. exists (K * T), Q.
    assert (ET : 10 ^ (d + 400) = 10 ^ d * T) by (unfold T; apply Z.pow_add_r; lia).
    assert (0 < 10 ^ d) by (apply Z.pow_pos_nonneg; lia).
    split; [nia|]. split; [assumption|]. split.
    + intros x. replace (x * P * (K * T)) with (x * T * (P * K)) by ring. rewrite E. ring.
    + intros s. rewrite ET. ring.
  - apply Z.leb_gt in Hd. exists (K * 10 ^ (d + 400)), Q.
    assert (ET : 10 ^ (- d) * 10 ^ (d + 400) = T).
    { unfold T. rewrite <- Z.pow_add_r by lia. f_equal. lia. }
    assert (0 < 10 ^ (d + 400)) by (apply Z.pow_pos_nonneg; lia).
    split; [nia|]. split; [assumption|]. split.
    + intros x. replace (x * P * 10 ^ (- d) * (K * 10 ^ (d + 400)))
        with (x * (10 ^ (- d) * 10 ^ (d + 400)) * (P * K)) by ring.
      rewrite ET, E. ring.
    + intros s. ring.
Qed.

Lemma den_pos : 0 < den.
Proof.
  pose proof Q_pos. unfold den. destruct (0 <=? d) eqn:Hd; [|assumption].
  apply Z.leb_le in Hd. assert (0 < 10 ^ d) by (apply Z.pow_pos_nonneg; lia). nia.
Qed.

Lemma num_le_den x s : num x <= s * den <-> x * U * T <= s * 10 ^ (d + 400) * K.
Proof.
  destruct scale_exists as (l & u & Hl & Hu & En & Ed).
  apply (scaled_le _ _ _ _ l u Hl Hu (En x) (Ed s)).
Qed.

Lemma num_lt_den x s : num x < s * den <-> x * U * T < s * 10 ^ (d + 400) * K.
Proof.
  destruct scale_exists as (l & u & Hl & Hu & En & Ed).
  apply (scaled_lt _ _ _ _ l u Hl Hu (En x) (Ed s)).
Qed.

Lemma den_le_num x s : s * den <= num x <-> s * 10 ^ (d + 400) * K <= x * U * T.
Proof.
  destruct scale_exists as (l & u & Hl & Hu & En & Ed).
  apply (scaled_le _ _ _ _ l u Hl Hu (Ed s) (En x)).
Qed.

Lemma den_lt_num x s : s * den < num x <-> s * 10 ^ (d + 400) * K < x * U * T.
Proof.
  destruct scale_exists as (l & u & Hl & Hu & En & Ed).
  apply (scaled_lt _ _ _ _ l u Hl Hu (Ed s) (En x)).
Qed.

End Digits.

Lemma roundsTo_scaled w :
  roundsTo m e w <->
  if Z.even (Z.pos m) then LO * U * T <= w * K <= HI * U * T
  else LO * U * T < w * K < HI * U * T.
Proof. reflexivity. Qed.

(** A candidate rounds to the value and has at most one digit more than
    asked. *)
Lemma candidate_sound k n s :
  0 <= n - k + 400 ->
  Number.candidate m e k n = Some s ->
  roundsTo m e (s * 10 ^ (n - k + 400)) /\ 10 ^ (k - 1) <= s <= 10 ^ k.
Proof.
  intros Hd H. unfold Number.candidate in H. cbv zeta in H.
  apply pick_sound in H; [|apply (den_pos (n - k))].
  destruct H as [H Hs]. split; [|exact Hs].
  rewrite roundsTo_scaled.
  pose proof (num_le_den (n - k) Hd) as Hle. pose proof (num_lt_den (n - k) Hd) as Hlt.
  pose proof (den_le_num (n - k) Hd) as Hge. pose proof (den_lt_num (n - k) Hd) as Hgt.
  destruct (Z.even (Z.pos m)); destruct H as [H1 H2].
  - split; [apply (Hle LO s), H1 | apply (Hge HI s), H2].
  - split; [apply (Hlt LO s), H1 | apply (Hgt HI s), H2].
Qed.

Lemma below10_iff n :
  0 <= n + 400 ->
  Number.below10 m e n = true <-> V * U * T < 10 ^ (n + 400) * K.
Proof.
  intros Hn. unfold Number.below10. cbv zeta. fold V. fold P. fold Q.
  pose proof (num_lt_den n Hn V 1) as H. rewrite !Z.mul_1_l in H.
  destruct (0 <=? n); rewrite Z.ltb_lt; exact H.
Qed.

Lemma findExponent_spec fuel : forall n0,
  (exists j, (j < fuel)%nat /\ Number.below10 m e (n0 + Z.of_nat j) = true) ->
  let n := Number.findExponent m e fuel n0 in
  n0 <= n < n0 + Z.of_nat fuel /\ Number.below10 m e n = true /\
  (n = n0 \/ Number.below10 m e (n - 1) = false).
Proof.
  induction fuel as [|f IH]; intros n0 (j & Hj & Hb); [lia|].
  cbn [Number.findExponent]. destruct (Number.below10 m e n0) eqn:B0.
  - cbv zeta. split; [lia|]. split; [exact B0 | left; reflexivity].
  - destruct j as [|j]; [rewrite Z.add_0_r in Hb; congruence|].
    specialize (IH (n0 + 1)). cbv zeta in IH.
    destruct IH as (Hr & Hbelow & Hprev).
    { exists j. split; [lia|]. replace (n0 + 1 + Z.of_nat j) with (n0 + Z.of_nat (S j)) by lia.
      exact Hb. }
    cbv zeta. split; [lia|]. split; [exact Hbelow|].
    right. destruct Hprev as [-> | Hprev]; [|exact Hprev].
    replace (n0 + 1 - 1) with n0 by lia. exact B0.
Qed.

Lemma mantissa_log2 : 0 <= Z.log2 (Z.pos m) <= 52 /\
  2 ^ Z.log2 (Z.pos m) <= Z.pos m < 2 ^ (Z.log2 (Z.pos m) + 1).
Proof.
  destruct valid as (Hm & _ & _).
  pose proof (Z.log2_spec (Z.pos m) ltac:(lia)) as H. rewrite <- Z.add_1_r in H.
  pose proof (Z.log2_nonneg (Z.pos m)).
  assert (Z.log2 (Z.pos m) < 53) by (apply Z.log2_lt_pow2; lia).
  split; [lia | exact H].
Qed.

(** The decimal exponent: [10^(n-1) <= m * 2^e < 10^n]. *)
Lemma exponent10_spec :
  let n := Number.exponent10 m e in
  0 <= n + 325 /\ 10 ^ (n + 399) * K <= V * U * T < 10 ^ (n + 400) * K.
Proof.
  destruct mantissa_log2 as (Hl & Hlo & Hhi). destruct valid as (Hm & He & _).
  pose proof U_pos as HU. pose proof T_pos as HT. pose proof K_pos as HK.
  unfold Number.exponent10. cbv zeta.
  set (L := Z.log2 (Z.pos m) + e).
  destruct (estimate_bounds L ltac:(unfold L; lia)) as (Hest & B1 & B2).
  set (est := L * 30103 / 100000 - 1) in *.
  assert (E1 : 2 ^ (L + 1076) = 4 * 2 ^ Z.log2 (Z.pos m) * U).
  { unfold L, U. replace (Z.log2 (Z.pos m) + e + 1076) with (2 + Z.log2 (Z.pos m) + (e + 1074)) by lia.
    rewrite !Z.pow_add_r by lia. reflexivity. }
  assert (E2 : 2 ^ (L + 1077) = 4 * 2 ^ (Z.log2 (Z.pos m) + 1) * U).
  { unfold L, U. replace (Z.log2 (Z.pos m) + e + 1077) with (2 + (Z.log2 (Z.pos m) + 1) + (e + 1074)) by lia.
    rewrite !Z.pow_add_r by lia. reflexivity. }
  fold K in B1, B2. fold T in B1, B2.
  assert (Hlow : 10 ^ (est + 399) * K <= V * U * T).
  { rewrite E1 in B1. unfold V. nia. }
  assert (Hup : V * U * T < 10 ^ (est + 5 + 400) * K).
  { rewrite E2 in B2. replace (est + 5 + 400) with (est + 405) by lia. unfold V. nia. }
  destruct (findExponent_spec 6 est) as (Hr & Hb & Hprev).
  { exists 5%nat. split; [lia|]. apply below10_iff; [lia | exact Hup]. }
  set (n := Number.findExponent m e 6 est) in *.
  split; [lia|]. split.
  - destruct Hprev as [-> | Hprev]; [exact Hlow|].
    destruct (Z.le_gt_cases (10 ^ (n + 399) * K) (V * U * T)) as [H|H]; [exact H|].
    exfalso. replace (n + 399) with (n - 1 + 400) in H by lia.
    apply below10_iff in H; [congruence | lia].
  - apply below10_iff; [lia | exact Hb].
Qed.

(** With 17 digits there is a candidate. *)
Lemma candidate_17 : Number.candidate m e 17 (Number.exponent10 m e) <> None.
Proof.
  destruct exponent10_spec as (Hn & Hlow & Hup). destruct valid as (Hm & He & Hnorm).
  set (n := Number.exponent10 m e) in *.
  pose proof U_pos as HU. pose proof T_pos as HT. pose proof K_pos as HK.
  assert (Hd : 0 <= n - 17 + 400) by lia.
  assert (HD : 0 < 10 ^ (n - 17 + 400)) by (apply Z.pow_pos_nonneg; lia).
  assert (E1 : 10 ^ (n + 399) = 10 ^ 16 * 10 ^ (n - 17 + 400)).
  { rewrite <- Z.pow_add_r by lia. f_equal. lia. }
  assert (E2 : 10 ^ (n + 400) = 10 ^ 17 * 10 ^ (n - 17 + 400)).
  { rewrite <- Z.pow_add_r by lia. f_equal. lia. }
  rewrite E1 in Hlow. rewrite E2 in Hup.
  assert (Hex : exists s, LO * U * T < s * 10 ^ (n - 17 + 400) * K < HI * U * T /\
                          10 ^ 16 <= s <= 10 ^ 17).
  { destruct (significand_exists V LO HI (10 ^ (n - 17 + 400) * K) (U * T))
      as (s & Hs & Hr).
    - apply Z.mul_pos_pos; assumption.
    - apply Z.mul_pos_pos; assumption.
    - unfold HI, LO. destruct ((Z.pos m =? 2 ^ 52) && (-1074 <? e)); lia.
    - unfold HI, LO, V. change (2 ^ 53) with 9007199254740992 in Hm.
      destruct ((Z.pos m =? 2 ^ 52) && (-1074 <? e)) eqn:C.
      + apply andb_prop in C as [C _]. apply Z.eqb_eq in C. rewrite C. reflexivity.
      + change (10 ^ 16) with 10000000000000000. lia.
    - rewrite !Z.mul_assoc. exact (conj Hlow Hup).
    - exists s. rewrite !Z.mul_assoc in Hs. split; [exact Hs | exact Hr]. }
  destruct Hex as (s & (Hs1 & Hs2) & Hs).
  unfold Number.candidate. cbv zeta.
  apply (pick_complete _ _ _ _ _ _ s); [apply (den_pos (n - 17)) | | exact Hs].
  split; [apply (num_lt_den (n - 17) Hd LO s), Hs1 | apply (den_lt_num (n - 17) Hd HI s), Hs2].
Qed.

Lemma search_spec n fuel : forall k,
  1 <= k -> 0 <= n - (k + Z.of_nat fuel) + 400 ->
  (exists j, (j < fuel)%nat /\ Number.candidate m e (k + Z.of_nat j) n <> None) ->
  let '(s', k', n') := Number.search m e fuel k n in
  1 <= k' <= k + Z.of_nat fuel - 1 /\ 10 ^ (k' - 1) <= s' < 10 ^ k' /\
  0 <= n' - k' + 400 /\ roundsTo m e (s' * 10 ^ (n' - k' + 400)).
Proof.
  induction fuel as [|f IH]; intros k Hk Hn (j & Hj & Hc); [lia|].
  cbn [Number.search]. cbv zeta.
  destruct (Number.candidate m e k n) as [s|] eqn:C.
  - destruct (candidate_sound k n s ltac:(lia) C) as (R & Hs).
    destruct (s =? 10 ^ k) eqn:E.
    + apply Z.eqb_eq in E. subst s.
      split; [lia|]. split; [change (1 - 1) with 0; rewrite Z.pow_0_r, Z.pow_1_r; lia|].
      split; [lia|].
      replace (1 * 10 ^ (n + 1 - 1 + 400)) with (10 ^ k * 10 ^ (n - k + 400)); [exact R|].
      rewrite Z.mul_1_l, <- Z.pow_add_r by lia. f_equal. lia.
    + apply Z.eqb_neq in E. split; [lia|]. split; [lia|]. split; [lia | exact R].
  - destruct j as [|j]; [rewrite Z.add_0_r in Hc; contradiction|].
    specialize (IH (k + 1) ltac:(lia) ltac:(lia)).
    destruct (Number.search m e f (k + 1) n) as [[s' k'] n'].
    destruct IH as (H1 & H2 & H3 & H4).
    { exists j. split; [lia|]. replace (k + 1 + Z.of_nat j) with (k + Z.of_nat (S j)) by lia.
      exact Hc. }
    repeat split; try lia; assumption.
Qed.

(** The digits of Number::toString denote a decimal that rounds to the
    value. *)
Lemma shortest_spec :
  let '(s, k, n) := Number.shortest m e in
  1 <= k <= 17 /\ 10 ^ (k - 1) <= s < 10 ^ k /\
  0 <= n - k + 400 /\ roundsTo m e (s * 10 ^ (n - k + 400)).
Proof.
  unfold Number.shortest. cbv zeta.
  destruct exponent10_spec as (Hn & _).
  pose proof (search_spec (Number.exponent10 m e) 17 1 ltac:(lia) ltac:(lia)) as H.
  destruct (Number.search m e 17 1 (Number.exponent10 m e)) as [[s k] n].
  destruct H as (H1 & H2 & H3 & H4).
  { exists 16%nat. split; [lia|]. exact candidate_17. }
  repeat split; try lia; assumption.
Qed.

End Scaling.

Section Reading.

Lemma length_append s t : String.length (s +:+ t) = (String.length s + String.length t)%nat.
Proof. induction s as [|c s IH]; [reflexivity|]. rewrite append_cons. cbn. rewrite IH. reflexivity. Qed.

Lemma append_nil_r s : s +:+ "" = s.
Proof. induction s as [|c s IH]; [reflexivity|]. rewrite append_cons, IH. reflexivity. Qed.

Lemma allDigits_app s t : allDigits (s +:+ t) = allDigits s && allDigits t.
Proof. apply allChars_app. Qed.

Lemma digitsValue_app s t :
  digitsValue (s +:+ t) = digitsValue s * 10 ^ Z.of_nat (String.length t) + digitsValue t.
Proof.
  induction s as [|c s IH]; [change ("" +:+ t) with t; cbn [digitsValue]; lia|].
  rewrite append_cons. cbn [digitsValue]. rewrite IH, length_append, Nat2Z.inj_add.
  rewrite Z.pow_add_r by lia. ring.
Qed.

Lemma readDigits_app ds : forall rest acc count,
  allDigits ds = true ->
  readDigits (ds +:+ rest) acc count
  = readDigits rest (acc * 10 ^ Z.of_nat (String.length ds) + digitsValue ds)
               (count + Z.of_nat (String.length ds)).
Proof.
  induction ds as [|c ds IH]; intros rest acc count H.
  - change ("" +:+ rest) with rest. cbn [String.length digitsValue Z.of_nat].
    rewrite Z.pow_0_r. f_equal; lia.
  - rewrite append_cons. cbn [allDigits allChars] in H. apply andb_prop in H as [Hc H].
    cbn [readDigits digitsValue String.length].
    destruct (decimalDigit c) as [d|]; [|discriminate Hc].
    rewrite IH by exact H. cbn [default]. rewrite Nat2Z.inj_succ, Z.pow_succ_r by lia.
    unfold id. f_equal; [ring | lia].
Qed.

Lemma readDigits_all ds :
  allDigits ds = true ->
  readDigits ds 0 0 = (digitsValue ds, Z.of_nat (String.length ds), "").
Proof.
  intros H. rewrite <- (append_nil_r ds) at 1. rewrite readDigits_app by exact H.
  cbn [readDigits]. rewrite Z.mul_0_l, !Z.add_0_l. reflexivity.
Qed.

Lemma decimalDigit_digitChar d : 0 <= d < 10 -> decimalDigit (digitChar d) = Some d.
Proof.
  intros H. assert (E : d = 0 \/ d = 1 \/ d = 2 \/ d = 3 \/ d = 4 \/ d = 5 \/ d = 6 \/ d = 7
                        \/ d = 8 \/ d = 9) by lia.
  repeat destruct E as [-> | E]; try reflexivity. subst d. reflexivity.
Qed.

(** The digits of a positional rendering in radix 10. *)
Lemma digitsFrom_spec fuel : forall n acc,
  (1 <= fuel)%nat -> 0 <= n < 10 ^ Z.of_nat fuel ->
  exists ds,
    digitsFrom fuel 10 n acc = ds +:+ acc /\ allDigits ds = true /\ digitsValue ds = n /\
    (1 <= String.length ds)%nat /\ n < 10 ^ Z.of_nat (String.length ds) /\
    (String.length ds = 1%nat \/ 10 ^ (Z.of_nat (String.length ds) - 1) <= n).
Proof.
  induction fuel as [|f IH]; intros n acc Hf Hn; [lia|].
  cbn [digitsFrom]. destruct (n <? 10) eqn:C.
  -
    apply Z.ltb_lt in C. exists (String (digitChar n) "").
    cbn [allDigits allChars digitsValue String.length].
    rewrite decimalDigit_digitChar by lia. cbn.
    repeat split; auto; lia.
  - apply Z.ltb_ge in C.
    assert (Hf1 : (1 <= f)%nat).
    { destruct f; [cbn in Hn; lia | lia]. }
    rewrite Nat2Z.inj_succ, Z.pow_succ_r in Hn by lia.
    destruct (IH (n / 10) (String (digitChar (n mod 10)) acc) Hf1)
      as (ds & E & Hd & Hv & Hl & Hu & Hlow).
    { split; [apply Z.div_pos; lia | apply Z.div_lt_upper_bound; lia]. }
    exists (ds +:+ String (digitChar (n mod 10)) "").
    pose proof (Z.mod_pos_bound n 10 ltac:(lia)) as Hmod.
    pose proof (Z.div_mod n 10 ltac:(lia)) as Hdm.
    rewrite E, append_assoc, allDigits_app, digitsValue_app, length_append, Hd, Hv.
    cbn [allDigits allChars digitsValue String.length append].
    rewrite decimalDigit_digitChar by lia. cbn [default andb].
    replace (Z.of_nat (String.length ds + 1)) with (Z.succ (Z.of_nat (String.length ds))) by lia.
    rewrite Z.pow_succ_r by lia.
    replace (Z.succ (Z.of_nat (String.length ds)) - 1) with (Z.of_nat (String.length ds)) by lia.
    split; [reflexivity|]. split; [reflexivity|]. split; [unfold id; cbn; lia|]. split; [lia|].
    split; [lia|]. right.
    destruct Hlow as [H1 | Hlow].
    + rewrite H1. cbn. lia.
    + replace (Z.of_nat (String.length ds)) with (Z.succ (Z.of_nat (String.length ds) - 1)) by lia.
      rewrite Z.pow_succ_r by lia. lia.
Qed.

Lemma pow10_size a b n : 10 ^ (a - 1) <= n < 10 ^ a -> 10 ^ (b - 1) <= n < 10 ^ b ->
  1 <= a -> 1 <= b -> a = b.
Proof.
  intros Ha Hb Ha1 Hb1.
  destruct (Z.lt_total a b) as [H|[H|H]]; [|exact H|]; exfalso.
  - assert (10 ^ a <= 10 ^ (b - 1)) by (apply Z.pow_le_mono_r; lia). lia.
  - assert (10 ^ b <= 10 ^ (a - 1)) by (apply Z.pow_le_mono_r; lia). lia.
Qed.

Lemma digitString_spec n :
  0 <= n ->
  allDigits (digitString 10 n) = true /\ digitsValue (digitString 10 n) = n /\
  (1 <= String.length (digitString 10 n))%nat /\
  forall k, 1 <= k -> 10 ^ (k - 1) <= n < 10 ^ k ->
            Z.of_nat (String.length (digitString 10 n)) = k.
Proof.
  intros Hn. unfold digitString.
  destruct (digitsFrom_spec (S (Z.to_nat (Z.log2 n))) n "" ltac:(lia))
    as (ds & E & Hd & Hv & Hl & Hu & Hlow).
  { split; [exact Hn|]. rewrite Nat2Z.inj_succ, Z2Nat.id by apply Z.log2_nonneg.
    destruct (Z.eq_dec n 0) as [->|Hne]; [cbn; lia|].
    pose proof (Z.log2_spec n ltac:(lia)) as [_ H].
    assert (2 ^ Z.succ (Z.log2 n) <= 10 ^ Z.succ (Z.log2 n)).
    { apply Z.pow_le_mono_l. lia. }
    lia. }
  rewrite E, append_nil_r. split; [exact Hd|]. split; [exact Hv|]. split; [exact Hl|].
  intros k Hk Hr. destruct Hlow as [H1 | Hlow].
  - rewrite H1 in *. cbn in Hu.
    destruct (Z.eq_dec k 1) as [->|Hne]; [reflexivity|]. exfalso.
    assert (10 ^ 1 <= 10 ^ (k - 1)) by (apply Z.pow_le_mono_r; lia).
    change (10 ^ 1) with 10 in *. lia.
  - apply (pow10_size _ _ n); try lia.
Qed.

Lemma zeros_succ n : zeros (Z.of_nat (S n)) = String "0" (zeros (Z.of_nat n)).
Proof.
  unfold zeros. rewrite !Nat2Z.id. cbn [repeat String.concat].
  destruct n; reflexivity.
Qed.

Lemma zeros_spec n :
  allDigits (zeros n) = true /\ digitsValue (zeros n) = 0 /\
  Z.of_nat (String.length (zeros n)) = Z.max n 0.
Proof.
  assert (H : forall k, allDigits (zeros (Z.of_nat k)) = true /\
                        digitsValue (zeros (Z.of_nat k)) = 0 /\
                        String.length (zeros (Z.of_nat k)) = k).
  { induction k as [|k (H1 & H2 & H3)]; [repeat split|].
    rewrite zeros_succ. cbn [allDigits allChars digitsValue String.length].
    fold (allDigits (zeros (Z.of_nat k))). rewrite H1, H2, H3. repeat split. }
  destruct (Z.le_gt_cases 0 n) as [Hn|Hn].
  - specialize (H (Z.to_nat n)). rewrite Z2Nat.id in H by lia.
    destruct H as (H1 & H2 & H3). rewrite H3. repeat split; auto; lia.
  - unfold zeros. replace (Z.to_nat n) with 0%nat by lia. cbn. repeat split; lia.
Qed.

Lemma substring_split s : forall a,
  (a <= String.length s)%nat ->
  s = substring 0 a s +:+ substring a (String.length s - a) s /\
  String.length (substring 0 a s) = a /\
  String.length (substring a (String.length s - a) s) = (String.length s - a)%nat.
Proof.
  induction s as [|c s IH]; intros [|a] H; cbn in H; try lia.
  - repeat split.
  - cbn [String.length substring Nat.sub].
    assert (E : forall t, substring 0 (String.length t) t = t)
      by (induction t as [|c' t IHt]; cbn; [|rewrite IHt]; reflexivity).
    rewrite E. repeat split.
  - destruct (IH a ltac:(lia)) as (E & L1 & L2).
    cbn [String.length substring Nat.sub]. rewrite append_cons, <- E.
    cbn [String.length]. repeat split; auto.
Qed.

Lemma readDecimal_integer s a i :
  readDigits s 0 0 = (a, i, "") -> i <> 0 -> readDecimal s = Some (a, 0).
Proof.
  intros E Hi. unfold readDecimal. rewrite E.
  apply Z.eqb_neq in Hi. rewrite Hi. reflexivity.
Qed.

Lemma readDecimal_fraction s a0 i r a f :
  readDigits s 0 0 = (a0, i, String "." r) -> i <> 0 ->
  readDigits r a0 0 = (a, f, "") ->
  readDecimal s = Some (a, - f).
Proof.
  intros E Hi Er. unfold readDecimal. rewrite E.
  apply Z.eqb_neq in Hi. rewrite Hi, Er. reflexivity.
Qed.

Lemma readDecimal_exponent s a i (negative : bool) r x j rest :
  readDigits s 0 0 = (a, i, String "e" (String (if negative then "-" else "+")%char r)) ->
  i <> 0 -> readDigits r 0 0 = (x, j, rest) ->
  readDecimal s = Some (a, (if negative then - x else x) - 0).
Proof.
  intros E Hi Er. unfold readDecimal. rewrite E.
  apply Z.eqb_neq in Hi. rewrite Hi. destruct negative; rewrite Er; reflexivity.
Qed.

Lemma readDecimal_fraction_exponent s a0 i r0 a f (negative : bool) r x j rest :
  readDigits s 0 0 = (a0, i, String "." r0) -> i <> 0 ->
  readDigits r0 a0 0
    = (a, f, String "e" (String (if negative then "-" else "+")%char r)) ->
  readDigits r 0 0 = (x, j, rest) ->
  readDecimal s = Some (a, (if negative then - x else x) - f).
Proof.
  intros E Hi E0 Er. unfold readDecimal. rewrite E.
  apply Z.eqb_neq in Hi. rewrite Hi, E0. destruct negative; rewrite Er; reflexivity.
Qed.

(** A rendering is read back as its digits and exponent; a whole number
    written out in full carries its zeros in the digits. *)
Lemma readDecimal_format s k n :
  1 <= k -> 10 ^ (k - 1) <= s < 10 ^ k ->
  readDecimal (Number.format s k n)
  = Some (if (-5 <=? n) && (n <=? 21) && (k <=? n) then (s * 10 ^ (n - k), 0) else (s, n - k)).
Proof.
  intros Hk Hs.
  assert (Hs0 : 0 <= s).
  { assert (0 < 10 ^ (k - 1)) by (apply Z.pow_pos_nonneg; lia). lia. }
  destruct (digitString_spec s Hs0) as (Hd & Hv & _ & Hlen).
  specialize (Hlen k Hk Hs).
  unfold Number.format. cbv zeta.
  set (ds := digitString 10 s) in *.
  assert (Hex : forall ex, 0 <= ex ->
            readDigits (digitString 10 ex) 0 0
            = (ex, Z.of_nat (String.length (digitString 10 ex)), "")).
  { intros ex Hx. destruct (digitString_spec ex Hx) as (Hd' & Hv' & _).
    rewrite readDigits_all by exact Hd'. rewrite Hv'. reflexivity. }
  destruct ((-5 <=? n) && (n <=? 21)) eqn:Hrange; cbn [andb].
  - destruct (k <=? n) eqn:Hkn.
    + apply Z.leb_le in Hkn.
      destruct (zeros_spec (n - k)) as (Hz1 & Hz2 & Hz3).
      apply (readDecimal_integer _ _ (Z.of_nat (String.length (ds +:+ zeros (n - k))))).
      * rewrite readDigits_all by (rewrite allDigits_app, Hd, Hz1; reflexivity).
        rewrite digitsValue_app, Hv, Hz2, Hz3. rewrite Z.max_l by lia.
        rewrite Z.add_0_r. reflexivity.
      * rewrite length_append. lia.
    + apply Z.leb_gt in Hkn. destruct (0 <? n) eqn:Hn.
      * apply Z.ltb_lt in Hn.
        destruct (substring_split ds (Z.to_nat n) ltac:(lia)) as (E & L1 & L2).
        replace (String.length ds - Z.to_nat n)%nat with (Z.to_nat (k - n)) in E, L2 by lia.
        set (s1 := substring 0 (Z.to_nat n) ds) in *.
        set (s2 := substring (Z.to_nat n) (Z.to_nat (k - n)) ds) in *.
        assert (Hd12 : allDigits s1 = true /\ allDigits s2 = true).
        { rewrite E, allDigits_app in Hd. apply andb_prop in Hd. exact Hd. }
        destruct Hd12 as [Hd1 Hd2].
        replace (n - k) with (- Z.of_nat (String.length s2)) by lia.
        eapply readDecimal_fraction.
        -- rewrite readDigits_app by exact Hd1. rewrite append_cons. cbn [readDigits].
           change (decimalDigit ".") with (@None Z). cbv iota. reflexivity.
        -- lia.
        -- change ("" +:+ s2) with s2. rewrite <- (append_nil_r s2) at 1.
           rewrite readDigits_app by exact Hd2. cbn [readDigits].
           f_equal. f_equal. rewrite <- Hv, E, digitsValue_app. lia.
      * apply Z.ltb_ge in Hn.
        destruct (zeros_spec (- n)) as (Hz1 & Hz2 & Hz3).
        replace (n - k) with (- Z.of_nat (String.length (zeros (- n) +:+ ds)))
          by (rewrite length_append; lia).
        eapply (readDecimal_fraction _ 0 1).
        -- reflexivity.
        -- lia.
        -- rewrite readDigits_all by (rewrite allDigits_app, Hd, Hz1; reflexivity).
           rewrite digitsValue_app, Hv, Hz2. reflexivity.
  - set (ex := n - 1).
    assert (Esign : (if ex <? 0 then "-" else "+") +:+ digitString 10 (Z.abs ex)
                    = String (if ex <? 0 then "-"%char else "+"%char) (digitString 10 (Z.abs ex)))
      by (destruct (ex <? 0); reflexivity).
    rewrite Esign.
    assert (Eex : (if ex <? 0 then - Z.abs ex else Z.abs ex) = ex)
      by (destruct (ex <? 0) eqn:C; [apply Z.ltb_lt in C | apply Z.ltb_ge in C]; lia).
    destruct (k =? 1) eqn:Hk1.
    + apply Z.eqb_eq in Hk1.
      replace (n - k) with ((if ex <? 0 then - Z.abs ex else Z.abs ex) - 0)
        by (rewrite Eex; unfold ex; lia).
      eapply readDecimal_exponent.
      * rewrite readDigits_app by exact Hd. rewrite append_cons. cbn [readDigits].
        change (decimalDigit "e") with (@None Z). cbv iota.
        rewrite Hv, Hlen. reflexivity.
      * lia.
      * apply Hex. lia.
    + apply Z.eqb_neq in Hk1.
      destruct (substring_split ds 1 ltac:(lia)) as (E & L1 & L2).
      replace (String.length ds - 1)%nat with (Z.to_nat (k - 1)) in E, L2 by lia.
      set (s1 := substring 0 1 ds) in *.
      set (s2 := substring 1 (Z.to_nat (k - 1)) ds) in *.
      assert (Hd12 : allDigits s1 = true /\ allDigits s2 = true).
      { rewrite E, allDigits_app in Hd. apply andb_prop in Hd. exact Hd. }
      destruct Hd12 as [Hd1 Hd2].
      replace (n - k) with ((if ex <? 0 then - Z.abs ex else Z.abs ex)
                            - Z.of_nat (String.length s2)) by (rewrite Eex; unfold ex; lia).
      eapply readDecimal_fraction_exponent.
      * rewrite readDigits_app by exact Hd1. rewrite append_cons. cbn [readDigits].
        change (decimalDigit ".") with (@None Z). cbv iota. reflexivity.
      * lia.
      * change ("" +:+ s2 +:+ "e" +:+ ?t) with (s2 +:+ "e" +:+ t).
        rewrite readDigits_app by exact Hd2. rewrite append_cons. cbn [readDigits].
        change (decimalDigit "e") with (@None Z). cbv iota.
        change ("" +:+ ?t) with t.
        apply f_equal2; [apply f_equal2|reflexivity].
        -- rewrite <- Hv, E, digitsValue_app. lia.
        -- lia.
      * apply Hex. lia.
Qed.

End Reading.

Section SameNumber.

Lemma SFeqb_iff a b :
  SFeqb a b = true <->
  (a = b /\ a <> S754_nan) \/ (exists s s', a = S754_zero s /\ b = S754_zero s').
Proof.
  unfold SFeqb. split.
  - intros H. destruct a as [s|s| |s m e], b as [s'|s'| |s' m' e']; cbn in H;
      repeat match type of H with context [if ?c then _ else _] => destruct c end;
      try discriminate H;
      try (right; do 2 eexists; split; reflexivity);
      try (left; split; [reflexivity | discriminate]).
    + destruct (Z.compare_spec e e') as [->| |]; try discriminate H.
      destruct (Pos.compare_cont Eq m m') eqn:C; try discriminate H.
      apply Pos.compare_eq in C. subst m'. left. split; [reflexivity | discriminate].
    + destruct (Z.compare_spec e e') as [->| |]; try discriminate H.
      destruct (Pos.compare_cont Eq m m') eqn:C; try discriminate H.
      apply Pos.compare_eq in C. subst m'. left. split; [reflexivity | discriminate].
  - intros [[<- Hn] | (s & s' & -> & ->)]; [|reflexivity].
    destruct a as [s|s| |s m e]; cbn; try reflexivity; try contradiction.
    + destruct s; reflexivity.
    + rewrite Z.compare_refl, Pos.compare_cont_refl. destruct s; reflexivity.
Qed.

Lemma SFeqb_refl a : a <> S754_nan -> SFeqb a a = true.
Proof. intros H. apply SFeqb_iff. left. auto. Qed.

(** [sameNumber]: the same value, the two zeros counting as one. *)
Lemma sameNumber_iff x y :
  sameNumber x y = true <->
  x = y \/ (exists s s', Prim2SF x = S754_zero s /\ Prim2SF y = S754_zero s').
Proof.
  unfold sameNumber, is_nan. rewrite !FloatAxioms.eqb_spec.
  split.
  - intros H. apply orb_prop in H as [H | H].
    + apply SFeqb_iff in H as [[E _] | H]; [left; apply Prim2SF_inj, E | right; exact H].
    + apply andb_prop in H as [Hx Hy]. left. apply Prim2SF_inj.
      assert (N : forall a, negb (SFeqb a a) = true -> a = S754_nan).
      { intros a Ha. destruct a as [s|s| |s m e]; try reflexivity;
          rewrite SFeqb_refl in Ha by discriminate; discriminate Ha. }
      rewrite (N _ Hx), (N _ Hy). reflexivity.
  - intros [<- | (s & s' & Ex & Ey)].
    + destruct (Prim2SF x) as [s|s| |s m e] eqn:E.
      * apply orb_true_intro. left. apply SFeqb_iff. right. eauto.
      * apply orb_true_intro. left. apply SFeqb_iff. left. split; [reflexivity | discriminate].
      * reflexivity.
      * apply orb_true_intro. left. apply SFeqb_iff. left. split; [reflexivity | discriminate].
    + rewrite Ex, Ey. reflexivity.
Qed.

End SameNumber.

Section Rendering.

(** The rendering of a finite number that is not zero is read back as
    its sign and a decimal that rounds to it. *)
Lemma toString_read x sg m e :
  Prim2SF x = S754_finite sg m e ->
  exists ab,
    readNumber (Number.toString x) = Some (sg, ab) /\
    roundsTo m e (weight ab) /\ 0 < weight ab.
Proof.
  intros E. pose proof (finite_canonical x sg m e E) as C.
  pose proof (shortest_spec m e C) as S.
  unfold Number.toString. rewrite E.
  destruct (Number.shortest m e) as [[d k] n]. destruct S as (Hk & Hd & Hn & R).
  pose proof (readDecimal_format d k n ltac:(lia) Hd) as F.
  set (ab := if (-5 <=? n) && (n <=? 21) && (k <=? n) then (d * 10 ^ (n - k), 0) else (d, n - k))
    in *.
  assert (W : weight ab = d * 10 ^ (n - k + 400)).
  { unfold ab, weight. destruct ((-5 <=? n) && (n <=? 21) && (k <=? n)) eqn:B; cbn [fst snd].
    - apply andb_prop in B as [_ B]. apply Z.leb_le in B.
      change (0 + 400) with 400. rewrite (Z.pow_add_r 10 (n - k) 400) by lia. ring.
    - reflexivity. }
  exists ab. rewrite W. split; [|split; [exact R|]].
  - unfold readNumber. destruct sg.
    + change ("-" +:+ Number.format d k n) with (String "-" (Number.format d k n)).
      change (readDecimal (String "-" (Number.format d k n))) with (@None (Z * Z)).
      cbv iota. rewrite F. reflexivity.
    + change ("" +:+ Number.format d k n) with (Number.format d k n).
      rewrite F. reflexivity.
  - assert (0 < 10 ^ (k - 1)) by (apply Z.pow_pos_nonneg; lia).
    assert (0 < 10 ^ (n - k + 400)) by (apply Z.pow_pos_nonneg; lia).
    nia.
Qed.

(** What each class of numbers is rendered as. *)
Lemma toString_shape x :
  match Prim2SF x with
  | S754_zero _ => readNumber (Number.toString x) = Some (false, (0, 0))
  | S754_infinity s =>
      Number.toString x = (if s then "-" else "") +:+ "Infinity" /\
      readNumber (Number.toString x) = None
  | S754_nan => Number.toString x = "NaN" /\ readNumber (Number.toString x) = None
  | S754_finite s m e =>
      exists ab,
        readNumber (Number.toString x) = Some (s, ab) /\
        roundsTo m e (weight ab) /\ 0 < weight ab
  end.
Proof.
  destruct (Prim2SF x) as [s|s| |s m e] eqn:E.
  - unfold Number.toString. rewrite E. reflexivity.
  - unfold Number.toString. rewrite E. destruct s; split; reflexivity.
  - unfold Number.toString. rewrite E. split; reflexivity.
  - apply (toString_read x s m e E).
Qed.

(** Number::toString renders two numbers alike exactly when they are the
    same number. *)
Lemma toString_inj x y :
  Number.toString x = Number.toString y <-> sameNumber x y = true.
Proof.
  rewrite sameNumber_iff. split.
  - intros H. pose proof (toString_shape x) as Sx. pose proof (toString_shape y) as Sy.
    rewrite H in Sx.
    destruct (Prim2SF x) as [s|s| |s m e] eqn:Ex, (Prim2SF y) as [s'|s'| |s' m' e'] eqn:Ey.
    + right. eauto.
    + destruct Sy as [_ Sy]. congruence.
    + destruct Sy as [_ Sy]. congruence.
    + destruct Sy as (ab & Sy & _ & Hw). rewrite Sx in Sy. injection Sy as <- <-.
      unfold weight in Hw. cbn [fst snd] in Hw. lia.
    + destruct Sx as [_ Sx]. congruence.
    + destruct Sx as [Sx _], Sy as [Sy _]. rewrite Sx in Sy.
      left. apply Prim2SF_inj. rewrite Ex, Ey.
      destruct s, s'; try discriminate Sy; reflexivity.
    + destruct Sx as [Sx _], Sy as [Sy _]. rewrite Sx in Sy. destruct s; discriminate Sy.
    + destruct Sx as [_ Sx], Sy as (ab & Sy & _). congruence.
    + destruct Sx as [_ Sx]. congruence.
    + destruct Sx as [Sx _], Sy as [Sy _]. rewrite Sx in Sy. destruct s'; discriminate Sy.
    + left. apply Prim2SF_inj. rewrite Ex, Ey. reflexivity.
    + destruct Sx as [_ Sx], Sy as (ab & Sy & _). congruence.
    + destruct Sx as (ab & Sx & _ & Hw). rewrite Sx in Sy. injection Sy as -> ->.
      unfold weight in Hw. cbn [fst snd] in Hw. lia.
    + destruct Sy as [_ Sy], Sx as (ab & Sx & _). congruence.
    + destruct Sy as [_ Sy], Sx as (ab & Sx & _). congruence.
    + destruct Sx as (ab & Sx & Hr & _), Sy as (ab' & Sy & Hr' & _).
      rewrite Sx in Sy. injection Sy as -> ->.
      destruct (roundsTo_unique m e m' e' (weight ab')
                  (finite_canonical x _ _ _ Ex) (finite_canonical y _ _ _ Ey) Hr Hr')
        as [-> ->].
      left. apply Prim2SF_inj. rewrite Ex, Ey. reflexivity.
  - intros [-> | (s & s' & Ex & Ey)]; [reflexivity|].
    unfold Number.toString. rewrite Ex, Ey. reflexivity.
Qed.

End Rendering.

(** C1, as amended: two colors get the same exact-match key exactly when
    their r, g and b components are the same numbers and their alpha
    values, each rounded to two decimals on its own (an absent alpha
    counting as 1), are the same number; +0 and -0 are the same number, and
    so are NaN and NaN.  Colors that differ in a component, be it in its
    last bit, never share a key. *)
Theorem rgbOpacityKey_eq_iff (r1 g1 b1 : float) (a1 : option float)
                             (r2 g2 b2 : float) (a2 : option float) :
  rgbOpacityKey r1 g1 b1 a1 = rgbOpacityKey r2 g2 b2 a2 <->
  sameNumber r1 r2 = true /\
  sameNumber g1 g2 = true /\
  sameNumber b1 b2 = true /\
  sameNumber (roundAlpha a1) (roundAlpha a2) = true.
Proof.
  assert (Hd : forall a, roundAlpha (Some (default 1%float a)) = roundAlpha a)
    by (intros [x|]; reflexivity).
  unfold rgbOpacityKey. rewrite !Hd. rewrite <- !toString_inj. split.
  - intros E.
    apply field_split in E as [Er E]; try apply noComma_toString.
    apply field_split in E as [Eg E]; try apply noComma_toString.
    apply field_split in E as [Eb E]; try apply noComma_toString.
    auto.
  - intros (-> & -> & -> & ->). reflexivity.
Qed.

(** C1, the claim as stated fails.  The alpha values 0.004 and 0.006 are
    within 0.01 of each other, yet they round to 0 and 0.01 and the keys of
    two otherwise identical colors differ.  Besides, the rounded alpha values
    0.09 and 0.08 differ by less than 0.01 in binary64 and give different
    keys, and the components -0 and +0 are not the same bits and give the
    same key. *)
Lemma rgbOpacityKey_close_alpha_distinct :
  (PrimFloat.ltb (Math.abs (PrimFloat.sub 0.004 0.006)) 0.01 = true /\
   rgbOpacityKey 0 0 0 (Some 0.004%float) = "0,0,0,0" /\
   rgbOpacityKey 0 0 0 (Some 0.006%float) = "0,0,0,0.01" /\
   rgbOpacityKey 0 0 0 (Some 0.004%float) <> rgbOpacityKey 0 0 0 (Some 0.006%float)) /\
  (PrimFloat.ltb (Math.abs (PrimFloat.sub (roundAlpha (Some 0.09%float))
                                          (roundAlpha (Some 0.08%float)))) 0.01 = true /\
   rgbOpacityKey 0 0 0 (Some 0.09%float) <> rgbOpacityKey 0 0 0 (Some 0.08%float)) /\
  (PrimFloat.neg_zero <> PrimFloat.zero /\
   rgbOpacityKey PrimFloat.neg_zero 0 0 None = rgbOpacityKey PrimFloat.zero 0 0 None).
Proof.
  assert (E1 : rgbOpacityKey 0 0 0 (Some 0.004%float) = "0,0,0,0") by (vm_compute; reflexivity).
  assert (E2 : rgbOpacityKey 0 0 0 (Some 0.006%float) = "0,0,0,0.01") by (vm_compute; reflexivity).
  assert (E3 : rgbOpacityKey 0 0 0 (Some 0.09%float) = "0,0,0,0.09") by (vm_compute; reflexivity).
  assert (E4 : rgbOpacityKey 0 0 0 (Some 0.08%float) = "0,0,0,0.08") by (vm_compute; reflexivity).
  split; [|split].
  - split; [vm_compute; reflexivity|].
    split; [exact E1|]. split; [exact E2|].
    intros E. rewrite E1, E2 in E. discriminate E.
  - split; [vm_compute; reflexivity|].
    intros E. rewrite E3, E4 in E. discriminate E.
  - split; [|vm_compute; reflexivity].
    intros E. apply (f_equal Prim2SF) in E. vm_compute in E. discriminate E.
Qed.

(** Two components one unit in the last place apart, 0.1 + 0.2 and 0.3,
    give different keys; the alpha values 0.5 and 0.501 round to the same
    number and give the same key. *)
Example adjacent_components_distinct :
  sameNumber (PrimFloat.add 0.1 0.2) 0.3 = false /\
  rgbOpacityKey (PrimFloat.add 0.1 0.2) 0 0 None = "0.30000000000000004,0,0,1" /\
  rgbOpacityKey 0.3 0 0 None = "0.3,0,0,1" /\
  sameNumber (roundAlpha (Some 0.5%float)) (roundAlpha (Some 0.501%float)) = true /\
  rgbOpacityKey 1 0 0 (Some 0.5%float) = rgbOpacityKey 1 0 0 (Some 0.501%float).
Proof. repeat split; vm_compute; reflexivity. Qed.
